(** * Wav-Csv: decoding, normalisation, epoch aggregation and batch conversion

    A shallow embedding of the Python sources

      - [tools/wav2csv.py]        (decoder, normaliser, mono mix, CSV writer, command line)
      - [wav_to_csv.py]           (one-second averages of a recording)
      - [caloricExpenditure.py]   (prompts, epoch aggregation, BMR, energy expenditure)
      - [tools/batch_wav2csv.py]  (batch orchestrator)
      - [tools/analyze_smartshirt_data.py]  (loading a table, unit conversion, statistics)

    Conventions of the embedding.

    - Python [int]s and numpy integer samples are [Z]; bytes are [Byte.byte].
    - A floating-point value is the number it holds.  In [wav2csv.py]
      and [analyze_smartshirt_data.py] the numbers are rationals and
      every operation rounds its result to the nearest [float32] or
      [float64], ties to even, with an unbounded exponent; sums along an
      axis are added in numpy's order.  In [wav_to_csv.py] (sums of
      16-bit integers) and in [caloricExpenditure.py] the operations are
      those of [Q] and of [R] (a square root occurs) without rounding:
      what is proved there is the formula the code evaluates, or a bound
      or an order that rounding to the nearest keeps.  Infinities and
      NaN are outside the model, except for the answers [get_user_data]
      reads, where they pass or fail the checks.
    - A numpy array is its dtype together with a one- or two-dimensional
      block of elements.
    - Python exceptions are values of an error type; the file system and
      the spawned converter are explicit state.
    - Library calls (numpy, pandas, [glob], [os.path], [subprocess]) are
      given the results their documentation describes. *)

From Stdlib Require Import ZArith QArith Qabs Qround Qpower Reals Psatz List Ascii String.
From Stdlib Require Import Strings.Byte DecimalString.
From stdpp Require Import base tactics option list strings gmap sorting.

Set Warnings "-clear-no-such-hyp".

Local Open Scope Z_scope.

(** ** Python exceptions as results *)

Inductive result (E A : Type) : Type :=
| Ok (a : A)
| Raise (e : E).
Arguments Ok {E A} a.
Arguments Raise {E A} e.

#[global] Instance result_ret {E} : MRet (result E) := fun _ a => Ok a.
#[global] Instance result_bind {E} : MBind (result E) := fun _ _ k m =>
  match m with
  | Ok a => k a
  | Raise e => Raise e
  end.

(** * tools/wav2csv.py *)

Module Wav2Csv.

(** ** Floating-point numbers

    A float is the rational number it holds.  [round_bin p] rounds a
    number to [p] significant bits, to the nearest and with ties to the
    even significand, as IEEE 754 arithmetic rounds every result: [f32]
    is the rounding of [float32], [f64] that of [float64] and of
    Python's [float].  The exponent is not bounded: the values of these
    programs are far from overflow and from subnormal numbers. *)

(** The nearest integer, ties to even. *)
Definition round_half_even (q : Q) : Z :=
  let n := Qnum q in
  let d := Zpos (Qden q) in
  match (2 * (n mod d) ?= d) with
  | Lt => n / d
  | Gt => n / d + 1
  | Eq => if Z.even (n / d) then n / d else n / d + 1
  end.

(** The same, whatever fraction denotes the number. *)
Definition rne (q : Q) : Z := round_half_even (Qred q).

(** The exponent of a positive number: [2^e <= q < 2^(e+1)]. *)
Definition ilog2 (q : Q) : Z :=
  let e0 := Z.log2 (Qnum q) - Z.log2 (Zpos (Qden q)) in
  if Qle_bool (2 ^ e0) q then e0 else e0 - 1.

(** A positive [q] rounded to [p] significant bits: scaled into
    [2^(p-1), 2^p), rounded to an integer, scaled back. *)
Definition round_bin_pos (p : Z) (q : Q) : Q :=
  let s := ilog2 q - p + 1 in
  (inject_Z (rne (q * 2 ^ (- s))) * 2 ^ s)%Q.

(** The result is kept in lowest terms. *)
Definition round_bin (p : Z) (q : Q) : Q :=
  let q := Qred q in
  Qred match Qnum q with
       | Z0 => 0
       | Zpos _ => round_bin_pos p q
       | Zneg _ => - round_bin_pos p (- q)
       end.

Definition f32 : Q -> Q := round_bin 24.
Definition f64 : Q -> Q := round_bin 53.

(** The exact sum, for comparison. *)
Definition Qsum (l : list Q) : Q := fold_right Qplus 0%Q l.

(** *** Sums of floats

    [np.add.reduce] along a contiguous axis adds the elements in the
    order of numpy's pairwise summation: fewer than 8 elements from the
    left; up to 128 elements with 8 running sums, combined in pairs,
    then the remaining elements from the left; a longer run is split
    in two.  Every addition is rounded by [rnd]. *)
Section Sum.

Context (rnd : Q -> Q).

Definition fadd (a b : Q) : Q := rnd (a + b).

(** [res = 0.; for (i = 0; i < n; i++) res += a[i]] *)
Definition sum_small (l : list Q) : Q := fold_left fadd l 0%Q.

(** [r[j] += a[i + j]], for [k] blocks of 8 elements. *)
Fixpoint add_blocks (k : nat) (r l : list Q) : list Q * list Q :=
  match k with
  | O => (r, l)
  | S k' => add_blocks k' (zip_with fadd r (take 8 l)) (drop 8 l)
  end.

(** From 8 to 128 elements. *)
Definition sum_unrolled (l : list Q) : Q :=
  let '(r, rest) := add_blocks (length l / 8 - 1) (take 8 l) (drop 8 l) in
  match r with
  | [r0; r1; r2; r3; r4; r5; r6; r7] =>
      let res := fadd (fadd (fadd r0 r1) (fadd r2 r3)) (fadd (fadd r4 r5) (fadd r6 r7)) in
      fold_left fadd rest res
  | _ => 0%Q
  end.

(** [fuel] bounds the depth of the halving; the length of the list is
    more than enough. *)
Fixpoint pairwise_sum (fuel : nat) (l : list Q) : Q :=
  let n := length l in
  if (n <? 8)%nat then sum_small l
  else if (n <=? 128)%nat then sum_unrolled l
  else
    match fuel with
    | O => 0%Q
    | S fuel' =>
        let n2 := (n / 2 - (n / 2) mod 8)%nat in
        fadd (pairwise_sum fuel' (take n2 l)) (pairwise_sum fuel' (drop n2 l))
    end.

Definition np_sum (l : list Q) : Q := pairwise_sum (length l) l.

End Sum.

(** ** numpy arrays *)

Inductive dtype : Type :=
| int8 | uint8 | int16 | uint16 | int32 | uint32 | int64 | uint64
| float32 | float64
| bool_.

(** [np.issubdtype(d, np.integer)] and [np.issubdtype(d, np.floating)];
    [bool_] is neither. *)
Definition is_integer (d : dtype) : bool :=
  match d with
  | int8 | uint8 | int16 | uint16 | int32 | uint32 | int64 | uint64 => true
  | _ => false
  end.

Definition is_floating (d : dtype) : bool :=
  match d with
  | float32 | float64 => true
  | _ => false
  end.

(** [str(dtype)] *)
Definition dtype_name (d : dtype) : string :=
  match d with
  | int8 => "int8" | uint8 => "uint8" | int16 => "int16" | uint16 => "uint16"
  | int32 => "int32" | uint32 => "uint32" | int64 => "int64" | uint64 => "uint64"
  | float32 => "float32" | float64 => "float64"
  | bool_ => "bool"
  end.

(** [np.iinfo(d).min] and [np.iinfo(d).max] for the integer dtypes
    (for the others [np.iinfo] raises; [normalize_audio] never asks). *)
Definition iinfo_min (d : dtype) : Z :=
  match d with
  | int8 => - 2 ^ 7 | int16 => - 2 ^ 15 | int32 => - 2 ^ 31 | int64 => - 2 ^ 63
  | _ => 0
  end.

Definition iinfo_max (d : dtype) : Z :=
  match d with
  | int8 => 2 ^ 7 - 1 | int16 => 2 ^ 15 - 1 | int32 => 2 ^ 31 - 1 | int64 => 2 ^ 63 - 1
  | uint8 => 2 ^ 8 - 1 | uint16 => 2 ^ 16 - 1 | uint32 => 2 ^ 32 - 1 | uint64 => 2 ^ 64 - 1
  | _ => 0
  end.

(** The elements of an array: a vector ([ndim == 1]) or a matrix of
    [ncols] columns ([ndim == 2]; the column count is kept apart, it is
    defined for a matrix without rows too). *)
Inductive block (A : Type) : Type :=
| Vec (xs : list A)
| Mat (ncols : nat) (rows : list (list A)).
Arguments Vec {A} xs.
Arguments Mat {A} ncols rows.

(** Integer arrays hold [Z], floating arrays hold [Q]; [dt] is the
    dtype tag numpy keeps. *)
Inductive elems : Type :=
| Ints (b : block Z)
| Floats (b : block Q)
| Bools (b : block bool).

Record ndarray : Type := mk_ndarray { dt : dtype; el : elems }.

Definition block_map {A B} (f : A -> B) (b : block A) : block B :=
  match b with
  | Vec xs => Vec (map f xs)
  | Mat n rows => Mat n (map (map f) rows)
  end.

(** All elements, row by row ([arr.ravel()]). *)
Definition block_flat {A} (b : block A) : list A :=
  match b with
  | Vec xs => xs
  | Mat _ rows => concat rows
  end.

Definition block_ndim {A} (b : block A) : nat :=
  match b with Vec _ => 1%nat | Mat _ _ => 2%nat end.

(** [x.shape[0]] *)
Definition block_shape0 {A} (b : block A) : nat :=
  match b with Vec xs => length xs | Mat _ rows => length rows end.

Definition ndim (a : ndarray) : nat :=
  match el a with
  | Ints b => block_ndim b | Floats b => block_ndim b | Bools b => block_ndim b
  end.

Definition shape0 (a : ndarray) : nat :=
  match el a with
  | Ints b => block_shape0 b | Floats b => block_shape0 b | Bools b => block_shape0 b
  end.

(** [x.shape[1]] of a matrix. *)
Definition shape1 (a : ndarray) : nat :=
  match el a with
  | Ints (Mat n _) | Floats (Mat n _) | Bools (Mat n _) => n
  | _ => 0%nat
  end.

(** The elements read as numbers ([astype(float)]): exact on integers,
    [True] is 1 and [False] is 0. *)
Definition as_float (e : elems) : block Q :=
  match e with
  | Ints b => block_map inject_Z b
  | Floats b => b
  | Bools b => block_map (fun x : bool => if x then 1%Q else 0%Q) b
  end.

(** What an array of dtype [d] stores of a number: a floating array
    holds the nearest float of its width.  The elements of a floating
    array are kept here as the numbers computed for them, and every
    reader takes them through [stored]. *)
Definition stored (d : dtype) (q : Q) : Q :=
  match d with
  | float32 => f32 q
  | float64 => f64 q
  | _ => q
  end.

(** The numbers an array holds. *)
Definition values (a : ndarray) : block Q := block_map (stored (dt a)) (as_float (el a)).

(** The array as [float64], as [np.column_stack] makes it beside a
    [float64] column. *)
Definition to_float64 (a : ndarray) : block Q := block_map f64 (values a).

(** ** read_wav_file *)

(** What [wave.open] hands over: the header fields and the bytes
    [readframes(n_frames)] returns. *)
Record wav_file : Type := mk_wav_file {
  getnchannels : Z;
  getsampwidth : Z;
  getframerate : Z;
  getnframes : Z;
  readframes : list byte
}.

Inductive exn : Type :=
| UnsupportedSampleWidth (w : Z)   (* ValueError(f"Unsupported sample width: {w}") *)
| BufferSizeError (itemsize : Z)   (* np.frombuffer: size not a multiple of the element size *)
| ReshapeError (size : nat) (n : Z)(* reshape(-1, n): size not divisible by n *)
| ZeroDivisionError                (* n_frames / framerate *)
| ReadError (cause : exn).         (* Exception(f"Error reading WAV file: {e}") *)

Definition byte_val (b : byte) : Z := Z.of_N (Byte.to_N b).

(** Little-endian unsigned value of a group of bytes. *)
Fixpoint le_unsigned (bs : list byte) : Z :=
  match bs with
  | [] => 0
  | b :: bs' => byte_val b + 256 * le_unsigned bs'
  end.

(** Two's-complement reading of an unsigned [bits]-bit value. *)
Definition to_signed (bits : Z) (u : Z) : Z :=
  if u <? 2 ^ (bits - 1) then u else u - 2 ^ bits.

(** Consecutive groups of [n] elements, [k] of them. *)
Fixpoint groups {A} (n k : nat) (l : list A) : list (list A) :=
  match k with
  | O => []
  | S k' => take n l :: groups n k' (drop n l)
  end.

(** [np.frombuffer(frames, dtype)] for an element size of [itemsize]
    bytes: the buffer must hold a whole number of elements. *)
Definition frombuffer (itemsize : nat) (decode : list byte -> Z) (frames : list byte)
  : result exn (list Z) :=
  if (length frames mod itemsize =? 0)%nat
  then Ok (map decode (groups itemsize (length frames / itemsize) frames))
  else Raise (BufferSizeError (Z.of_nat itemsize)).

(** [data.reshape(-1, n)] for [n > 1]. *)
Definition reshape (n : Z) (data : list Z) : result exn (block Z) :=
  let c := Z.to_nat n in
  if (length data mod c =? 0)%nat
  then Ok (Mat c (groups c (length data / c) data))
  else Raise (ReshapeError (length data) n).

Record wav_info : Type := mk_wav_info {
  n_channels : Z;
  sample_width : Z;
  framerate : Z;
  n_frames : Z;
  duration : Q
}.

(** The body of the [try] block. *)
Definition read_wav_body (w : wav_file) : result exn (Z * ndarray * wav_info) :=
  let n_channels := getnchannels w in
  let sample_width := getsampwidth w in
  let framerate := getframerate w in
  let n_frames := getnframes w in
  let frames := readframes w in
  '(dtype, data) ←
    (if sample_width =? 1 then
       (* 8-bit unsigned, converted to signed *)
       d ← frombuffer 1 le_unsigned frames ;
       Ok (int16, map (fun u => u - 128) d)
     else if sample_width =? 2 then
       d ← frombuffer 2 (fun bs => to_signed 16 (le_unsigned bs)) frames ;
       Ok (int16, d)
     else if sample_width =? 4 then
       d ← frombuffer 4 (fun bs => to_signed 32 (le_unsigned bs)) frames ;
       Ok (int32, d)
     else Raise (UnsupportedSampleWidth sample_width)) ;
  shaped ← (if 1 <? n_channels then reshape n_channels data else Ok (Vec data)) ;
  dur ← (if framerate =? 0 then Raise ZeroDivisionError
          else Ok (inject_Z n_frames / inject_Z framerate)%Q) ;
  Ok (framerate, mk_ndarray dtype (Ints shaped),
      mk_wav_info n_channels sample_width framerate n_frames dur).

(** [except Exception as e: raise Exception(f"Error reading WAV file: {e}")] *)
Definition read_wav_file (w : wav_file) : result exn (Z * ndarray * wav_info) :=
  match read_wav_body w with
  | Ok r => Ok r
  | Raise e => Raise (ReadError e)
  end.

(** ** normalize_audio *)

(** [np.clip(x, lo, hi)] on one element. *)
Definition clip (lo hi x : Q) : Q :=
  if Qle_bool x lo then lo else if Qle_bool hi x then hi else x.

(** [float(max(abs(info.min), info.max))] *)
Definition denom (d : dtype) : Q :=
  inject_Z (Z.max (Z.abs (iinfo_min d)) (iinfo_max d)).

Definition normalize_audio (arr : ndarray) : ndarray :=
  if is_floating (dt arr) then
    let out := as_float (el arr) in
    mk_ndarray float32 (Floats (block_map (clip (-1) 1) out))
  else if is_integer (dt arr) then
    let denom := denom (dt arr) in
    mk_ndarray float32 (Floats (block_map (fun x => x / denom)%Q (as_float (el arr))))
  else
    mk_ndarray float32 (Floats (as_float (el arr))).

(** ** mix_to_mono *)

(** The mean of one row in the arithmetic of dtype [d]: the elements
    as [d] holds them, their sum, and the division by the count. *)
Definition mean_row (d : dtype) (ncols : nat) (row : list Q) : Q :=
  stored d (np_sum (stored d) (map (stored d) row) / inject_Z (Z.of_nat ncols))%Q.

(** [x.mean(axis=1)]: integer and boolean arrays are averaged in
    [float64], floating arrays in their own dtype. *)
Definition mean_axis1 (x : ndarray) (ncols : nat) (rows : list (list Q)) : ndarray :=
  let d := if is_floating (dt x) then dt x else float64 in
  mk_ndarray d (Floats (Vec (map (mean_row d ncols) rows))).

Definition mix_to_mono (x : ndarray) : ndarray :=
  match as_float (el x) with
  | Vec _ => x                               (* x.ndim == 1 *)
  | Mat ncols rows => mean_axis1 x ncols rows
  end.

(** ** write_csv_minimal *)

Record csv_file : Type := mk_csv_file {
  header : string;
  rows : list (list Q)
}.

Record meta : Type := mk_meta {
  input_file : string;
  output_file : string;
  samplerate_hz : Z;
  samples : Z;
  channels : Z;
  duration_s : Q;
  dtype_str : string;
  normalized : bool;
  mixed_to_mono : bool
}.

(** *** The cell format ['%.7g']

    A cell is printed with 7 significant digits; the model keeps the
    number the printed numeral denotes, that is the value rounded to 7
    significant decimal digits (ties to even). *)

(** [10 ^ e] for any integer exponent. *)
Definition pow10 (e : Z) : Q :=
  if 0 <=? e then inject_Z (10 ^ e) else / inject_Z (10 ^ (- e)).

(** Bring a positive [q] below [hi], dividing by 10 and counting. *)
Fixpoint scale_down (fuel : nat) (hi : Q) (q : Q) (e : Z) : Q * Z :=
  match fuel with
  | O => (q, e)
  | S fuel' => if Qle_bool hi q then scale_down fuel' hi (q / 10) (e + 1) else (q, e)
  end.

(** Bring a positive [q] up to [lo], multiplying by 10 and counting. *)
Fixpoint scale_up (fuel : nat) (lo : Q) (q : Q) (e : Z) : Q * Z :=
  match fuel with
  | O => (q, e)
  | S fuel' => if Qle_bool lo q then (q, e) else scale_up fuel' lo (q * 10) (e - 1)
  end.

(** A positive [q] rounded to [p] significant digits: scaled into
    [10^(p-1), 10^p), rounded to an integer, scaled back. *)
Definition round_sig_pos (p : Z) (q : Q) : Q :=
  let '(q1, e1) := scale_down (Pos.size_nat (Z.to_pos (Qnum q))) (pow10 p) q 0 in
  let '(q2, e2) := scale_up (Pos.size_nat (Qden q) + Z.to_nat p) (pow10 (p - 1)) q1 e1 in
  (inject_Z (round_half_even q2) * pow10 e2)%Q.

Definition round_sig (p : Z) (q : Q) : Q :=
  match Qnum q with
  | Z0 => 0
  | Zpos _ => round_sig_pos p q
  | Zneg _ => - round_sig_pos p (- q)
  end.

Definition fmt_7g (x : Q) : Q := round_sig 7 x.

Definition str_of_nat (n : nat) : string := NilEmpty.string_of_uint (Nat.to_uint n).

(** [i / float(sr)] for an integer [i]: both are converted to
    [float64] and the quotient is rounded. *)
Definition fdiv (i sr : Z) : Q := f64 (f64 (inject_Z i) / f64 (inject_Z sr)).

(** [np.arange(n_samples, dtype=np.float64) / float(sr)] *)
Definition time_array (n_samples : nat) (sr : Z) : list Q :=
  map (fun i => fdiv (Z.of_nat i) sr) (seq 0 n_samples).

(** [np.column_stack((time_array, x))] *)
Definition column_stack (t : list Q) (x : block Q) : list (list Q) :=
  match x with
  | Vec xs => zip_with (fun ti xi => [ti; xi]) t xs
  | Mat _ rs => zip_with (fun ti row => ti :: row) t rs
  end.

Section Serializer.

(** [os.path.abspath] and [sys.argv[1]] come from the process. *)
Context (abspath : string -> string) (argv1 : string).

(** What [write_csv_minimal] writes: the header and the table as
    [np.savetxt(..., fmt='%.7g')] prints it, and the descriptor it
    dumps.  With [sr = 0] the descriptor's [n_samples / float(sr)]
    raises.  Whether the two files can be created is [main]'s
    concern. *)
Definition write_csv_minimal (data : ndarray) (sr : Z) (output_path : string)
    (normalize mix_mono : bool) : result exn (csv_file * meta) :=
  let x := data in
  let x := if normalize then normalize_audio data else x in
  let x := if mix_mono then mix_to_mono x else x in
  let n_samples := shape0 x in
  let time_array := time_array n_samples sr in
  let csv_data := column_stack time_array (to_float64 x) in
  let header :=
    if (ndim x =? 1)%nat then "Time_s,Ch1"
    else "Time_s," +:+ String.concat ","
           (map (fun i => "Ch" +:+ str_of_nat (i + 1)) (seq 0 (shape1 x))) in
  if sr =? 0 then Raise ZeroDivisionError
  else
    Ok (mk_csv_file header (map (map fmt_7g) csv_data),
        {| input_file := abspath argv1;
           output_file := abspath output_path;
           samplerate_hz := sr;
           samples := Z.of_nat n_samples;
           channels := if (ndim x =? 1)%nat then 1 else Z.of_nat (shape1 x);
           duration_s := fdiv (Z.of_nat n_samples) sr;
           dtype_str := dtype_name (dt x);
           normalized := normalize;
           mixed_to_mono := mix_mono |}).

(** The [try] block of [main]: read the input, then convert it. *)
Definition main_try (w : wav_file) (output_file : string) (normalize mix_mono : bool)
  : result exn (csv_file * meta) :=
  '(sr, data, wav_info) ← read_wav_file w ;
  write_csv_minimal data sr output_file normalize mix_mono.

End Serializer.

(** ** main *)

(** What [main] finds at a path: nothing, something [wave.open]
    refuses, or a recording. *)
Inductive input : Type :=
| NoSuchFile
| NotWave
| Wave (w : wav_file).

(** A file [main] has written. *)
Inductive artifact : Type :=
| CsvFile (path : string) (csv : csv_file)
| MetaFile (path : string) (m : meta).

Definition artifact_path (x : artifact) : string :=
  match x with CsvFile p _ => p | MetaFile p _ => p end.

(** How a run of the script ends: the exit status (0 for a normal
    return, 1 for [sys.exit(1)] and for an uncaught exception), what it
    has put on standard error, and the files it has written.  Every
    message of the script itself is [print]ed, so it goes to standard
    output; standard error only ever receives a traceback. *)
Record run : Type := mk_run {
  exit_status : Z;
  stderr_text : string;
  written : list artifact
}.

Section Main.

(** [os.path.abspath]; [Path(p).with_suffix(s)] as a string, [None]
    when pathlib raises [ValueError]; the traceback Python prints for
    that exception; the files of the machine; and whether a file can
    be created and written at a path ([open(p, 'w')] raises [OSError]
    otherwise, for a missing directory or a refused permission). *)
Context (abspath : string -> string)
        (with_suffix : string -> string -> option string)
        (traceback : string)
        (lookup : string -> input)
        (creatable : string -> bool).

(** [main], with [sys.argv] as argument.  [np.savetxt] opens the CSV
    after the data are processed; the descriptor's path is computed and
    the descriptor opened after the CSV is written; all of it inside
    the [try], whose handler prints the error and exits with 1. *)
Definition main (argv : list string) : run :=
  match argv with
  | [] | [_] => mk_run 1 "" []                    (* usage *)
  | _ :: input_file :: rest =>
      (* Parse options *)
      let normalize := existsb (String.eqb "--normalize") argv in
      let mix_mono := existsb (String.eqb "--mono") argv in
      (* Determine output file *)
      let output_file :=
        match rest with
        | arg2 :: _ => if negb (String.prefix "--" arg2) then Some arg2
                       else with_suffix input_file ".csv"
        | [] => with_suffix input_file ".csv"
        end in
      match output_file with
      | None => mk_run 1 traceback []             (* ValueError, not caught *)
      | Some output_file =>
          (* Check input file *)
          match lookup input_file with
          | NoSuchFile => mk_run 1 "" []
          | NotWave => mk_run 1 "" []             (* read_wav_file raises *)
          | Wave w =>
              match read_wav_file w with
              | Raise _ => mk_run 1 "" []
              | Ok (sr, data, wav_info) =>
                  match write_csv_minimal abspath input_file data sr output_file
                                          normalize mix_mono with
                  | Raise _ => mk_run 1 "" []     (* not reached: [sr] is not 0 *)
                  | Ok (csv, m) =>
                      if negb (creatable output_file) then mk_run 1 "" []
                      else
                        match with_suffix output_file ".meta.json" with
                        | None => mk_run 1 "" [CsvFile output_file csv]
                        | Some meta_path =>
                            if creatable meta_path
                            then mk_run 0 "" [CsvFile output_file csv; MetaFile meta_path m]
                            else mk_run 1 "" [CsvFile output_file csv]
                        end
                  end
              end
          end
      end
  end.

End Main.

End Wav2Csv.

(** * wav_to_csv.py *)

Module WavToCsv.
Import Wav2Csv.

Inductive exn : Type :=
| BufferSizeError                  (* np.frombuffer: size not a multiple of the element size *)
| ReshapeError (size : nat) (n : Z)(* reshape(-1, n): size not divisible by n *)
| IndexError                       (* time_values[-1] of an empty array *)
| ArangeError.                     (* np.arange up to inf or nan *)

(** [np.frombuffer(raw_data, dtype=np.int16)]: the bytes are read as
    16-bit samples whatever the sample width of the file. *)
Definition samples_int16 (raw_data : list byte) : result exn (list Z) :=
  if (length raw_data mod 2 =? 0)%nat
  then Ok (map (fun bs => to_signed 16 (le_unsigned bs))
               (groups 2 (length raw_data / 2) raw_data))
  else Raise BufferSizeError.

(** "Reshape if stereo" and "Convert to mono by averaging channels" *)
Definition mono (n_channels : Z) (audio_data : list Z) : result exn (list Q) :=
  if 1 <? n_channels then
    let c := Z.to_nat n_channels in
    if (length audio_data mod c =? 0)%nat
    then Ok (map (fun row => Qsum (map inject_Z row) / inject_Z (Z.of_nat c))%Q
                 (groups c (length audio_data / c) audio_data))
    else Raise (ReshapeError (length audio_data) n_channels)
  else Ok (map inject_Z audio_data).

(** [np.arange(0, stop, 1)]: the numbers 0, 1, ... below [stop]. *)
Definition arange (stop : Q) : list Z :=
  map Z.of_nat (seq 0 (Z.to_nat (Qceiling stop))).

(** [a[i:j]] for [0 <= i]. *)
Definition slice {A} (i j : Z) (a : list A) : list A :=
  take (Z.to_nat j - Z.to_nat i) (drop (Z.to_nat i) a).

(** [np.mean] *)
Definition mean (l : list Q) : Q := (Qsum l / inject_Z (Z.of_nat (length l)))%Q.

(** "Calculate time values in seconds" and "Resample to 1-second
    intervals by averaging": the rows of the data frame. *)
Definition resample (frame_rate : Z) (audio_data : list Q) : result exn (list (Q * Q)) :=
  match audio_data with
  | [] => Raise IndexError
  | _ =>
      if frame_rate =? 0 then Raise ArangeError
      else
        let last_time := (inject_Z (Z.of_nat (length audio_data) - 1) / inject_Z frame_rate)%Q in
        let time_intervals := arange last_time in
        Ok (map (fun t => (inject_Z t,
                           mean (slice (t * frame_rate) ((t + 1) * frame_rate) audio_data)))
                time_intervals)
  end.

(** The rows written to the CSV, under the header
    [Time (s),Breath Rate Signal]. *)
Definition wav_to_csv (w : wav_file) : result exn (list (Q * Q)) :=
  let n_channels := getnchannels w in
  let frame_rate := getframerate w in
  let raw_data := readframes w in
  audio_data ← samples_int16 raw_data ;
  audio_data ← mono n_channels audio_data ;
  resample frame_rate audio_data.

End WavToCsv.

(** * caloricExpenditure.py *)

Module CaloricExpenditure.

(** ** Data frames *)

(** A [DataFrame] with a [DatetimeIndex]: the timestamps (nanoseconds
    since the epoch, as pandas keeps them) and the named columns. *)
Record DataFrame : Type := mk_DataFrame {
  index : list Z;
  columns : gmap string (list R)
}.

Inductive exn : Type :=
| KeyError (key : string).

(** [df[col]] *)
Definition getitem (df : DataFrame) (col : string) : result exn (list R) :=
  match columns df !! col with
  | Some c => Ok c
  | None => Raise (KeyError col)
  end.

(** [np.sqrt(x**2 + y**2 + z**2)], element by element. *)
Definition magnitude (x y z : R) : R := sqrt (x ^ 2 + y ^ 2 + z ^ 2)%R.

Fixpoint vector_magnitude (xs ys zs : list R) : list R :=
  match xs, ys, zs with
  | x :: xs', y :: ys', z :: zs' => magnitude x y z :: vector_magnitude xs' ys' zs'
  | _, _, _ => []
  end.

Definition Rsum (l : list R) : R := fold_right Rplus 0%R l.

(** ** Series.resample(freq).sum()

    pandas' defaults: bins closed and labelled on the left, and
    [origin='start_day'], that is bin edges at midnight of the first
    timestamp's day plus whole multiples of [freq].  The bins run from
    the one holding the earliest timestamp to the one holding the
    latest; a bin without samples sums to 0. *)

Definition ns_per_day : Z := 86400 * 10 ^ 9.

(** The frequency ['15S']. *)
Definition freq_15S : Z := 15 * 10 ^ 9.

Definition in_bin (lo freq : Z) (p : Z * R) : bool :=
  (lo <=? fst p) && (fst p <? lo + freq).

Definition resample_sum (freq : Z) (s : list (Z * R)) : list (Z * R) :=
  match map fst s with
  | [] => []
  | t0 :: ts =>
      let first := fold_right Z.min t0 ts in
      let last := fold_right Z.max t0 ts in
      let origin := first - first mod ns_per_day in
      let foffset := (first - origin) mod freq in
      let loffset := (last - origin) mod freq in
      let fresult := if 0 <? foffset then first - foffset else first in
      let lresult := if 0 <? loffset then last + (freq - loffset) else last + freq in
      let nbins := Z.to_nat ((lresult - fresult) / freq) in
      map (fun k => let lo := fresult + Z.of_nat k * freq in
                    (lo, Rsum (map snd (List.filter (in_bin lo freq) s))))
          (seq 0 nbins)
  end.

(** ** convert_to_triaxial_counts

    The new column [df['vector_magnitude']] the function leaves in [df]
    is not returned here; only the list of counts is. *)
Definition convert_to_triaxial_counts (df : DataFrame) (x_col y_col z_col : string)
  : result exn (list R) :=
  xs ← getitem df x_col ;
  ys ← getitem df y_col ;
  zs ← getitem df z_col ;
  let vm := zip (index df) (vector_magnitude xs ys zs) in
  let triaxial_counts := map snd (resample_sum freq_15S vm) in
  Ok triaxial_counts.

(** ** calculate_triaxial_expenditure *)

Record user_data : Type := mk_user_data {
  age : Z;
  height : R;
  weight : R;
  gender : string
}.

(** Python's [max(0, x)]: the first argument unless the second is greater. *)
Definition max0 (x : R) : R := if Rlt_dec 0 x then x else 0%R.

(** The body of the loop up to [ee_per_min]. *)
Definition ee_per_min (u : user_data) (count : R) : R :=
  if String.eqb (gender u) "male" then
    (-106.59251 + (0.40825 * IZR (age u)) + (0.35249 * weight u) - (0.22485 * count))%R
  else if String.eqb (gender u) "female" then
    (-56.09672 + (0.38459 * IZR (age u)) + (0.16541 * weight u) - (0.16912 * count))%R
  else 0%R.

(** [sum(expenditures)]: Python adds from the left, starting at 0. *)
Definition py_sum (l : list R) : R := fold_left Rplus l 0%R.

Definition calculate_triaxial_expenditure (triaxial_counts : list R) (u : user_data) : R :=
  let expenditures :=
    fold_left (fun expenditures count => expenditures ++ [max0 (ee_per_min u count)])
              triaxial_counts [] in
  let total_expenditure_min := py_sum expenditures in
  let total_expenditure_kcal := (total_expenditure_min / 4)%R in
  total_expenditure_kcal.

End CaloricExpenditure.

(** * Python string and path primitives used by the batch tool *)

Module Py.

Definition ends_with (suffix s : string) : bool :=
  String.prefix (String.rev suffix) (String.rev s).

(** The characters before the first [c]. *)
Fixpoint take_until (c : ascii) (s : string) : string :=
  match s with
  | EmptyString => EmptyString
  | String x r => if Ascii.eqb x c then EmptyString else String x (take_until c r)
  end.

Fixpoint contains (c : ascii) (s : string) : bool :=
  match s with
  | EmptyString => false
  | String x r => Ascii.eqb x c || contains c r
  end.

Fixpoint all_char (c : ascii) (s : string) : bool :=
  match s with
  | EmptyString => true
  | String x r => Ascii.eqb x c && all_char c r
  end.

(** [s[n:]] *)
Definition drop_chars (n : nat) (s : string) : string :=
  substring n (String.length s - n) s.

(** [os.path.join(a, b)] (posix) *)
Definition os_path_join (a b : string) : string :=
  if String.prefix "/" b then b
  else if String.eqb a "" || ends_with "/" a then a +:+ b
  else a +:+ "/" +:+ b.

(** [os.path.basename(p)]: what follows the last ["/"]. *)
Definition os_path_basename (p : string) : string :=
  String.rev (take_until "/" (String.rev p)).

(** [os.path.splitext(p)]: split at the last ["."] of the last
    component, unless only dots precede it there. *)
Definition os_path_splitext (p : string) : string * string :=
  let rp := String.rev p in
  let rext := take_until "." rp in
  if negb (contains "." rp) || contains "/" rext then (p, "")
  else
    let rroot := drop_chars (String.length rext + 1) rp in
    if all_char "." (take_until "/" rroot) then (p, "")
    else (String.rev rroot, "." +:+ String.rev rext).

(** [s.replace(old, new)] for a non-empty [old]. *)
Fixpoint replace_go (old new : string) (skip : nat) (s : string) : string :=
  match s with
  | EmptyString => EmptyString
  | String c r =>
      match skip with
      | S k => replace_go old new k r
      | O => if String.prefix old s
             then new +:+ replace_go old new (String.length old - 1) r
             else String c (replace_go old new 0 r)
      end
  end.

Definition str_replace (old new s : string) : string := replace_go old new 0 s.

(** A string is the sequence of the bytes of its UTF-8 encoding, and
    [len(s)] counts characters: a well-formed sequence of two, three or
    four bytes is one character, and a byte that belongs to none counts
    as one, as in the names Python decodes from the file system. *)
Definition byte_in (lo hi : nat) (c : ascii) : bool :=
  let n := nat_of_ascii c in ((lo <=? n) && (n <=? hi))%nat.

Definition utf8_cont (c : ascii) : bool := byte_in 128 191 c.

Definition utf8_seq2 (a b : ascii) : bool := byte_in 194 223 a && utf8_cont b.

Definition utf8_seq3 (a b c : ascii) : bool :=
  (byte_in 224 224 a && byte_in 160 191 b
   || (byte_in 225 236 a || byte_in 238 239 a) && utf8_cont b
   || byte_in 237 237 a && byte_in 128 159 b)
  && utf8_cont c.

Definition utf8_seq4 (a b c d : ascii) : bool :=
  (byte_in 240 240 a && byte_in 144 191 b
   || byte_in 241 243 a && utf8_cont b
   || byte_in 244 244 a && byte_in 128 143 b)
  && utf8_cont c && utf8_cont d.

Fixpoint str_len (s : string) : nat :=
  match s with
  | EmptyString => 0
  | String a t =>
      S match t with
        | String b u =>
            if utf8_seq2 a b then str_len u
            else
              match u with
              | String c v =>
                  if utf8_seq3 a b c then str_len v
                  else
                    match v with
                    | String d x => if utf8_seq4 a b c d then str_len x else str_len t
                    | EmptyString => str_len t
                    end
              | EmptyString => str_len t
              end
        | EmptyString => 0
        end
  end.

(** [f"{s:0>3}"]: right-aligned in a width of 3 characters, filled
    with zeros. *)
Definition format_0gt3 (s : string) : string :=
  String.concat "" (repeat "0" (3 - str_len s)) +:+ s.

Definition is_whitespace (c : ascii) : bool :=
  let n := nat_of_ascii c in
  ((9 <=? n) && (n <=? 13) || (28 <=? n) && (n <=? 32))%nat.

Fixpoint lstrip (s : string) : string :=
  match s with
  | EmptyString => EmptyString
  | String c r => if is_whitespace c then lstrip r else s
  end.

(** [s.strip()] *)
Definition strip (s : string) : string :=
  String.rev (lstrip (String.rev (lstrip s))).

(** [s.lower()] on ASCII letters; other bytes are left as they are. *)
Definition lower_char (c : ascii) : ascii :=
  let n := nat_of_ascii c in
  if ((65 <=? n) && (n <=? 90))%nat then ascii_of_nat (n + 32) else c.

Fixpoint lower (s : string) : string :=
  match s with
  | EmptyString => EmptyString
  | String c r => String (lower_char c) (lower r)
  end.

(** [s.split(sep)] for a one-character separator; [cur] is the piece
    being read, reversed. *)
Fixpoint split_go (sep : ascii) (cur : string) (s : string) : list string :=
  match s with
  | EmptyString => [String.rev cur]
  | String c r =>
      if Ascii.eqb c sep then String.rev cur :: split_go sep EmptyString r
      else split_go sep (String c cur) r
  end.

Definition split (sep : ascii) (s : string) : list string := split_go sep EmptyString s.

(** [sorted(l)] on strings. *)
Definition sorted (l : list string) : list string := merge_sort String.le l.

(** [x in l] *)
Definition str_in (x : string) (l : list string) : bool := existsb (String.eqb x) l.

(** ** The file system

    A file system is the set of the paths that exist in it.
    [glob.glob(os.path.join(dir, "*" + suffix))] lists the entries of
    [dir] whose name ends in [suffix]; a leading ["*"] never matches a
    hidden name.  The directory is read as a plain name: [glob] itself
    reads a directory that holds one of the characters [*], [?] and
    ["["] as a pattern. *)
Definition glob_match (dir suffix : string) (p : string) : bool :=
  let pre := os_path_join dir "" in
  String.prefix pre p &&
  (let name := drop_chars (String.length pre) p in
   negb (String.eqb name "") && negb (contains "/" name) &&
   negb (String.prefix "." name) && ends_with suffix name).

Definition glob_star (fs : gset string) (dir suffix : string) : list string :=
  List.filter (glob_match dir suffix) (elements fs).

End Py.

(** * caloricExpenditure.py, continued: user data, BMR, the script *)

Module CaloricScript.
Import Py CaloricExpenditure.

(** ** get_user_data

    The answers typed at the prompts are a list of lines; [input()]
    takes the next one and raises [EOFError] when none is left ([None]
    here: the exception is not caught).  [int] and [float] are Python's
    conversions, [None] when they raise [ValueError]. *)

(** What [float(s)] returns: a finite number, an infinity or NaN. *)
Inductive pyfloat : Type :=
| Num (x : R)
| PosInf
| NegInf
| NaN.

(** [x <= 0] on floats: every comparison with NaN is false. *)
Definition le_zero (x : pyfloat) : bool :=
  match x with
  | Num x => if Rle_dec x 0 then true else false
  | NegInf => true
  | PosInf | NaN => false
  end.

(** The dictionary [get_user_data] returns. *)
Record answers : Type := mk_answers {
  ans_age : Z;
  ans_height : pyfloat;
  ans_weight : pyfloat;
  ans_gender : string
}.

Section UserData.

Context (int_of_str : string -> option Z) (float_of_str : string -> option pyfloat).

(** "Get and validate age" *)
Fixpoint ask_age (inputs : list string) : option (Z * list string) :=
  match inputs with
  | [] => None
  | line :: rest =>
      match int_of_str line with
      | Some age => if age <=? 0 then ask_age rest else Some (age, rest)
      | None => ask_age rest
      end
  end.

(** "Get and validate height", "Get and validate weight" *)
Fixpoint ask_positive_float (inputs : list string) : option (pyfloat * list string) :=
  match inputs with
  | [] => None
  | line :: rest =>
      match float_of_str line with
      | Some x => if le_zero x then ask_positive_float rest else Some (x, rest)
      | None => ask_positive_float rest
      end
  end.

(** "Get and validate gender" *)
Fixpoint ask_gender (inputs : list string) : option (string * list string) :=
  match inputs with
  | [] => None
  | line :: rest =>
      let gender := lower (strip line) in
      if str_in gender ["male"; "female"] then Some (gender, rest)
      else ask_gender rest
  end.

Definition get_user_data (inputs : list string) : option (answers * list string) :=
  '(age, inputs) ← ask_age inputs ;
  '(height, inputs) ← ask_positive_float inputs ;
  '(weight, inputs) ← ask_positive_float inputs ;
  '(gender, inputs) ← ask_gender inputs ;
  Some (mk_answers age height weight gender, inputs).

End UserData.

(** The answers as the numbers the formulas work on, when height and
    weight are finite. *)
Definition user_data_of (a : answers) : option user_data :=
  match ans_height a, ans_weight a with
  | Num h, Num w => Some (mk_user_data (ans_age a) h w (ans_gender a))
  | _, _ => None
  end.

(** ** calculate_bmr

    No branch is taken for another gender: the function returns
    Python's [None]. *)
Definition calculate_bmr (u : user_data) : option R :=
  if String.eqb (gender u) "male" then
    Some (88.362 + (13.397 * weight u) + (4.799 * height u) - (5.677 * IZR (age u)))%R
  else if String.eqb (gender u) "female" then
    Some (447.593 + (9.247 * weight u) + (3.098 * height u) - (4.330 * IZR (age u)))%R
  else None.

(** ** The script, from the column check to the printed total *)

Inductive script_exn : Type :=
| ColumnError (e : exn)     (* KeyError out of convert_to_triaxial_counts *)
| IndexError                (* df.index[-1] of an empty frame *)
| TypeError.                (* None / 24 *)

Inductive script_end : Type :=
| Printed (total_kcal : R)
| SysExit1                  (* "One or more of the specified columns were not found." *)
| Uncaught (e : script_exn).

(** [col in df.columns] *)
Definition has_column (df : DataFrame) (col : string) : bool :=
  bool_decide (is_Some (columns df !! col)).

Definition total_kcal (user_info : user_data) (df : DataFrame)
    (x_col_name y_col_name z_col_name : string) : script_end :=
  if negb (forallb (has_column df) [x_col_name; y_col_name; z_col_name]) then SysExit1
  else
    match convert_to_triaxial_counts df x_col_name y_col_name z_col_name with
    | Raise e => Uncaught (ColumnError e)
    | Ok triaxial_counts =>
        (* The total duration is the difference between the first and last timestamps *)
        match last (index df), head (index df) with
        | Some t_last, Some t_first =>
            let total_duration_seconds := (IZR (t_last - t_first) / 1000000000)%R in
            let total_duration_hours := (total_duration_seconds / 3600)%R in
            match calculate_bmr user_info with
            | None => Uncaught TypeError
            | Some bmr_per_day =>
                let bmr_for_activity := (bmr_per_day / 24 * total_duration_hours)%R in
                let activity_expenditure :=
                  calculate_triaxial_expenditure triaxial_counts user_info in
                Printed (bmr_for_activity + activity_expenditure)%R
            end
        | _, _ => Uncaught IndexError
        end
    end.

End CaloricScript.

(** * tools/batch_wav2csv.py *)

Module BatchWav2Csv.
Import Py.

(** ** Results *)

Record args : Type := mk_args {
  input_dir : string;
  output_dir : string;
  subjects : option string;
  normalize : bool;
  mono : bool;
  verbose : bool;
  dry_run : bool;
  resume : bool
}.

Record file_result : Type := mk_file_result {
  wav_file : string;
  success : bool;
  message : string
}.

Record summary : Type := mk_summary {
  total : Z;
  n_success : Z;   (* "success" *)
  failed : Z
}.

Record subject_result : Type := mk_subject_result {
  subject_id : string;
  hexoskin_dir : string;
  wav_files : list string;
  results : list file_result;
  subject_summary : summary   (* "summary" *)
}.

(** ** The world: file system, spawned converters, effects *)

(** How [subprocess.run(cmd, capture_output=True, text=True, timeout=300)]
    ends. *)
Inductive completed : Type :=
| Completed (returncode : Z) (stderr : string)
| TimeoutExpired
| OtherException (msg : string).

Inductive event : Type :=
| Makedirs (path : string)
| Spawn (cmd : list string)
| WriteReport (path : string) (a : args) (all_results : list subject_result).

Record world : Type := mk_world {
  fs : gset string;
  log : list event
}.

(** Effectful code is a function of the world. *)
Definition IO (A : Type) : Type := world -> A * world.

#[global] Instance IO_ret : MRet IO := fun _ a w => (a, w).
#[global] Instance IO_bind : MBind IO := fun _ _ k m w =>
  let '(a, w') := m w in k a w'.

Definition os_path_exists (p : string) : IO bool :=
  fun w => (bool_decide (p ∈ fs w), w).

(** [os.makedirs(p, exist_ok=True)].  Paths are not split into files
    and directories, so the call cannot fail here, and of the
    directories it makes only [p] itself is recorded, not the missing
    ancestors of [p]. *)
Definition os_makedirs (p : string) : IO unit :=
  fun w => (tt, mk_world ({[p]} ∪ fs w) (log w ++ [Makedirs p])).

Definition glob (dir suffix : string) : IO (list string) :=
  fun w => (glob_star (fs w) dir suffix, w).

(** [json.dump({...}, open(results_file, "w"))] *)
Definition write_report (p : string) (a : args) (all_results : list subject_result) : IO unit :=
  fun w => (tt, mk_world ({[p]} ∪ fs w) (log w ++ [WriteReport p a all_results])).

(** [for x in l: acc = body(acc, x)] *)
Fixpoint for_each {A B} (l : list A) (body : B -> A -> IO B) (acc : B) : IO B :=
  match l with
  | [] => mret acc
  | x :: l' => acc' ← body acc x ; for_each l' body acc'
  end.

(** ** Discovery *)

Definition find_hexoskin_directories (input_dir : string) : IO (list string) :=
  dirs ← glob input_dir "hexoskin" ;
  mret (sorted dirs).

Definition get_wav_files (hexoskin_dir : string) : IO (list string) :=
  wav_files ← glob hexoskin_dir ".wav" ;
  mret (sorted wav_files).

Definition get_subject_id (hexoskin_dir : string) : string :=
  str_replace "hexoskin" "" (os_path_basename hexoskin_dir).

Definition create_output_structure (output_dir subject_id : string) : IO string :=
  let subject_output_dir := os_path_join output_dir (format_0gt3 subject_id +:+ "hexoskin") in
  _ ← os_makedirs subject_output_dir ;
  mret subject_output_dir.

Section Converter.

(** [sys.executable], and the converter process: what running a
    command line does to the file system and how it ends. *)
Context (sys_executable : string)
        (wav2csv : list string -> gset string -> completed * gset string).

Definition subprocess_run (cmd : list string) : IO completed :=
  fun w => let '(r, fs') := wav2csv cmd (fs w) in
           (r, mk_world fs' (log w ++ [Spawn cmd])).

(** ** convert_wav_to_csv *)

(** "Determine output filename" *)
Definition output_file_of (wav_file output_dir : string) : string :=
  let wav_basename := fst (os_path_splitext (os_path_basename wav_file)) in
  os_path_join output_dir (wav_basename +:+ ".csv").

(** "Build command" *)
Definition build_command (wav_file output_file : string) (a : args) : list string :=
  [sys_executable; "wav2csv.py"; wav_file; output_file]
  ++ (if normalize a then ["--normalize"] else [])
  ++ (if mono a then ["--mono"] else []).

(** Every [except] branch returns a triple: the function has no way out
    but a result. *)
Definition convert_wav_to_csv (wav_file output_dir : string) (a : args)
  : IO (string * bool * string) :=
  let output_file := output_file_of wav_file output_dir in
  (* Check if file already exists and resume is enabled *)
  already ← (if resume a then os_path_exists output_file else mret false) ;
  if already : bool then mret (wav_file, true, "Skipped (already exists)")
  else
    let cmd := build_command wav_file output_file a in
    (* Run conversion *)
    result ← subprocess_run cmd ;
    match result with
    | Completed returncode stderr =>
        if returncode =? 0 then mret (wav_file, true, "Success")
        else mret (wav_file, false, "Error: " +:+ strip stderr)
    | TimeoutExpired => mret (wav_file, false, "Timeout")
    | OtherException e => mret (wav_file, false, "Exception: " +:+ e)
    end.

(** ** process_subject

    What [--verbose] prints goes to stdout, which is not part of the
    world. *)

(** [sum(1 for r in results if r["success"])] *)
Definition count_success (results : list file_result) : Z :=
  Z.of_nat (length (List.filter success results)).

Definition process_subject (hexoskin_dir output_dir : string) (a : args) : IO subject_result :=
  let subject_id := get_subject_id hexoskin_dir in
  subject_output_dir ← create_output_structure output_dir subject_id ;
  wav_files ← get_wav_files hexoskin_dir ;
  match wav_files with
  | [] =>
      mret (mk_subject_result subject_id hexoskin_dir [] [] (mk_summary 0 0 0))
  | _ =>
      results ← for_each wav_files (fun results wav_file =>
        if dry_run a then
          mret (results ++ [mk_file_result wav_file true "Would process"])
        else
          '(wav_file, success, message) ← convert_wav_to_csv wav_file subject_output_dir a ;
          mret (results ++ [mk_file_result wav_file success message])) [] ;
      (* Calculate summary *)
      let total := Z.of_nat (length results) in
      let success := count_success results in
      let failed := total - success in
      mret (mk_subject_result subject_id hexoskin_dir wav_files results
                              (mk_summary total success failed))
  end.

(** ** print_summary *)

Definition Zsum (l : list Z) : Z := fold_left Z.add l 0.

(** The "Success rate" line: a percentage, or the bare text [N/A]. *)
Inductive rate_line : Type :=
| SuccessRate (percent : Q)
| NA.

Record failed_file : Type := mk_failed_file {
  ff_subject : string;
  ff_file : string;
  ff_error : string
}.

(** What [print_summary] prints, as data. *)
Record printed_summary : Type := mk_printed_summary {
  total_subjects : Z;
  total_files : Z;
  total_success : Z;
  total_failed : Z;
  success_rate : rate_line;
  failed_files : list failed_file
}.

Definition print_summary (all_results : list subject_result) : printed_summary :=
  let total_subjects := Z.of_nat (length all_results) in
  let total_files := Zsum (map (fun r => total (subject_summary r)) all_results) in
  let total_success := Zsum (map (fun r => n_success (subject_summary r)) all_results) in
  let total_failed := Zsum (map (fun r => failed (subject_summary r)) all_results) in
  let rate :=
    if 0 <? total_files
    then SuccessRate (inject_Z total_success / inject_Z total_files * 100)%Q
    else NA in
  let failed_files :=
    flat_map (fun result =>
      flat_map (fun file_result =>
        if negb (success file_result)
        then [mk_failed_file (subject_id result)
                             (os_path_basename (wav_file file_result))
                             (message file_result)]
        else []) (results result)) all_results in
  mk_printed_summary total_subjects total_files total_success total_failed rate failed_files.

(** ** main *)

Inductive exit : Type :=
| SysExit (code : Z)
| Return (all_results : list subject_result) (printed : printed_summary).

(** "Filter by subjects if specified" ([if args.subjects:] is false for
    [None] and for the empty string). *)
Definition filter_subjects (a : args) (hexoskin_dirs : list string) : list string :=
  match subjects a with
  | Some l =>
      if String.eqb l "" then hexoskin_dirs
      else
        let subject_list := map strip (split "," l) in
        List.filter (fun d => str_in (get_subject_id d) subject_list) hexoskin_dirs
  | None => hexoskin_dirs
  end.

Definition results_file_of (a : args) : string :=
  os_path_join (output_dir a) "batch_conversion_results.json".

Definition main (a : args) : IO exit :=
  (* Validate input directory *)
  found ← os_path_exists (input_dir a) ;
  if negb found then mret (SysExit 1)
  else
    (* Find hexoskin directories *)
    hexoskin_dirs ← find_hexoskin_directories (input_dir a) ;
    match hexoskin_dirs with
    | [] => mret (SysExit 1)
    | _ =>
        let hexoskin_dirs := filter_subjects a hexoskin_dirs in
        match hexoskin_dirs with
        | [] => mret (SysExit 1)
        | _ =>
            (* Create output directory *)
            _ ← os_makedirs (output_dir a) ;
            (* Process all subjects *)
            all_results ← for_each hexoskin_dirs (fun all_results hexoskin_dir =>
              result ← process_subject hexoskin_dir (output_dir a) a ;
              mret (all_results ++ [result])) [] ;
            (* Print summary *)
            let printed := print_summary all_results in
            (* Save detailed results *)
            let results_file := results_file_of a in
            _ ← write_report results_file a all_results ;
            mret (Return all_results printed)
        end
    end.

End Converter.

End BatchWav2Csv.

(** * tools/analyze_smartshirt_data.py *)

Module Analyze.
Import Py Wav2Csv.

Inductive exn : Type :=
| IndexError.    (* data[:, j] on a one-dimensional array, or j out of bounds *)

(** [data[:, j]] of a table with at least two rows. *)
Definition column (j : nat) (data : list (list Q)) : result exn (list Q) :=
  match data with
  | [] => Ok []
  | r :: _ => if (j <? length r)%nat then Ok (map (fun r => nth j r 0%Q) data)
              else Raise IndexError
  end.

(** [np.loadtxt(csv_path, delimiter=',', skiprows=1)]: every numeral
    of the table is read as the nearest [float64]. *)
Definition loadtxt (csv : csv_file) : list (list Q) := map (map f64) (rows csv).

(** [load_signal_data], given the CSV and the descriptor found at the
    two paths.  [np.loadtxt] returns a one-dimensional array for a file
    without data rows and for a file with a single one. *)
Definition load_signal_data (csv : csv_file) (metadata : meta)
  : result exn (list Q * list Q * meta) :=
  match loadtxt csv with
  | [] | [_] => Raise IndexError
  | data =>
      time_s ← column 0 data ;
      ch1_values ← column 1 data ;
      Ok (time_s, ch1_values, metadata)
  end.

(** [float64] arithmetic: every operation rounds its result. *)
Definition add64 (a b : Q) : Q := f64 (a + b).
Definition mul64 (a b : Q) : Q := f64 (a * b).
Definition div64 (a b : Q) : Q := f64 (a / b).

(** The five conversions, on one value: [(v + 1) / 2 * (hi - lo) + lo],
    where [hi - lo] is computed on Python integers. *)
Definition denormalize_heart_rate (v : Q) : Q :=
  add64 (mul64 (div64 (add64 v 1) 2) (200 - 40)) 40.
Definition denormalize_breathing_rate (v : Q) : Q :=
  add64 (mul64 (div64 (add64 v 1) 2) (30 - 8)) 8.
Definition denormalize_acceleration (v : Q) : Q :=
  add64 (mul64 (div64 (add64 v 1) 2) (20 - (-20))) (-20).
Definition denormalize_blood_pressure (v : Q) : Q :=
  add64 (mul64 (div64 (add64 v 1) 2) (200 - 80)) 80.
Definition denormalize_activity (v : Q) : Q :=
  add64 (mul64 (div64 (add64 v 1) 2) (100 - 0)) 0.

(** [needle in s] *)
Fixpoint substring_in (needle s : string) : bool :=
  String.prefix needle s ||
  match s with
  | EmptyString => false
  | String _ r => substring_in needle r
  end.

(** "Determine signal type and denormalize": the conversion and the
    unit. *)
Definition select (signal_name : string) : (Q -> Q) * string :=
  if substring_in "heart_rate" (lower signal_name)
     && negb (substring_in "quality" signal_name)
  then (denormalize_heart_rate, "BPM")
  else if substring_in "breathing_rate" (lower signal_name)
          && negb (substring_in "quality" signal_name)
  then (denormalize_breathing_rate, "breaths/min")
  else if substring_in "acceleration" (lower signal_name)
  then (denormalize_acceleration, "g")
  else if substring_in "systolic_pressure" (lower signal_name)
          && negb (substring_in "adjusted" signal_name)
  then (denormalize_blood_pressure, "mmHg")
  else if substring_in "activity" (lower signal_name)
          && negb (substring_in "quality" signal_name)
  then (denormalize_activity, "level")
  else (fun v => v, "normalized").

Definition qmin (a b : Q) : Q := if Qle_bool a b then a else b.
Definition qmax (a b : Q) : Q := if Qle_bool a b then b else a.

(** The statistics kept here; the standard deviation, the median and
    the quartiles of the source are left out.  [mean] adds the values
    as [np.add.reduce] does and divides by their number. *)
Record stats : Type := mk_stats {
  st_signal_name : string;
  st_unit : string;
  st_sample_rate_hz : Z;
  st_duration_minutes : Q;
  st_samples : nat;
  st_min : Q;
  st_max : Q;
  st_mean : Q
}.

Definition analyze_signal (csv : csv_file) (metadata : meta) (signal_name : string)
  : result exn stats :=
  '(time_s, ch1_values, metadata) ← load_signal_data csv metadata ;
  let '(f, unit) := select signal_name in
  let original_values := map f ch1_values in
  Ok {| st_signal_name := signal_name;
        st_unit := unit;
        st_sample_rate_hz := samplerate_hz metadata;
        st_duration_minutes := div64 (duration_s metadata) 60;
        st_samples := length original_values;
        st_min := fold_left qmin original_values (hd 0%Q original_values);
        st_max := fold_left qmax original_values (hd 0%Q original_values);
        st_mean := div64 (np_sum f64 original_values)
                         (inject_Z (Z.of_nat (length original_values))) |}.

End Analyze.

(** * Properties of the floating-point arithmetic *)

Section FloatProperties.
Import Wav2Csv.

Lemma round_half_even_spec (q : Q) :
  (Qabs (inject_Z (round_half_even q) - q) <= 1 # 2)%Q.
Proof.
  destruct q as [n d]. unfold round_half_even. cbn [Qnum Qden].
  pose proof (Z.div_mod n (Zpos d) ltac:(lia)) as Hdm.
  pose proof (Z.mod_pos_bound n (Zpos d) ltac:(lia)) as Hm.
  set (f := n / Zpos d) in *. set (r := n mod Zpos d) in *.
  apply Qabs_Qle_condition.
  assert (Hcases : forall m : Z, (m = f /\ 2 * r <= Zpos d) \/ (m = f + 1 /\ Zpos d <= 2 * r) ->
            (- (1 # 2) <= inject_Z m - (n # d) <= 1 # 2)%Q).
  { intros m Hc. unfold Qle, Qminus, Qplus, Qopp, inject_Z. cbn.
    destruct Hc as [[-> H]|[-> H]]; nia. }
  apply Hcases.
  destruct (Z.compare_spec (2 * r) (Zpos d)).
  - destruct (Z.even f); [left|right]; lia.
  - left; lia.
  - right; lia.
Qed.



Lemma two_ne_0 : ~ (2 == 0)%Q.
Proof. discriminate. Qed.

Lemma pow2_pos (e : Z) : (0 < 2 ^ e)%Q.
Proof. apply Qpower_0_lt. reflexivity. Qed.

Lemma pow2_add (a b : Z) : (2 ^ (a + b) == 2 ^ a * 2 ^ b)%Q.
Proof. apply Qpower_plus, two_ne_0. Qed.

Lemma pow2_cancel (a : Z) : (2 ^ a * 2 ^ (- a) == 1)%Q.
Proof. rewrite <- pow2_add, Z.add_opp_diag_r. reflexivity. Qed.

Lemma pow2_succ (a : Z) : (2 ^ (a + 1) == 2 * 2 ^ a)%Q.
Proof. rewrite pow2_add. change (2 ^ 1)%Q with 2%Q. ring. Qed.

Lemma pow2_inject (a : Z) : 0 <= a -> (2 ^ a == inject_Z (2 ^ a))%Q.
Proof. intros Ha. rewrite Zpower_Qpower by done. reflexivity. Qed.

Lemma pow2_le (a b : Z) : a <= b -> (2 ^ a <= 2 ^ b)%Q.
Proof. intros H. apply Qpower_le_compat_l; [done|]. discriminate. Qed.

Lemma pow2_lt (a b : Z) : a < b -> (2 ^ a < 2 ^ b)%Q.
Proof. intros H. apply Qpower_lt_compat_l; [done|]. reflexivity. Qed.

Lemma ilog2_spec (q : Q) :
  (0 < q)%Q -> (2 ^ ilog2 q <= q)%Q /\ (q < 2 ^ (ilog2 q + 1))%Q.
Proof.
  intros Hq. destruct q as [n d]. unfold ilog2. cbn [Qnum Qden].
  assert (Hn : 0 < n) by (unfold Qlt in Hq; simpl in Hq; lia).
  destruct (Z.log2_spec n Hn) as [Hn1 Hn2].
  destruct (Z.log2_spec (Zpos d) ltac:(lia)) as [Hd1 Hd2].
  pose proof (Z.log2_nonneg n) as Ha. pose proof (Z.log2_nonneg (Zpos d)) as Hb.
  set (a := Z.log2 n) in *. set (b := Z.log2 (Zpos d)) in *.
  assert (Hq' : (n # d == inject_Z n / inject_Z (Zpos d))%Q) by apply Qmake_Qdiv.
  assert (Hdq : (0 < inject_Z (Zpos d))%Q) by (unfold Qlt; simpl; lia).
  assert (HA : (2 ^ a == inject_Z (2 ^ a))%Q) by (by apply pow2_inject).
  assert (HB : (2 ^ b == inject_Z (2 ^ b))%Q) by (by apply pow2_inject).
  assert (HBpos : (0 < 2 ^ b)%Q) by apply pow2_pos.
  assert (HE : (2 ^ (a - b) * 2 ^ b == 2 ^ a)%Q).
  { rewrite <- pow2_add. by replace (a - b + b) with a by lia. }
  assert (Hn1q : (inject_Z (2 ^ a) <= inject_Z n)%Q) by (by rewrite <- Zle_Qle).
  assert (Hn2q : (inject_Z n < 2 * inject_Z (2 ^ a))%Q).
  { change 2%Q with (inject_Z 2). rewrite <- inject_Z_mult, <- Zlt_Qlt.
    rewrite Z.pow_succ_r in Hn2 by done. lia. }
  assert (Hd1q : (inject_Z (2 ^ b) <= inject_Z (Zpos d))%Q) by (by rewrite <- Zle_Qle).
  assert (Hd2q : (inject_Z (Zpos d) < 2 * inject_Z (2 ^ b))%Q).
  { change 2%Q with (inject_Z 2). rewrite <- inject_Z_mult, <- Zlt_Qlt.
    rewrite Z.pow_succ_r in Hd2 by done. lia. }
  set (N := inject_Z n) in *. set (D := inject_Z (Zpos d)) in *.
  set (E := (2 ^ (a - b))%Q) in *.
  assert (HEpos : (0 < E)%Q) by apply pow2_pos.
  rewrite HA, HB in *. clear HA HB.
  set (A := inject_Z (2 ^ a)) in *. set (B := inject_Z (2 ^ b)) in *.
  assert (Hx : ((n # d) * D == N)%Q).
  { rewrite Hq'. field. lra. }
  destruct (Qle_bool E (n # d)) eqn:Hle.
  - apply Qle_bool_iff in Hle. split; [done|].
    rewrite pow2_succ. fold E. set (x := (n # d)) in *. nra.
  - assert (Hnle : ~ (E <= n # d)%Q) by (intros H; apply Qle_bool_iff in H; congruence).
    replace (a - b - 1 + 1) with (a - b) by lia. fold E. split; [|lra].
    assert (HE2 : (2 * 2 ^ (a - b - 1) == E)%Q).
    { rewrite <- pow2_succ. unfold E. by replace (a - b - 1 + 1) with (a - b) by lia. }
    set (x := (n # d)) in *. set (E' := (2 ^ (a - b - 1))%Q) in *.
    assert (0 < E')%Q by apply pow2_pos. nra.
Qed.

Lemma ilog2_unique (q : Q) (k : Z) :
  (2 ^ k <= q)%Q -> (q < 2 ^ (k + 1))%Q -> ilog2 q = k.
Proof.
  intros H1 H2.
  assert (Hq : (0 < q)%Q) by (pose proof (pow2_pos k); lra).
  destruct (ilog2_spec q Hq) as [S1 S2]. set (e := ilog2 q) in *.
  destruct (Z.lt_trichotomy e k) as [Hlt|[Heq|Hgt]]; [|done|].
  - pose proof (pow2_le (e + 1) k ltac:(lia)). lra.
  - pose proof (pow2_le (k + 1) e ltac:(lia)). lra.
Qed.


Lemma rne_comp (x y : Q) : (x == y)%Q -> rne x = rne y.
Proof. intros H. unfold rne. by rewrite (Qred_complete _ _ H). Qed.

Lemma rne_spec (x : Q) : (Qabs (inject_Z (rne x) - x) <= 1 # 2)%Q.
Proof.
  unfold rne. pose proof (round_half_even_spec (Qred x)) as H.
  pose proof (Qred_correct x) as E.
  apply Qabs_Qle_condition in H. apply Qabs_Qle_condition. lra.
Qed.

Lemma rne_int (z : Z) : rne (inject_Z z) = z.
Proof.
  pose proof (rne_spec (inject_Z z)) as H. apply Qabs_Qle_condition in H as [H1 H2].
  set (m := rne (inject_Z z)) in *.
  unfold Qle, Qminus, Qplus, Qopp, inject_Z in H1, H2. cbn in H1, H2. lia.
Qed.

Lemma rne_mono (x y : Q) : (x <= y)%Q -> rne x <= rne y.
Proof.
  intros Hxy. destruct (Z.le_gt_cases (rne x) (rne y)) as [|Hgt]; [done|].
  pose proof (rne_spec x) as Hx. pose proof (rne_spec y) as Hy.
  apply Qabs_Qle_condition in Hx as [Hx1 Hx2]. apply Qabs_Qle_condition in Hy as [Hy1 Hy2].
  assert (Hge : (inject_Z (rne y) + 1 <= inject_Z (rne x))%Q).
  { change 1%Q with (inject_Z 1). rewrite <- inject_Z_plus, <- Zle_Qle. lia. }
  assert (Heq : (x == y)%Q) by lra.
  rewrite (rne_comp x y Heq) in Hgt. lia.
Qed.

Lemma round_bin_pos_spec (p : Z) (q : Q) :
  (0 < q)%Q ->
  let s := ilog2 q - p + 1 in
  let x' := (q * 2 ^ (- s))%Q in
  (2 ^ (p - 1) <= x')%Q /\ (x' < 2 ^ p)%Q /\ (x' * 2 ^ s == q)%Q /\
  round_bin_pos p q = (inject_Z (rne x') * 2 ^ s)%Q.
Proof.
  intros Hq s x'. destruct (ilog2_spec q Hq) as [H1 H2].
  pose proof (pow2_pos (- s)) as Hs. pose proof (pow2_cancel s) as Hc.
  assert (Ha : (2 ^ ilog2 q * 2 ^ (- s) == 2 ^ (p - 1))%Q).
  { rewrite <- pow2_add. unfold s. by replace (ilog2 q + - (ilog2 q - p + 1)) with (p - 1) by lia. }
  assert (Hb : (2 ^ (ilog2 q + 1) * 2 ^ (- s) == 2 ^ p)%Q).
  { rewrite <- pow2_add. unfold s. by replace (ilog2 q + 1 + - (ilog2 q - p + 1)) with p by lia. }
  unfold x'. split; [|split; [|split]].
  - rewrite <- Ha. apply Qmult_le_compat_r; [done|by apply Qlt_le_weak].
  - rewrite <- Hb. apply Qmult_lt_compat_r; done.
  - rewrite <- Qmult_assoc, (Qmult_comm (2 ^ (- s))), Hc. ring.
  - reflexivity.
Qed.

Lemma rne_pow2_bounds (p : Z) (x : Q) :
  0 < p -> (2 ^ (p - 1) <= x)%Q -> (x < 2 ^ p)%Q ->
  (2 ^ (p - 1) <= inject_Z (rne x))%Q /\ (inject_Z (rne x) <= 2 ^ p)%Q.
Proof.
  intros Hp H1 H2.
  rewrite (pow2_inject (p - 1)) in * by lia. rewrite (pow2_inject p) in * by lia.
  split; rewrite <- Zle_Qle.
  - rewrite <- (rne_int (2 ^ (p - 1))). by apply rne_mono.
  - rewrite <- (rne_int (2 ^ p)). apply rne_mono. by apply Qlt_le_weak.
Qed.

Lemma round_bin_pos_bounds (p : Z) (q : Q) :
  0 < p -> (0 < q)%Q ->
  (2 ^ ilog2 q <= round_bin_pos p q)%Q /\ (round_bin_pos p q <= 2 ^ (ilog2 q + 1))%Q.
Proof.
  intros Hp Hq. destruct (round_bin_pos_spec p q Hq) as (H1 & H2 & _ & ->).
  set (s := ilog2 q - p + 1) in *. set (x' := (q * 2 ^ (- s))%Q) in *.
  destruct (rne_pow2_bounds p x' Hp H1 H2) as [M1 M2].
  pose proof (pow2_pos s) as Hs.
  assert (Ha : (2 ^ ilog2 q == 2 ^ (p - 1) * 2 ^ s)%Q).
  { rewrite <- pow2_add. unfold s. by replace (p - 1 + (ilog2 q - p + 1)) with (ilog2 q) by lia. }
  assert (Hb : (2 ^ (ilog2 q + 1) == 2 ^ p * 2 ^ s)%Q).
  { rewrite <- pow2_add. unfold s. by replace (p + (ilog2 q - p + 1)) with (ilog2 q + 1) by lia. }
  rewrite Ha, Hb. split; apply Qmult_le_compat_r; (done || by apply Qlt_le_weak).
Qed.

Lemma round_bin_pos_comp (p : Z) (x y : Q) :
  (0 < x)%Q -> (x == y)%Q -> round_bin_pos p x = round_bin_pos p y.
Proof.
  intros Hx Hxy. unfold round_bin_pos.
  assert (He : ilog2 y = ilog2 x).
  { destruct (ilog2_spec x Hx) as [H1 H2]. apply ilog2_unique; lra. }
  rewrite He.
  rewrite (rne_comp (x * 2 ^ (- (ilog2 x - p + 1))) (y * 2 ^ (- (ilog2 x - p + 1)))); [done|].
  apply Qmult_comp; [exact Hxy|reflexivity].
Qed.

Lemma round_bin_pos_mono (p : Z) (x y : Q) :
  0 < p -> (0 < x)%Q -> (x <= y)%Q -> (round_bin_pos p x <= round_bin_pos p y)%Q.
Proof.
  intros Hp Hx Hxy. assert (Hy : (0 < y)%Q) by lra.
  destruct (ilog2_spec x Hx) as [X1 X2]. destruct (ilog2_spec y Hy) as [Y1 Y2].
  destruct (Z.lt_trichotomy (ilog2 x) (ilog2 y)) as [Hlt|[Heq|Hgt]].
  - destruct (round_bin_pos_bounds p x Hp Hx) as [_ B1].
    destruct (round_bin_pos_bounds p y Hp Hy) as [B2 _].
    pose proof (pow2_le (ilog2 x + 1) (ilog2 y) ltac:(lia)). lra.
  - unfold round_bin_pos. rewrite Heq. set (s := ilog2 y - p + 1).
    apply Qmult_le_compat_r; [|apply Qlt_le_weak, pow2_pos].
    rewrite <- Zle_Qle. apply rne_mono.
    apply Qmult_le_compat_r; [done|apply Qlt_le_weak, pow2_pos].
  - pose proof (pow2_le (ilog2 y + 1) (ilog2 x) ltac:(lia)). lra.
Qed.

Lemma Qred_pos (q : Q) : (0 < q)%Q -> exists n d, Qred q = Zpos n # d.
Proof.
  intros Hq. rewrite <- (Qred_correct q) in Hq.
  destruct (Qred q) as [[|n|n] d]; unfold Qlt in Hq; simpl in Hq; try lia. by exists n, d.
Qed.

Lemma round_bin_of_pos (p : Z) (q : Q) :
  (0 < q)%Q -> (round_bin p q == round_bin_pos p (Qred q))%Q.
Proof.
  intros Hq. unfold round_bin. destruct (Qred_pos q Hq) as (n & d & ->).
  apply Qred_correct.
Qed.

Lemma round_bin_comp (p : Z) (x y : Q) : (x == y)%Q -> round_bin p x = round_bin p y.
Proof. intros H. unfold round_bin. by rewrite (Qred_complete _ _ H). Qed.

#[global] Instance round_bin_proper (p : Z) : Proper (Qeq ==> Qeq) (round_bin p).
Proof. intros x y H. by rewrite (round_bin_comp p x y H). Qed.

Lemma round_bin_0 (p : Z) (q : Q) : (q == 0)%Q -> round_bin p q = 0%Q.
Proof. intros H. rewrite (round_bin_comp p q 0 H). reflexivity. Qed.

Lemma round_bin_opp (p : Z) (q : Q) : (round_bin p (- q) == - round_bin p q)%Q.
Proof.
  unfold round_bin. rewrite Qred_opp.
  destruct (Qred q) as [[|n|n] d]; cbn [Qopp Qnum Qden Z.opp]; rewrite !Qred_correct.
  - reflexivity.
  - reflexivity.
  - symmetry. apply Qopp_involutive.
Qed.

Lemma round_bin_pos_gt_0 (p : Z) (q : Q) : 0 < p -> (0 < q)%Q -> (0 < round_bin p q)%Q.
Proof.
  intros Hp Hq. rewrite round_bin_of_pos by done.
  assert (Hr : (0 < Qred q)%Q) by (by rewrite Qred_correct).
  destruct (round_bin_pos_bounds p (Qred q) Hp Hr) as [H _].
  pose proof (pow2_pos (ilog2 (Qred q))). lra.
Qed.

(** Rounding keeps the order. *)
Lemma round_bin_mono (p : Z) (x y : Q) :
  0 < p -> (x <= y)%Q -> (round_bin p x <= round_bin p y)%Q.
Proof.
  intros Hp Hxy.
  assert (Hpos : forall a b, (0 < a)%Q -> (a <= b)%Q -> (round_bin p a <= round_bin p b)%Q).
  { intros a b Ha Hab. assert (Hb : (0 < b)%Q) by lra.
    rewrite !round_bin_of_pos by done. apply round_bin_pos_mono; [done| |];
      by rewrite !Qred_correct. }
  destruct (Qlt_le_dec 0 x) as [Hx|Hx]; [by apply Hpos|].
  destruct (Qlt_le_dec 0 y) as [Hy|Hy].
  - pose proof (round_bin_pos_gt_0 p y Hp Hy) as Hry.
    destruct (Qeq_dec x 0) as [H0|H0]; [rewrite (round_bin_0 p x H0); lra|].
    assert (Hnx : (0 < - x)%Q) by lra.
    pose proof (round_bin_pos_gt_0 p (- x) Hp Hnx) as Hrx.
    rewrite round_bin_opp in Hrx. lra.
  - destruct (Qeq_dec y 0) as [H0|H0].
    + rewrite (round_bin_0 p y H0).
      destruct (Qeq_dec x 0) as [H1|H1]; [rewrite (round_bin_0 p x H1); lra|].
      assert (Hnx : (0 < - x)%Q) by lra.
      pose proof (round_bin_pos_gt_0 p (- x) Hp Hnx) as Hrx.
      rewrite round_bin_opp in Hrx. lra.
    + assert (Hny : (0 < - y)%Q) by lra.
      pose proof (Hpos (- y)%Q (- x)%Q Hny ltac:(lra)) as H.
      rewrite !round_bin_opp in H. lra.
Qed.

(** A number of at most [p] significant bits is left as it is. *)
Lemma round_bin_exact_pos (p j k : Z) :
  0 < p -> 0 < j < 2 ^ p ->
  (round_bin p (inject_Z j * 2 ^ k) == inject_Z j * 2 ^ k)%Q.
Proof.
  intros Hp Hj. set (q := (inject_Z j * 2 ^ k)%Q).
  assert (Hjq : (0 < inject_Z j)%Q) by (change 0%Q with (inject_Z 0); rewrite <- Zlt_Qlt; lia).
  assert (Hq : (0 < q)%Q) by (unfold q; pose proof (pow2_pos k); nra).
  rewrite round_bin_of_pos by done.
  assert (Hr : (0 < Qred q)%Q) by (by rewrite Qred_correct).
  destruct (round_bin_pos_spec p (Qred q) Hr) as (H1 & H2 & H3 & ->).
  set (s := ilog2 (Qred q) - p + 1) in *. set (x' := (Qred q * 2 ^ (- s))%Q) in *.
  assert (Hx' : (x' == inject_Z j * 2 ^ (k - s))%Q).
  { unfold x'. rewrite Qred_correct. unfold q. rewrite <- Qmult_assoc, <- pow2_add.
    by replace (k + - s) with (k - s) by lia. }
  destruct (Z.le_gt_cases 0 (k - s)) as [Hks|Hks].
  - rewrite (pow2_inject (k - s)) in Hx' by done. rewrite <- inject_Z_mult in Hx'.
    rewrite (rne_comp _ _ Hx'), rne_int, inject_Z_mult, <- pow2_inject by done.
    unfold q. rewrite <- Qmult_assoc, <- pow2_add. by replace (k - s + s) with k by lia.
  - exfalso.
    assert (Hhalf : (2 ^ (k - s) <= 2 ^ (-1))%Q) by (apply pow2_le; lia).
    change (2 ^ (-1))%Q with (1 # 2)%Q in Hhalf.
    assert (Hjp : (inject_Z j < 2 ^ p)%Q).
    { rewrite (pow2_inject p) by lia. rewrite <- Zlt_Qlt. lia. }
    assert (Hpp : (2 * 2 ^ (p - 1) == 2 ^ p)%Q).
    { rewrite <- pow2_succ. by replace (p - 1 + 1) with p by lia. }
    pose proof (pow2_pos (k - s)). rewrite Hx' in H1.
    set (J := inject_Z j) in *. set (T := (2 ^ (k - s))%Q) in *. nra.
Qed.

Lemma round_bin_exact (p j k : Z) :
  0 < p -> Z.abs j <= 2 ^ p ->
  (round_bin p (inject_Z j * 2 ^ k) == inject_Z j * 2 ^ k)%Q.
Proof.
  intros Hp Hj.
  assert (Hpow : forall k', (round_bin p (2 ^ p * 2 ^ k') == 2 ^ p * 2 ^ k')%Q).
  { intros k'. assert (He : (2 ^ p * 2 ^ k' == inject_Z 1 * 2 ^ (p + k'))%Q).
    { rewrite pow2_add. change (inject_Z 1) with 1%Q. ring. }
    rewrite He. apply round_bin_exact_pos; [done|].
    split; [lia|]. apply Z.pow_gt_1; lia. }
  assert (Hnn : forall j', 0 < j' <= 2 ^ p ->
            (round_bin p (inject_Z j' * 2 ^ k) == inject_Z j' * 2 ^ k)%Q).
  { intros j' Hj'. destruct (Z.eq_dec j' (2 ^ p)) as [->|Hne].
    - rewrite <- (pow2_inject p) by lia. apply Hpow.
    - apply round_bin_exact_pos; [done|lia]. }
  destruct j as [|j|j].
  - assert (H0 : (inject_Z 0 * 2 ^ k == 0)%Q) by (change (inject_Z 0) with 0%Q; ring).
    rewrite (round_bin_0 p _ H0). by rewrite H0.
  - apply Hnn. lia.
  - assert (He : (inject_Z (Z.neg j) * 2 ^ k == - (inject_Z (Z.pos j) * 2 ^ k))%Q).
    { change (inject_Z (Z.neg j)) with (- inject_Z (Z.pos j))%Q. ring. }
    rewrite He, round_bin_opp. apply Qopp_comp. apply Hnn. lia.
Qed.

Lemma round_bin_int (p z : Z) :
  0 < p -> Z.abs z <= 2 ^ p -> (round_bin p (inject_Z z) == inject_Z z)%Q.
Proof.
  intros Hp Hz. pose proof (round_bin_exact p z 0 Hp Hz) as H.
  change (2 ^ 0)%Q with 1%Q in H. by rewrite Qmult_1_r in H.
Qed.

(** Rounding stays between integers of at most [p] bits. *)
Lemma round_bin_between (p : Z) (lo hi : Z) (x : Q) :
  0 < p -> Z.abs lo <= 2 ^ p -> Z.abs hi <= 2 ^ p ->
  (inject_Z lo <= x <= inject_Z hi)%Q ->
  (inject_Z lo <= round_bin p x <= inject_Z hi)%Q.
Proof.
  intros Hp Hlo Hhi [H1 H2]. split.
  - rewrite <- (round_bin_int p lo) by done. by apply round_bin_mono.
  - rewrite <- (round_bin_int p hi) by done. by apply round_bin_mono.
Qed.

(** The relative error of rounding to [p] bits is at most [2^-p]. *)
Lemma round_bin_rel_err (p : Z) (q : Q) :
  0 < p -> (Qabs (round_bin p q - q) <= Qabs q * 2 ^ (- p))%Q.
Proof.
  intros Hp.
  assert (Hpos : forall x, (0 < x)%Q -> (Qabs (round_bin p x - x) <= x * 2 ^ (- p))%Q).
  { intros x Hx. rewrite round_bin_of_pos by done.
    assert (Hr : (0 < Qred x)%Q) by (by rewrite Qred_correct).
    destruct (round_bin_pos_spec p (Qred x) Hr) as (H1 & H2 & H3 & ->).
    set (s := ilog2 (Qred x) - p + 1) in *. set (x' := (Qred x * 2 ^ (- s))%Q) in *.
    rewrite Qred_correct in H3.
    pose proof (rne_spec x') as Hm. apply Qabs_Qle_condition in Hm as [Hm1 Hm2].
    pose proof (pow2_pos s) as HS. pose proof (pow2_pos (- p)) as HP.
    assert (Hc : (2 ^ (p - 1) * 2 ^ (- p) == 1 # 2)%Q).
    { rewrite <- pow2_add. by replace (p - 1 + - p) with (-1) by lia. }
    set (M := inject_Z (rne x')) in *. set (S := (2 ^ s)%Q) in *.
    set (A := (2 ^ (p - 1))%Q) in *. set (U := (2 ^ (- p))%Q) in *.
    assert (Hxu : ((1 # 2) * S <= x * U)%Q).
    { rewrite <- H3, <- Hc. assert (HAS : (A * S <= x' * S)%Q) by (apply Qmult_le_compat_r; lra). nra. }
    apply Qabs_Qle_condition. split; nra. }
  destruct (Qlt_le_dec 0 q) as [Hq|Hq].
  - rewrite (Qabs_pos q) by lra. by apply Hpos.
  - destruct (Qeq_dec q 0) as [H0|H0].
    + rewrite (round_bin_0 p q H0), H0. simpl. apply Qle_refl || (vm_compute; discriminate).
    + assert (Hn : (0 < - q)%Q) by lra.
      rewrite (Qabs_neg q) by done.
      assert (He : (round_bin p q - q == - (round_bin p (- q) - - q))%Q).
      { rewrite round_bin_opp. ring. }
      rewrite He, Qabs_opp. by apply Hpos.
Qed.

End FloatProperties.

(** Two runs of the summation, on related elements and with related
    additions, give related sums. *)
Section SumRel.
Import Wav2Csv.


Context (rnd1 rnd2 : Q -> Q) (R : nat -> Q -> Q -> Prop) (N : nat).
Hypothesis R0 : R 0 0%Q 0%Q.
Hypothesis Radd : forall a b x x' y y',
  R a x x' -> R b y y' -> (a + b <= N)%nat -> R (a + b) (fadd rnd1 x y) (fadd rnd2 x' y').

Lemma fold_fadd_rel (l l' : list Q) (c : nat) (acc acc' : Q) :
  Forall2 (R 1) l l' -> R c acc acc' -> (c + length l <= N)%nat ->
  R (c + length l) (fold_left (fadd rnd1) l acc) (fold_left (fadd rnd2) l' acc').
Proof.
  intros Hl. revert c acc acc'. induction Hl as [|x x' l l' Hx _ IH]; intros c acc acc' Hacc Hn.
  - cbn [fold_left length]. by rewrite Nat.add_0_r.
  - cbn [fold_left length] in *. replace (c + S (length l))%nat with (c + 1 + length l)%nat by lia.
    apply IH; [|lia]. apply Radd; [done|done|lia].
Qed.

Lemma zip_fadd_rel (c : nat) (r r' b b' : list Q) :
  Forall2 (R c) r r' -> Forall2 (R 1) b b' -> (c + 1 <= N)%nat ->
  Forall2 (R (c + 1)) (zip_with (fadd rnd1) r b) (zip_with (fadd rnd2) r' b').
Proof.
  intros Hr. revert b b'. induction Hr as [|x x' r r' Hx _ IH]; intros b b' Hb Hn; [constructor|].
  destruct Hb as [|y y' b b' Hy Hb]; [constructor|]. cbn [zip_with].
  constructor; [by apply Radd|by apply IH].
Qed.

Lemma add_blocks_rel (k c : nat) (r r' l l' : list Q) :
  Forall2 (R c) r r' -> Forall2 (R 1) l l' -> (c + k <= N)%nat ->
  Forall2 (R (c + k)) (fst (add_blocks rnd1 k r l)) (fst (add_blocks rnd2 k r' l')) /\
  Forall2 (R 1) (snd (add_blocks rnd1 k r l)) (snd (add_blocks rnd2 k r' l')).
Proof.
  revert c r r' l l'. induction k as [|k IH]; intros c r r' l l' Hr Hl Hn.
  - cbn [add_blocks fst snd]. by rewrite Nat.add_0_r.
  - cbn [add_blocks]. replace (c + S k)%nat with (c + 1 + k)%nat by lia.
    apply IH; [|by apply Forall2_drop|lia].
    apply zip_fadd_rel; [done|by apply Forall2_take|lia].
Qed.

Lemma add_blocks_rest (rnd : Q -> Q) (k : nat) (r l : list Q) :
  snd (add_blocks rnd k r l) = drop (8 * k) l.
Proof.
  revert r l. induction k as [|k IH]; intros r l; cbn [add_blocks snd]; [done|].
  rewrite IH, drop_drop. f_equal. lia.
Qed.

Lemma add_blocks_length (rnd : Q -> Q) (k : nat) (r l : list Q) :
  length r = 8%nat -> (8 * k <= length l)%nat -> length (fst (add_blocks rnd k r l)) = 8%nat.
Proof.
  revert r l. induction k as [|k IH]; intros r l Hr Hl; cbn [add_blocks fst]; [done|].
  apply IH; [|rewrite length_drop; lia].
  rewrite length_zip_with, length_take. lia.
Qed.

Lemma sum_unrolled_rel (l l' : list Q) :
  Forall2 (R 1) l l' -> (8 <= length l)%nat -> (length l <= N)%nat ->
  R (length l) (sum_unrolled rnd1 l) (sum_unrolled rnd2 l').
Proof.
  intros Hl H8 HN. pose proof (Forall2_length _ _ _ Hl) as Hlen.
  unfold sum_unrolled. rewrite <- Hlen.
  set (k := (length l / 8 - 1)%nat).
  pose proof (Nat.div_mod_eq (length l) 8) as Hdm.
  assert (Hq : (1 <= length l / 8)%nat) by (apply Nat.div_le_lower_bound; lia).
  destruct (add_blocks_rel k 1 (take 8 l) (take 8 l') (drop 8 l) (drop 8 l')) as [Hr Hrest];
    [by apply Forall2_take|by apply Forall2_drop|unfold k; lia|].
  pose proof (add_blocks_length rnd1 k (take 8 l) (drop 8 l)) as L1.
  pose proof (add_blocks_rest rnd1 k (take 8 l) (drop 8 l)) as S1.
  destruct (add_blocks rnd1 k (take 8 l) (drop 8 l)) as [r rest].
  destruct (add_blocks rnd2 k (take 8 l') (drop 8 l')) as [r' rest'].
  cbn [fst snd] in *.
  assert (Lr : length r = 8%nat).
  { apply L1; [rewrite length_take; lia|rewrite length_drop; unfold k; lia]. }
  assert (Lrest : length rest = (length l mod 8)%nat).
  { rewrite S1, !length_drop. unfold k. lia. }
  set (c := (1 + k)%nat) in *.
  assert (Hc : (8 * c + length rest = length l)%nat) by (unfold c, k; lia).
  destruct r as [|r0 [|r1 [|r2 [|r3 [|r4 [|r5 [|r6 [|r7 [|? ?]]]]]]]]]; try discriminate Lr.
  repeat match goal with
         | H : Forall2 _ (_ :: _) _ |- _ => apply Forall2_cons_inv_l in H as (? & ? & ? & ? & ->)
         | H : Forall2 _ [] _ |- _ => apply Forall2_nil_inv_l in H as ->
         end.
  rewrite <- Hc.
  replace (8 * c)%nat with (((c + c) + (c + c)) + ((c + c) + (c + c)))%nat by lia.
  apply fold_fadd_rel; [done| |lia].
  repeat (apply Radd; [..|lia]); done.
Qed.

Lemma pairwise_sum_rel (fuel : nat) (l l' : list Q) :
  Forall2 (R 1) l l' -> (length l <= fuel + 128)%nat -> (length l <= N)%nat ->
  R (length l) (pairwise_sum rnd1 fuel l) (pairwise_sum rnd2 fuel l').
Proof.
  revert l l'. induction fuel as [|fuel IH]; intros l l' Hl Hf HN;
    pose proof (Forall2_length _ _ _ Hl) as Hlen; cbn [pairwise_sum]; rewrite <- Hlen.
  - destruct (Nat.ltb_spec (length l) 8).
    + apply (fold_fadd_rel l l' 0); [done|done|simpl; lia].
    + destruct (Nat.leb_spec (length l) 128); [|lia]. by apply sum_unrolled_rel.
  - destruct (Nat.ltb_spec (length l) 8).
    + apply (fold_fadd_rel l l' 0); [done|done|simpl; lia].
    + destruct (Nat.leb_spec (length l) 128); [by apply sum_unrolled_rel|].
      set (n2 := (length l / 2 - (length l / 2) mod 8)%nat).
      pose proof (Nat.div_mod_eq (length l) 2) as Hd2.
      pose proof (Nat.mod_upper_bound (length l) 2 ltac:(lia)) as Hm2.
      pose proof (Nat.mod_upper_bound (length l / 2) 8 ltac:(lia)) as Hm8.
      assert (Hn2 : (0 < n2 < length l)%nat) by (unfold n2; lia).
      replace (length l) with (length (take n2 l) + length (drop n2 l))%nat at 1
        by (rewrite length_take, length_drop; lia).
      apply Radd.
      * apply IH; [by apply Forall2_take|rewrite length_take; lia|rewrite length_take; lia].
      * apply IH; [by apply Forall2_drop|rewrite length_drop; lia|rewrite length_drop; lia].
      * rewrite length_take, length_drop. lia.
Qed.

Lemma np_sum_rel (l l' : list Q) :
  Forall2 (R 1) l l' -> (length l <= N)%nat ->
  R (length l) (np_sum rnd1 l) (np_sum rnd2 l').
Proof.
  intros Hl HN. unfold np_sum. rewrite <- (Forall2_length _ _ _ Hl).
  apply pairwise_sum_rel; [done|lia|done].
Qed.

End SumRel.

Section SumProperties.
Import Wav2Csv.


Lemma Qsum_app (a b : list Q) : (Qsum (a ++ b) == Qsum a + Qsum b)%Q.
Proof.
  induction a as [|x a IH].
  - change (Qsum ([] ++ b)) with (Qsum b). change (Qsum []) with 0%Q. ring.
  - change (Qsum ((x :: a) ++ b)) with (x + Qsum (a ++ b))%Q.
    change (Qsum (x :: a)) with (x + Qsum a)%Q. rewrite IH. ring.
Qed.

Lemma fold_fadd_exact (l : list Q) (acc : Q) :
  (fold_left (fadd (fun q => q)) l acc == acc + Qsum l)%Q.
Proof.
  revert acc. induction l as [|x l IH]; intros acc; cbn [fold_left].
  - change (Qsum []) with 0%Q. ring.
  - change (Qsum (x :: l)) with (x + Qsum l)%Q. rewrite IH. unfold fadd. ring.
Qed.

Lemma zip_fadd_exact (r b : list Q) :
  length r = length b ->
  (Qsum (zip_with (fadd (fun q => q)) r b) == Qsum r + Qsum b)%Q.
Proof.
  revert b. induction r as [|x r IH]; intros [|y b] Hl; try discriminate Hl.
  - change (Qsum (zip_with (fadd (fun q => q)) [] [])) with 0%Q. change (Qsum []) with 0%Q. ring.
  - cbn [zip_with].
    change (Qsum (fadd (fun q => q) x y :: zip_with (fadd (fun q => q)) r b))
      with (fadd (fun q => q) x y + Qsum (zip_with (fadd (fun q => q)) r b))%Q.
    change (Qsum (x :: r)) with (x + Qsum r)%Q. change (Qsum (y :: b)) with (y + Qsum b)%Q.
    rewrite IH by (by injection Hl). unfold fadd. ring.
Qed.

Lemma add_blocks_exact (k : nat) (r l : list Q) :
  length r = 8%nat -> (8 * k <= length l)%nat ->
  (Qsum (fst (add_blocks (fun q => q) k r l)) == Qsum r + Qsum (take (8 * k) l))%Q.
Proof.
  revert r l. induction k as [|k IH]; intros r l Hr Hl; cbn [add_blocks fst].
  - rewrite Nat.mul_0_r, take_0. change (Qsum []) with 0%Q. ring.
  - rewrite IH; [|rewrite length_zip_with, length_take; lia|rewrite length_drop; lia].
    rewrite zip_fadd_exact by (rewrite length_take; lia).
    replace (8 * S k)%nat with (8 + 8 * k)%nat by lia.
    rewrite <- (take_drop 8 (take (8 + 8 * k) l)) at 1.
    rewrite take_take, Nat.min_l by lia. rewrite Qsum_app.
    rewrite <- take_drop_commute. ring.
Qed.

Lemma sum_unrolled_exact (l : list Q) :
  (8 <= length l)%nat -> (sum_unrolled (fun q => q) l == Qsum l)%Q.
Proof.
  intros H8. unfold sum_unrolled. set (k := (length l / 8 - 1)%nat).
  pose proof (Nat.div_mod_eq (length l) 8) as Hdm.
  assert (Hq : (1 <= length l / 8)%nat) by (apply Nat.div_le_lower_bound; lia).
  pose proof (add_blocks_exact k (take 8 l) (drop 8 l)) as E.
  pose proof (add_blocks_length (fun q => q) k (take 8 l) (drop 8 l)) as L1.
  pose proof (add_blocks_rest (fun q => q) k (take 8 l) (drop 8 l)) as S1.
  destruct (add_blocks (fun q => q) k (take 8 l) (drop 8 l)) as [r rest].
  cbn [fst snd] in *.
  assert (Hl8 : length (take 8 l) = 8%nat) by (rewrite length_take; lia).
  assert (Hk : (8 * k <= length (drop 8 l))%nat) by (rewrite length_drop; unfold k; lia).
  specialize (E Hl8 Hk). specialize (L1 Hl8 Hk).
  assert (Hl : (Qsum l == Qsum r + Qsum rest)%Q).
  { rewrite E, S1. rewrite <- (take_drop 8 l) at 1. rewrite Qsum_app.
    rewrite <- (take_drop (8 * k) (drop 8 l)) at 1. rewrite Qsum_app. ring. }
  destruct r as [|r0 [|r1 [|r2 [|r3 [|r4 [|r5 [|r6 [|r7 [|? ?]]]]]]]]]; try discriminate L1.
  rewrite fold_fadd_exact, Hl. unfold fadd. cbn [Qsum fold_right]. ring.
Qed.

Lemma pairwise_sum_exact (fuel : nat) (l : list Q) :
  (length l <= fuel + 128)%nat -> (pairwise_sum (fun q => q) fuel l == Qsum l)%Q.
Proof.
  revert l. induction fuel as [|fuel IH]; intros l Hf; cbn [pairwise_sum].
  - destruct (Nat.ltb_spec (length l) 8).
    + unfold sum_small. rewrite fold_fadd_exact. ring.
    + destruct (Nat.leb_spec (length l) 128); [|lia]. by apply sum_unrolled_exact.
  - destruct (Nat.ltb_spec (length l) 8).
    + unfold sum_small. rewrite fold_fadd_exact. ring.
    + destruct (Nat.leb_spec (length l) 128); [by apply sum_unrolled_exact|].
      set (n2 := (length l / 2 - (length l / 2) mod 8)%nat).
      pose proof (Nat.div_mod_eq (length l) 2) as Hd2.
      pose proof (Nat.mod_upper_bound (length l) 2 ltac:(lia)) as Hm2.
      pose proof (Nat.mod_upper_bound (length l / 2) 8 ltac:(lia)) as Hm8.
      assert (Hn2 : (0 < n2 < length l)%nat) by (unfold n2; lia).
      unfold fadd. rewrite !IH by (rewrite ?length_take, ?length_drop; lia).
      rewrite <- (take_drop n2 l) at 3. by rewrite Qsum_app.
Qed.

Lemma np_sum_exact (l : list Q) : (np_sum (fun q => q) l == Qsum l)%Q.
Proof. apply pairwise_sum_exact. lia. Qed.

(** Sums of numbers between two integers stay between the multiples
    of these integers, as long as the multiples have at most [p] bits. *)
Lemma np_sum_between (p lo hi : Z) (l : list Q) :
  0 < p ->
  Z.of_nat (length l) * Z.max (Z.abs lo) (Z.abs hi) <= 2 ^ p ->
  Forall (fun x => (inject_Z lo <= x <= inject_Z hi)%Q) l ->
  (inject_Z (lo * Z.of_nat (length l)) <= np_sum (round_bin p) l
   <= inject_Z (hi * Z.of_nat (length l)))%Q.
Proof.
  intros Hp Hn Hl.
  apply (np_sum_rel (round_bin p) (round_bin p)
           (fun k x _ => (inject_Z (lo * Z.of_nat k) <= x <= inject_Z (hi * Z.of_nat k))%Q)
           (length l)) with (l' := l).
  - change (Z.of_nat 0) with 0. rewrite !Z.mul_0_r. split; apply Qle_refl.
  - intros a b x _ y _ [X1 X2] [Y1 Y2] Hab. unfold fadd.
    apply round_bin_between; [done|nia|nia|].
    rewrite Nat2Z.inj_add, !Z.mul_add_distr_l, !inject_Z_plus. split; lra.
  - apply Forall_Forall2_diag. eapply Forall_impl; [exact Hl|].
    intros x Hx. simpl. by rewrite !Z.mul_1_r.
  - done.
Qed.

(** Sums of multiples of a power of two are exact, as long as the sum
    of the magnitudes has at most [p] bits. *)
Lemma np_sum_grid (p e m : Z) (l : list Q) :
  0 < p -> 0 <= m -> Z.of_nat (length l) * m <= 2 ^ p ->
  Forall (fun x => exists j, Z.abs j <= m /\ (x == inject_Z j * 2 ^ e)%Q) l ->
  (np_sum (round_bin p) l == Qsum l)%Q /\
  exists j, Z.abs j <= Z.of_nat (length l) * m /\ (Qsum l == inject_Z j * 2 ^ e)%Q.
Proof.
  intros Hp Hm Hn Hl.
  pose (R := fun (k : nat) (x x' : Q) => (x == x')%Q /\
              exists j, Z.abs j <= Z.of_nat k * m /\ (x' == inject_Z j * 2 ^ e)%Q).
  assert (H : R (length l) (np_sum (round_bin p) l) (np_sum (fun q => q) l)).
  { apply (np_sum_rel (round_bin p) (fun q => q) R (length l)); unfold R.
    - split; [reflexivity|]. exists 0. split; [simpl; lia|].
      change (inject_Z 0) with 0%Q. ring.
    - intros a b x x' y y' (X & jx & Hjx & Ex) (Y & jy & Hjy & Ey) Hab. unfold fadd.
      assert (Es : (x' + y' == inject_Z (jx + jy) * 2 ^ e)%Q).
      { rewrite Ex, Ey, inject_Z_plus. ring. }
      assert (Hw : Z.of_nat (a + b) * m <= Z.of_nat (length l) * m) by nia.
      split.
      + rewrite X, Y, Es. apply round_bin_exact; [done|]. lia.
      + exists (jx + jy). split; [|done]. lia.
    - apply Forall_Forall2_diag. eapply Forall_impl; [exact Hl|].
      intros x (j & Hj & Ex). simpl. split; [reflexivity|]. exists j. split; [lia|done].
    - done. }
  destruct H as (E & j & Hj & Ej).
  rewrite np_sum_exact in E, Ej. split; [done|]. by exists j.
Qed.

End SumProperties.

(** * Properties of tools/wav2csv.py *)

Section Wav2CsvProperties.
Import Wav2Csv.

(** ** Grouping *)

Lemma groups_length {A} (n k : nat) (l : list A) : length (groups n k l) = k.
Proof. revert l. induction k as [|k IH]; intros l; simpl; [done|]. by rewrite IH. Qed.

Lemma groups_lookup {A} (n k i : nat) (l : list A) :
  (i < k)%nat -> groups n k l !! i = Some (take n (drop (i * n) l)).
Proof.
  revert i l. induction k as [|k IH]; intros i l Hi; [lia|].
  destruct i as [|i]; simpl.
  - by rewrite drop_0.
  - rewrite IH by lia. by rewrite drop_drop.
Qed.

Lemma groups_concat {A} (n k : nat) (l : list A) :
  length l = (k * n)%nat -> concat (groups n k l) = l.
Proof.
  revert l. induction k as [|k IH]; intros l Hl; simpl.
  - destruct l; simpl in *; [done|lia].
  - rewrite IH; [apply take_drop|]. rewrite length_drop. lia.
Qed.

Lemma groups_singletons {A} (l : list A) :
  groups 1 (length l) l = map (fun x => [x]) l.
Proof.
  induction l as [|x l IH]; simpl; [done|].
  rewrite drop_0. by rewrite IH.
Qed.

Lemma frombuffer_ok (n k : nat) (dec : list byte -> Z) (frames : list byte) :
  n <> 0%nat -> length frames = (k * n)%nat ->
  frombuffer n dec frames = Ok (map dec (groups n k frames)).
Proof.
  intros Hn Hl. unfold frombuffer. rewrite Hl.
  rewrite Nat.Div0.mod_mul, Nat.div_mul by done. done.
Qed.

Lemma reshape_ok (n : Z) (k : nat) (data : list Z) :
  1 < n -> length data = (k * Z.to_nat n)%nat ->
  reshape n data = Ok (Mat (Z.to_nat n) (groups (Z.to_nat n) k data)).
Proof.
  intros Hn Hl. unfold reshape. rewrite Hl.
  rewrite Nat.Div0.mod_mul, Nat.div_mul by lia. done.
Qed.

(** ** Bytes and two's complement *)

Lemma byte_val_range (b : byte) : 0 <= byte_val b < 256.
Proof. unfold byte_val. pose proof (Byte.to_N_bounded b). lia. Qed.

Lemma le_unsigned_range (bs : list byte) :
  0 <= le_unsigned bs < 256 ^ Z.of_nat (length bs).
Proof.
  induction bs as [|b bs IH]; [simpl; lia|].
  cbn [le_unsigned length]. rewrite Nat2Z.inj_succ, Z.pow_succ_r by lia.
  pose proof (byte_val_range b). lia.
Qed.

Lemma to_signed_spec (bits u : Z) :
  0 < bits -> 0 <= u < 2 ^ bits ->
  - 2 ^ (bits - 1) <= to_signed bits u < 2 ^ (bits - 1) /\
  to_signed bits u mod 2 ^ bits = u.
Proof.
  intros Hb Hu. unfold to_signed.
  assert (Hp : 2 ^ bits = 2 * 2 ^ (bits - 1)).
  { rewrite <- Z.pow_succ_r by lia. f_equal. lia. }
  destruct (Z.ltb_spec u (2 ^ (bits - 1))).
  - split; [lia|]. apply Z.mod_small. lia.
  - split; [lia|].
    replace (u - 2 ^ bits) with (u + (-1) * 2 ^ bits) by lia.
    rewrite Z.mod_add by lia. apply Z.mod_small. lia.
Qed.

(** A header that agrees with the bytes read. *)
Definition wf_wav (w : wav_file) : Prop :=
  (getsampwidth w = 1 \/ getsampwidth w = 2 \/ getsampwidth w = 4) /\
  0 < getnchannels w /\ 0 <= getnframes w /\ getframerate w <> 0 /\
  Z.of_nat (length (readframes w)) = getnframes w * getnchannels w * getsampwidth w.

(** The samples [read_wav_file] decodes, before reshaping. *)
Lemma read_wav_file_ok (w : wav_file) :
  wf_wav w ->
  exists (data : list Z) (b : block Z),
    read_wav_file w =
      Ok (getframerate w,
          mk_ndarray (if getsampwidth w =? 4 then int32 else int16) (Ints b),
          mk_wav_info (getnchannels w) (getsampwidth w) (getframerate w) (getnframes w)
                      (inject_Z (getnframes w) / inject_Z (getframerate w))%Q) /\
    block_flat b = data /\
    b = (if 1 <? getnchannels w
         then Mat (Z.to_nat (getnchannels w))
                  (groups (Z.to_nat (getnchannels w)) (Z.to_nat (getnframes w)) data)
         else Vec data) /\
    data =
      (if getsampwidth w =? 1 then map (fun x => byte_val x - 128) (readframes w)
       else map (fun bs => to_signed (8 * getsampwidth w) (le_unsigned bs))
                (groups (Z.to_nat (getsampwidth w))
                        (Z.to_nat (getnframes w * getnchannels w)) (readframes w))).
Proof.
  intros (Hw & Hc & Hn & Hr & Hl).
  destruct w as [nc sw fr nf frames]; simpl in *.
  set (k := Z.to_nat (nf * nc)).
  assert (Hk : length frames = (k * Z.to_nat sw)%nat) by (unfold k; nia).
  set (data := if sw =? 1 then map (fun x => byte_val x - 128) frames
               else map (fun bs => to_signed (8 * sw) (le_unsigned bs))
                        (groups (Z.to_nat sw) k frames)).
  assert (Hd : length data = (Z.to_nat nf * Z.to_nat nc)%nat).
  { unfold data. destruct Hw as [-> | [-> | ->]]; simpl;
      rewrite ?length_map, ?groups_length; unfold k; nia. }
  exists data.
  exists (if 1 <? nc then Mat (Z.to_nat nc) (groups (Z.to_nat nc) (Z.to_nat nf) data)
          else Vec data).
  split; [|split; [|split; [done|done]]].
  - unfold read_wav_file, read_wav_body.
    cbn [getnchannels getsampwidth getframerate getnframes readframes].
    assert (Hfr : (fr =? 0) = false) by (apply Z.eqb_neq; done).
    assert (Hdata : (if sw =? 1 then
                       d ← frombuffer 1 le_unsigned frames ; Ok (int16, map (fun u => u - 128) d)
                     else if sw =? 2 then
                       d ← frombuffer 2 (fun bs => to_signed 16 (le_unsigned bs)) frames ;
                       Ok (int16, d)
                     else if sw =? 4 then
                       d ← frombuffer 4 (fun bs => to_signed 32 (le_unsigned bs)) frames ;
                       Ok (int32, d)
                     else Raise (UnsupportedSampleWidth sw))
                    = Ok (if sw =? 4 then int32 else int16, data)).
    { unfold data. destruct Hw as [-> | [-> | ->]].
      - rewrite (frombuffer_ok 1 (length frames)) by lia.
        rewrite groups_singletons, map_map. cbn.
        rewrite map_map. do 2 f_equal. apply map_ext; intros; lia.
      - rewrite (frombuffer_ok 2 k) by (done || lia). done.
      - rewrite (frombuffer_ok 4 k) by (done || lia). done. }
    rewrite Hdata. cbn [mbind result_bind].
    destruct (Z.ltb_spec 1 nc).
    + rewrite (reshape_ok nc (Z.to_nat nf)) by (done || lia).
      cbn [mbind result_bind]. by rewrite Hfr.
    + cbn [mbind result_bind]. by rewrite Hfr.
  - destruct (Z.ltb_spec 1 nc); simpl; [|done].
    apply groups_concat. lia.
Qed.

Example read_wav_file_stereo_16bit :
  read_wav_file (mk_wav_file 2 2 8000 2 [x00; x80; xff; x7f; x80; x00; x01; x00])
  = Ok (8000, mk_ndarray int16 (Ints (Mat 2 [[-32768; 32767]; [128; 1]])),
        mk_wav_info 2 2 8000 2 (2 # 8000)).
Proof. reflexivity. Qed.

Example read_wav_file_24bit :
  read_wav_file (mk_wav_file 1 3 8000 1 [x00; x00; x00])
  = Raise (ReadError (UnsupportedSampleWidth 3)).
Proof. reflexivity. Qed.

Example read_wav_file_odd_stereo :
  read_wav_file (mk_wav_file 2 1 8000 1 [x80; x80; x80])
  = Raise (ReadError (ReshapeError 3 2)).
Proof. reflexivity. Qed.

(** C3.  A well-formed recording decodes, and: with 1-byte samples
    every sample is the unsigned byte minus 128, so that the byte 128
    becomes 0; with 2-byte and 4-byte samples every sample is the signed
    two's-complement reading of its little-endian bytes, with nothing
    subtracted. *)
Theorem read_wav_file_rebias (w : wav_file) :
  wf_wav w ->
  exists sr arr info b,
    read_wav_file w = Ok (sr, arr, info) /\ el arr = Ints b /\
    Z.of_nat (length (block_flat b)) = getnframes w * getnchannels w /\
    (getsampwidth w = 1 ->
       block_flat b = map (fun x => byte_val x - 128) (readframes w) /\
       forall i : nat, readframes w !! i = Some x80 -> block_flat b !! i = Some 0) /\
    (getsampwidth w = 2 \/ getsampwidth w = 4 ->
       forall (i : nat) (z : Z), block_flat b !! i = Some z ->
         let n := Z.to_nat (getsampwidth w) in
         let u := le_unsigned (take n (drop (i * n) (readframes w))) in
         let bits := 8 * getsampwidth w in
         - 2 ^ (bits - 1) <= z < 2 ^ (bits - 1) /\ z mod 2 ^ bits = u).
Proof.
  intros Hwf. destruct (read_wav_file_ok w Hwf) as (data & b & Hok & Hflat & _ & Hdata).
  destruct Hwf as (Hw & Hc & Hn & Hr & Hl).
  eexists _, _, _, b. split; [exact Hok|]. split; [done|].
  rewrite Hflat. split; [|split].
  - rewrite Hdata. destruct Hw as [Hw | [Hw | Hw]]; rewrite Hw in *; cbn [Z.eqb Pos.eqb];
      rewrite ?length_map, ?groups_length; lia.
  - intros Hw1. rewrite Hdata, Hw1. cbn [Z.eqb Pos.eqb]. split; [done|].
    intros i Hi. rewrite list_lookup_fmap, Hi. done.
  - clear Hw. intros Hw i z Hz. cbn zeta.
    assert (Hne : (getsampwidth w =? 1) = false) by (apply Z.eqb_neq; lia).
    rewrite Hdata, Hne in Hz.
    rewrite list_lookup_fmap in Hz.
    destruct (groups _ _ _ !! i) as [g|] eqn:Hg; [|done].
    injection Hz as <-.
    pose proof (lookup_lt_Some _ _ _ Hg) as Hi. rewrite groups_length in Hi.
    rewrite groups_lookup in Hg by done. injection Hg as <-.
    set (g := take _ _).
    assert (Hlen : length g = Z.to_nat (getsampwidth w)).
    { unfold g. rewrite length_take, length_drop. nia. }
    pose proof (le_unsigned_range g) as Hu. rewrite Hlen in Hu.
    apply to_signed_spec; [lia|].
    split; [lia|].
    replace (2 ^ (8 * getsampwidth w)) with (256 ^ Z.of_nat (Z.to_nat (getsampwidth w))); [lia|].
    destruct Hw as [-> | ->]; done.
Qed.

Definition wav_8bit : wav_file := mk_wav_file 1 1 8000 3 [x00; x80; xff].

Lemma read_wav_file_rebias_witness :
  wf_wav wav_8bit /\
  exists sr arr info b,
    read_wav_file wav_8bit = Ok (sr, arr, info) /\ el arr = Ints b /\
    block_flat b = [-128; 0; 127].
Proof.
  assert (Hwf : wf_wav wav_8bit).
  { unfold wf_wav, wav_8bit; simpl. repeat split; (lia || auto). }
  split; [exact Hwf|].
  destruct (read_wav_file_rebias wav_8bit Hwf) as (sr & arr & info & b & H1 & H2 & _ & H3 & _).
  exists sr, arr, info, b. split; [exact H1|]. split; [exact H2|].
  destruct (H3 eq_refl) as [-> _]. reflexivity.
Defined.

(** ** normalize_audio *)

(** The dtype tag agrees with the elements, and integer elements are
    representable in the dtype. *)
Definition well_typed (arr : ndarray) : Prop :=
  match el arr with
  | Ints b => is_integer (dt arr) = true /\
              Forall (fun z => iinfo_min (dt arr) <= z <= iinfo_max (dt arr)) (block_flat b)
  | Floats _ => is_floating (dt arr) = true
  | Bools _ => dt arr = bool_
  end.

Lemma block_flat_map {A B} (f : A -> B) (b : block A) :
  block_flat (block_map f b) = map f (block_flat b).
Proof.
  destruct b as [xs|n rows]; simpl; [done|].
  induction rows as [|r rows IH]; simpl; [done|]. by rewrite map_app, IH.
Qed.

Lemma Qabs_div_le_1 (z D : Z) :
  0 < D -> - D <= z <= D -> (Qabs (inject_Z z / inject_Z D) <= 1)%Q.
Proof.
  intros HD Hz. apply Qabs_Qle_condition.
  assert (HDq : (0 < inject_Z D)%Q) by (unfold Qlt; simpl; lia).
  split.
  - apply Qle_shift_div_l; [done|].
    change (- (1))%Q with (inject_Z (-1)). rewrite <- inject_Z_mult, <- Zle_Qle. lia.
  - apply Qle_shift_div_r; [done|].
    change 1%Q with (inject_Z 1). rewrite <- inject_Z_mult, <- Zle_Qle. lia.
Qed.

Lemma Qabs_clip_le_1 (x : Q) : (Qabs (clip (-1) 1 x) <= 1)%Q.
Proof.
  unfold clip.
  destruct (Qle_bool x (-1)) eqn:H1; [done|].
  destruct (Qle_bool 1 x) eqn:H2; [done|].
  apply Qabs_Qle_condition. split.
  - apply Qnot_lt_le. intros Hlt. apply Qlt_le_weak in Hlt.
    apply Qle_bool_iff in Hlt. exact (eq_true_false_abs _ Hlt H1).
  - apply Qnot_lt_le. intros Hlt. apply Qlt_le_weak in Hlt.
    apply Qle_bool_iff in Hlt. exact (eq_true_false_abs _ Hlt H2).
Qed.

Lemma denom_pos (d : dtype) : is_integer d = true -> 0 < Z.max (Z.abs (iinfo_min d)) (iinfo_max d).
Proof. destruct d; simpl; intros; (done || lia). Qed.

Lemma iinfo_within_denom (d : dtype) (z : Z) :
  iinfo_min d <= z <= iinfo_max d ->
  - Z.max (Z.abs (iinfo_min d)) (iinfo_max d) <= z <= Z.max (Z.abs (iinfo_min d)) (iinfo_max d).
Proof. lia. Qed.

(** C1.  On every well-typed array [normalize_audio] returns float32
    values of magnitude at most 1: floating input is clamped to [-1,1],
    integer input is divided by max(|min|, max) of its dtype, whatever
    representable values it holds. *)
Theorem normalize_audio_bounded (arr : ndarray) :
  well_typed arr ->
  exists out,
    normalize_audio arr = mk_ndarray float32 (Floats out) /\
    Forall (fun q => (Qabs q <= 1)%Q) (block_flat out) /\
    (is_floating (dt arr) = true -> out = block_map (clip (-1) 1) (as_float (el arr))) /\
    (is_integer (dt arr) = true ->
       out = block_map
               (fun x => x / inject_Z (Z.max (Z.abs (iinfo_min (dt arr))) (iinfo_max (dt arr))))%Q
               (as_float (el arr))).
Proof.
  intros Hwt. destruct arr as [d e]. unfold well_typed in Hwt. simpl in Hwt.
  unfold normalize_audio. cbn [dt el].
  destruct e as [b|b|b].
  - destruct Hwt as [Hint Hrange].
    assert (Hfl : is_floating d = false) by (destruct d; done).
    rewrite Hfl, Hint. eexists. split; [reflexivity|]. split; [|split; [done|done]].
    cbn [as_float]. rewrite !block_flat_map.
    apply Forall_fmap, Forall_fmap. eapply Forall_impl; [exact Hrange|].
    intros z Hz. simpl. unfold denom.
    apply Qabs_div_le_1; [by apply denom_pos|by apply iinfo_within_denom].
  - rewrite Hwt. eexists. split; [reflexivity|]. split; [|split; [done|]].
    + rewrite block_flat_map. apply Forall_fmap, Forall_forall.
      intros x _. apply Qabs_clip_le_1.
    + intros Hint. destruct d; done.
  - subst d. cbn [is_floating is_integer]. eexists. split; [reflexivity|].
    split; [|split; [done|done]].
    cbn [as_float]. rewrite block_flat_map. apply Forall_fmap, Forall_forall.
    intros [|] _; done.
Qed.

Definition int16_extremes : ndarray :=
  mk_ndarray int16 (Ints (Vec [-32768; 0; 32767])).

Example normalize_audio_int16_extremes :
  normalize_audio int16_extremes
  = mk_ndarray float32 (Floats (Vec [-32768 # 32768; 0 # 32768; 32767 # 32768]%Q)).
Proof. reflexivity. Qed.

Lemma normalize_audio_bounded_witness :
  well_typed int16_extremes /\
  exists out,
    normalize_audio int16_extremes = mk_ndarray float32 (Floats out) /\
    Forall (fun q => (Qabs q <= 1)%Q) (block_flat out).
Proof.
  assert (Hwt : well_typed int16_extremes).
  { unfold well_typed, int16_extremes; simpl. split; [done|].
    repeat constructor; simpl; lia. }
  split; [exact Hwt|].
  destruct (normalize_audio_bounded int16_extremes Hwt) as (out & H1 & H2 & _).
  exists out. split; [exact H1 | exact H2].
Defined.

(** ** mix_to_mono *)

Lemma Qsum_repeat (v : Q) (n : nat) :
  (Qsum (repeat v n) == inject_Z (Z.of_nat n) * v)%Q.
Proof.
  induction n as [|n IH].
  - simpl. ring.
  - cbn [repeat Qsum fold_right]. fold (Qsum (repeat v n)). rewrite IH.
    rewrite Nat2Z.inj_succ. unfold Z.succ. rewrite inject_Z_plus. ring.
Qed.

Lemma ndim_as_float (x : ndarray) : ndim x = block_ndim (as_float (el x)).
Proof. unfold ndim. destruct (el x) as [[|]|[|]|[|]]; done. Qed.

Lemma shape0_as_float (x : ndarray) : shape0 x = block_shape0 (as_float (el x)).
Proof.
  unfold shape0. destruct (el x) as [[|]|[|]|[|]]; simpl; by rewrite ?length_map.
Qed.

(** The precision of a floating dtype, in bits. *)
Definition prec (d : dtype) : Z :=
  match d with float32 => 24 | _ => 53 end.

Lemma stored_floating (d : dtype) :
  is_floating d = true -> stored d = round_bin (prec d).
Proof. by destruct d. Qed.

Lemma prec_pos (d : dtype) : 0 < prec d.
Proof. by destruct d. Qed.

#[global] Instance stored_proper (d : dtype) : Proper (Qeq ==> Qeq) (stored d).
Proof.
  intros x y H. destruct d; cbn [stored]; try exact H;
    unfold f32, f64; by rewrite (round_bin_comp _ _ _ H).
Qed.

(** A multiple of [2^e] with a numerator of magnitude at most [m]. *)
Definition on_grid (e m : Z) (c : Q) : Prop :=
  exists j : Z, Z.abs j <= m /\ (c == inject_Z j * 2 ^ e)%Q.

Lemma Qsum_Forall2 (l l' : list Q) : Forall2 Qeq l l' -> (Qsum l == Qsum l')%Q.
Proof.
  induction 1 as [|x y l l' Hxy _ IH]; [reflexivity|].
  change (Qsum (x :: l)) with (x + Qsum l)%Q. change (Qsum (y :: l')) with (y + Qsum l')%Q.
  by rewrite Hxy, IH.
Qed.

Lemma on_grid_stored (d : dtype) (e m : Z) (c : Q) :
  is_floating d = true -> m <= 2 ^ prec d -> on_grid e m c ->
  (stored d c == c)%Q.
Proof.
  intros Hd Hm (j & Hj & Hc). rewrite stored_floating by done.
  rewrite (round_bin_comp _ _ _ Hc), Hc. apply round_bin_exact; [apply prec_pos|lia].
Qed.

(** On a grid that the precision covers, the mean of a row is the
    arithmetic mean, rounded once; of a constant row it is the
    constant. *)
Lemma mean_row_grid (d : dtype) (n : nat) (row : list Q) (e m : Z) :
  is_floating d = true -> (0 < n)%nat -> length row = n ->
  0 <= m -> Z.of_nat n * m <= 2 ^ prec d ->
  Forall (on_grid e m) row ->
  (mean_row d n row == stored d (Qsum row / inject_Z (Z.of_nat n)))%Q /\
  (forall v : Q, row = repeat v n -> (mean_row d n row == v)%Q).
Proof.
  intros Hd Hn Hlen Hm Hnm Hrow.
  assert (Hm1 : m <= 2 ^ prec d) by nia.
  assert (Hst : Forall2 Qeq (map (stored d) row) row).
  { apply Forall2_fmap_l, Forall_Forall2_diag. eapply Forall_impl; [exact Hrow|].
    intros c Hc. simpl. by apply (on_grid_stored d e m). }
  assert (Hgrid : Forall (fun x => exists j, Z.abs j <= m /\ (x == inject_Z j * 2 ^ e)%Q)
                         (map (stored d) row)).
  { apply Forall_fmap. eapply Forall_impl; [exact Hrow|].
    intros c Hc. simpl. pose proof (on_grid_stored d e m c Hd Hm1 Hc) as Es.
    destruct Hc as (j & Hj & Ec). exists j. split; [done|]. by rewrite Es. }
  destruct (np_sum_grid (prec d) e m (map (stored d) row) (prec_pos d) Hm) as [Hsum _];
    [by rewrite length_map, Hlen|exact Hgrid|].
  rewrite <- stored_floating in Hsum by done.
  assert (Hmean : (mean_row d n row == stored d (Qsum row / inject_Z (Z.of_nat n)))%Q).
  { unfold mean_row. by rewrite Hsum, (Qsum_Forall2 _ _ Hst). }
  split; [exact Hmean|].
  intros v ->. rewrite Hmean, Qsum_repeat.
  assert (Hv : on_grid e m v).
  { destruct n as [|n]; [lia|]. by apply Forall_cons in Hrow as [? _]. }
  assert (Hq : ~ (inject_Z (Z.of_nat n) == 0)%Q) by (unfold Qeq; simpl; lia).
  assert (He : (inject_Z (Z.of_nat n) * v / inject_Z (Z.of_nat n) == v)%Q) by (by field).
  rewrite He. by apply (on_grid_stored d e m).
Qed.

(** Between integers whose multiples the precision covers, the mean of
    a row stays between them. *)
Lemma mean_row_between (d : dtype) (n : nat) (row : list Q) (lo hi : Z) :
  is_floating d = true -> (0 < n)%nat -> length row = n ->
  Z.of_nat n * Z.max (Z.abs lo) (Z.abs hi) <= 2 ^ prec d ->
  Forall (fun c => (inject_Z lo <= c <= inject_Z hi)%Q) row ->
  (inject_Z lo <= mean_row d n row <= inject_Z hi)%Q.
Proof.
  intros Hd Hn Hlen Hnm Hrow. unfold mean_row. rewrite !stored_floating by done.
  pose proof (prec_pos d) as Hp. set (p := prec d) in *.
  assert (Hst : Forall (fun c => (inject_Z lo <= c <= inject_Z hi)%Q) (map (round_bin p) row)).
  { apply Forall_fmap. eapply Forall_impl; [exact Hrow|]. intros c Hc. simpl.
    apply round_bin_between; [done|nia|nia|done]. }
  destruct (np_sum_between p lo hi (map (round_bin p) row) Hp) as [S1 S2];
    [by rewrite length_map, Hlen|exact Hst|].
  rewrite length_map, Hlen in S1, S2. rewrite inject_Z_mult in S1, S2.
  assert (Hnq : (0 < inject_Z (Z.of_nat n))%Q).
  { change 0%Q with (inject_Z 0). rewrite <- Zlt_Qlt. lia. }
  apply round_bin_between; [done|nia|nia|]. split.
  - apply Qle_shift_div_l; [done|]. lra.
  - apply Qle_shift_div_r; [done|]. lra.
Qed.

(** A float32 signal of three channels, constant at a float32 value. *)
Definition v_const : Q := (-6779195 # 67108864)%Q.

Definition three_channels_const : ndarray :=
  mk_ndarray float32 (Floats (Mat 3 [repeat v_const 3; repeat v_const 3])).



(** A normalised 16-bit recording of two channels. *)
Definition stereo_normalized : ndarray :=
  mk_ndarray float32 (Floats (Mat 2 [[-32768 # 32768; 32767 # 32768];
                                     [128 # 32768; 128 # 32768]]%Q)).


(** ** write_csv_minimal *)

Lemma column_stack_length (t : list Q) (x : block Q) :
  length t = block_shape0 x -> length (column_stack t x) = length t.
Proof. destruct x; simpl; intros Hl; rewrite length_zip_with; lia. Qed.

Lemma column_stack_lookup (t : list Q) (x : block Q) (i : nat) (ti : Q) :
  length t = block_shape0 x -> t !! i = Some ti ->
  exists rest, column_stack t x !! i = Some (ti :: rest).
Proof.
  intros Hl Hi. pose proof (lookup_lt_Some _ _ _ Hi) as Hlt.
  destruct x as [xs|n rs]; simpl in *.
  - destruct (lookup_lt_is_Some_2 xs i) as [xi Hxi]; [lia|].
    exists [xi]. rewrite lookup_zip_with, Hi. simpl. by rewrite Hxi.
  - destruct (lookup_lt_is_Some_2 rs i) as [r Hr]; [lia|].
    exists r. rewrite lookup_zip_with, Hi. simpl. by rewrite Hr.
Qed.

Lemma time_array_length (n : nat) (sr : Z) : length (time_array n sr) = n.
Proof. unfold time_array. by rewrite length_map, length_seq. Qed.

Lemma time_array_lookup (n i : nat) (sr : Z) :
  (i < n)%nat -> time_array n sr !! i = Some (fdiv (Z.of_nat i) sr).
Proof.
  intros Hi. unfold time_array. rewrite list_lookup_fmap, lookup_seq_lt by done. done.
Qed.

Lemma block_map_map {A B C} (f : A -> B) (g : B -> C) (b : block A) :
  block_map g (block_map f b) = block_map (fun x => g (f x)) b.
Proof.
  destruct b as [xs|n rows]; simpl; f_equal.
  - by rewrite map_map.
  - rewrite map_map. apply map_ext. intros r. by rewrite map_map.
Qed.

(** The cells of an array beside the time column: each number as the
    array's dtype holds it, seen as [float64]. *)
Definition cell (d : dtype) (q : Q) : Q := f64 (stored d q).

Lemma to_float64_cells (x : ndarray) :
  to_float64 x = block_map (cell (dt x)) (as_float (el x)).
Proof. unfold to_float64, values. by rewrite block_map_map. Qed.

Lemma shape0_to_float64 (x : ndarray) : block_shape0 (to_float64 x) = shape0 x.
Proof.
  rewrite to_float64_cells, shape0_as_float.
  destruct (as_float (el x)); simpl; by rewrite length_map.
Qed.

(** The array [write_csv_minimal] serialises. *)
Definition processed (data : ndarray) (normalize mix_mono : bool) : ndarray :=
  let x := if normalize then normalize_audio data else data in
  if mix_mono then mix_to_mono x else x.

Lemma write_csv_minimal_ok abspath argv1 data sr output_path normalize mix_mono :
  sr <> 0 ->
  exists csv m,
    write_csv_minimal abspath argv1 data sr output_path normalize mix_mono = Ok (csv, m) /\
    length (rows csv) = shape0 (processed data normalize mix_mono) /\
    (forall i : nat, (i < length (rows csv))%nat ->
       exists rest,
         rows csv !! i = Some (fmt_7g (fdiv (Z.of_nat i) sr) :: rest)) /\
    samples m = Z.of_nat (length (rows csv)) /\
    samplerate_hz m = sr /\
    duration_s m = fdiv (samples m) sr /\
    channels m = (if (ndim (processed data normalize mix_mono) =? 1)%nat then 1
                  else Z.of_nat (shape1 (processed data normalize mix_mono))) /\
    header csv = (if (ndim (processed data normalize mix_mono) =? 1)%nat then "Time_s,Ch1"
                  else "Time_s," +:+ String.concat ","
                         (map (fun i => "Ch" +:+ str_of_nat (i + 1))
                              (seq 0 (shape1 (processed data normalize mix_mono))))) /\
    normalized m = normalize /\ mixed_to_mono m = mix_mono /\
    rows csv
    = map (map fmt_7g)
          (column_stack (time_array (shape0 (processed data normalize mix_mono)) sr)
                        (to_float64 (processed data normalize mix_mono))).
Proof.
  intros Hsr. unfold write_csv_minimal. fold (processed data normalize mix_mono).
  set (x := processed data normalize mix_mono).
  assert (Hz : (sr =? 0) = false) by (by apply Z.eqb_neq). rewrite Hz.
  assert (Hlen : length (time_array (shape0 x) sr) = block_shape0 (to_float64 x)).
  { by rewrite time_array_length, shape0_to_float64. }
  eexists _, _. split; [reflexivity|]. cbn [rows samples samplerate_hz duration_s channels
    header normalized mixed_to_mono].
  rewrite length_map, column_stack_length, time_array_length by done.
  repeat split; try done.
  intros i Hi.
  destruct (column_stack_lookup (time_array (shape0 x) sr) (to_float64 x) i
              (fdiv (Z.of_nat i) sr) Hlen) as [rest Hrest].
  { by apply time_array_lookup. }
  exists (map fmt_7g rest). rewrite list_lookup_fmap, Hrest. done.
Qed.

(** ** The cell format *)

Lemma pow10_succ (e : Z) : (pow10 (e + 1) == 10 * pow10 e)%Q.
Proof.
  unfold pow10.
  destruct (Z.leb_spec 0 e) as [He|He].
  - destruct (Z.leb_spec 0 (e + 1)); [|lia].
    rewrite Z.pow_add_r by lia. rewrite inject_Z_mult. change (inject_Z (10 ^ 1)) with 10%Q. ring.
  - destruct (Z.leb_spec 0 (e + 1)) as [He1|He1].
    + assert (e = -1) by lia. subst e. reflexivity.
    + replace (- e) with (- (e + 1) + 1) by lia.
      rewrite Z.pow_add_r by lia. rewrite inject_Z_mult. change (inject_Z (10 ^ 1)) with 10%Q.
      assert (Hnz : ~ (inject_Z (10 ^ (- (e + 1))) == 0)%Q).
      { unfold Qeq; simpl. pose proof (Z.pow_pos_nonneg 10 (- (e + 1))). lia. }
      field. exact Hnz.
Qed.

Lemma pow10_pred (e : Z) : (pow10 (e - 1) * 10 == pow10 e)%Q.
Proof. rewrite <- (Z.sub_add 1 e) at 2. rewrite pow10_succ. ring. Qed.

Lemma scale_down_spec (fuel : nat) (lo hi q : Q) (e : Z) :
  (10 * lo == hi)%Q -> (0 < q)%Q -> (q < hi * inject_Z (10 ^ Z.of_nat fuel))%Q ->
  let '(q', e') := scale_down fuel hi q e in
  (q' * pow10 e' == q * pow10 e)%Q /\ (0 < q')%Q /\ (q' < hi)%Q /\
  ((lo <= q')%Q \/ (q' = q /\ e' = e)).
Proof.
  intros Hlh. revert q e. induction fuel as [|fuel IH]; intros q e Hq Hlt.
  - cbn [scale_down]. change (inject_Z (10 ^ Z.of_nat 0)) with 1%Q in Hlt.
    split; [reflexivity|]. split; [done|]. split; [lra|]. right. done.
  - cbn [scale_down]. destruct (Qle_bool hi q) eqn:Hle.
    + apply Qle_bool_iff in Hle.
      assert (Hq10 : (0 < q / 10)%Q) by (apply Qlt_shift_div_l; lra).
      assert (Hlt10 : (q / 10 < hi * inject_Z (10 ^ Z.of_nat fuel))%Q).
      { apply Qlt_shift_div_r; [lra|].
        rewrite Nat2Z.inj_succ, Z.pow_succ_r in Hlt by lia.
        rewrite inject_Z_mult in Hlt. change (inject_Z 10) with 10%Q in Hlt. lra. }
      specialize (IH (q / 10)%Q (e + 1) Hq10 Hlt10).
      destruct (scale_down fuel hi (q / 10) (e + 1)) as [q' e'].
      destruct IH as (Hv & Hp & Hh & Hl).
      split; [|split; [done|split; [done|]]].
      * rewrite Hv, pow10_succ. field.
      * left. destruct Hl as [Hl|[-> _]]; [done|].
        apply Qle_shift_div_l; lra.
    + assert (Hnle : ~ (hi <= q)%Q).
      { intros H. apply Qle_bool_iff in H. congruence. }
      split; [reflexivity|]. split; [done|]. split; [lra|]. right. done.
Qed.

Lemma scale_up_spec (fuel : nat) (lo hi q : Q) (e : Z) :
  (10 * lo == hi)%Q -> (0 < q)%Q -> (q < hi)%Q ->
  (lo <= q * inject_Z (10 ^ Z.of_nat fuel))%Q ->
  let '(q', e') := scale_up fuel lo q e in
  (q' * pow10 e' == q * pow10 e)%Q /\ (lo <= q')%Q /\ (q' < hi)%Q.
Proof.
  intros Hlh. revert q e. induction fuel as [|fuel IH]; intros q e Hq Hhi Hlo.
  - cbn [scale_up]. change (inject_Z (10 ^ Z.of_nat 0)) with 1%Q in Hlo.
    split; [reflexivity|]. split; [lra|done].
  - cbn [scale_up]. destruct (Qle_bool lo q) eqn:Hle.
    + apply Qle_bool_iff in Hle. split; [reflexivity|]. done.
    + assert (Hnle : ~ (lo <= q)%Q).
      { intros H. apply Qle_bool_iff in H. congruence. }
      rewrite Nat2Z.inj_succ, Z.pow_succ_r in Hlo by lia.
      rewrite inject_Z_mult in Hlo. change (inject_Z 10) with 10%Q in Hlo.
      specialize (IH (q * 10)%Q (e - 1)).
      destruct (scale_up fuel lo (q * 10) (e - 1)) as [q' e'].
      destruct IH as (Hv & Hl & Hh); [lra|lra|lra|].
      split; [|done]. rewrite Hv, <- (pow10_pred e). ring.
Qed.

Lemma pos_lt_pow10_size (n : positive) : Zpos n < 10 ^ Z.of_nat (Pos.size_nat n).
Proof.
  induction n as [n IH|n IH|]; cbn [Pos.size_nat];
    rewrite ?Nat2Z.inj_succ, ?Z.pow_succ_r by lia; lia.
Qed.

Lemma round_sig_pos_spec (p : Z) (q : Q) :
  0 < p -> (0 < q)%Q ->
  exists (m e : Z) (q2 : Q),
    (q2 * pow10 e == q)%Q /\
    (pow10 (p - 1) <= q2)%Q /\ (q2 < pow10 p)%Q /\
    (Qabs (inject_Z m - q2) <= 1 # 2)%Q /\
    round_sig_pos p q = (inject_Z m * pow10 e)%Q.
Proof.
  intros Hp Hq. unfold round_sig_pos.
  assert (Hlh : (10 * pow10 (p - 1) == pow10 p)%Q) by (rewrite <- (pow10_pred p); ring).
  destruct q as [n d]. cbn [Qnum Qden].
  assert (Hn : 0 < n) by (unfold Qlt in Hq; simpl in Hq; lia).
  destruct n as [|n|n]; try lia. cbn [Z.to_pos].
  pose proof (pos_lt_pow10_size n) as Hsn. pose proof (pos_lt_pow10_size d) as Hsd.
  assert (Hhi : (1 <= pow10 p)%Q).
  { unfold pow10. destruct (Z.leb_spec 0 p); [|lia].
    unfold Qle; simpl. pose proof (Z.pow_pos_nonneg 10 p). lia. }
  assert (Hlo : (pow10 (p - 1) == inject_Z (10 ^ (p - 1)))%Q).
  { unfold pow10. destruct (Z.leb_spec 0 (p - 1)); [reflexivity|lia]. }
  pose proof (scale_down_spec (Pos.size_nat n) (pow10 (p - 1)) (pow10 p) (Zpos n # d) 0 Hlh Hq)
    as Hdown.
  destruct (scale_down _ _ _ _) as [q1 e1].
  destruct Hdown as (Hv1 & Hq1 & Hh1 & Hl1).
  { assert (H1 : (Zpos n # d <= inject_Z (Zpos n))%Q)
      by (unfold Qle, inject_Z; cbn [Qnum Qden]; pose proof (Pos2Z.is_pos d); pose proof (Pos2Z.is_pos n); nia).
    assert (H2 : (inject_Z (Zpos n) < inject_Z (10 ^ Z.of_nat (Pos.size_nat n)))%Q)
      by (rewrite <- Zlt_Qlt; done).
    assert (H3 : (0 < inject_Z (10 ^ Z.of_nat (Pos.size_nat n)))%Q) by lra.
    nra. }
  pose proof (scale_up_spec (Pos.size_nat d + Z.to_nat p) (pow10 (p - 1)) (pow10 p) q1 e1
                Hlh Hq1 Hh1) as Hup.
  destruct (scale_up _ _ _ _) as [q2 e2].
  destruct Hup as (Hv2 & Hl2 & Hh2).
  { assert (Hbig : (1 <= inject_Z (10 ^ Z.of_nat (Pos.size_nat d + Z.to_nat p)))%Q).
    { unfold Qle; simpl. pose proof (Z.pow_pos_nonneg 10 (Z.of_nat (Pos.size_nat d + Z.to_nat p))). lia. }
    destruct Hl1 as [Hl1|[-> ->]].
    - nra.
    - rewrite Hlo. unfold Qle, Qmult, inject_Z. cbn [Qnum Qden].
      rewrite Nat2Z.inj_add, Z2Nat.id, Z.pow_add_r by lia.
      replace p with (p - 1 + 1) at 2 by lia. rewrite Z.pow_add_r by lia.
      change (10 ^ 1) with 10.
      set (A := 10 ^ (p - 1)). set (S := 10 ^ Z.of_nat (Pos.size_nat d)) in *.
      assert (HA : 0 < A) by (apply Z.pow_pos_nonneg; lia).
      assert (H1 : A * Zpos d <= A * S) by nia.
      assert (H2 : A * S <= Zpos n * (S * (A * 10))).
      { assert (0 < S) by lia. assert (0 <= A * S) by nia.
        assert (1 <= Zpos n) by lia. nia. }
      lia. }
  exists (round_half_even q2), e2, q2.
  split; [by rewrite Hv2, Hv1, Qmult_1_r|]. split; [done|]. split; [done|].
  split; [apply round_half_even_spec|reflexivity].
Qed.

(** A positive value is printed as the multiple of 10^e nearest to it,
    where 10^e is the weight of its 7th significant digit. *)
Lemma fmt_7g_spec (x : Q) :
  (0 < x)%Q ->
  exists (m e : Z) (x' : Q),
    (x' * pow10 e == x)%Q /\
    (pow10 6 <= x')%Q /\ (x' < pow10 7)%Q /\
    (Qabs (inject_Z m - x') <= 1 # 2)%Q /\
    fmt_7g x = (inject_Z m * pow10 e)%Q.
Proof.
  intros Hx. destruct (round_sig_pos_spec 7 x ltac:(lia) Hx) as (m & e & x' & H).
  exists m, e, x'. unfold fmt_7g, round_sig.
  destruct x as [[|n|n] d]; unfold Qlt in Hx; simpl in Hx; try lia. exact H.
Qed.

Example fmt_7g_values :
  (fmt_7g (1 # 8000) == 125 # 1000000)%Q /\
  (fmt_7g (1 # 44100) == 2267574 # 100000000000)%Q /\
  (fmt_7g (8000001 # 8000) == 1000)%Q /\
  (fmt_7g (- (1 # 3)) == -3333333 # 10000000)%Q /\
  (fmt_7g 123456789 == 123456800)%Q /\
  (fmt_7g (12345675 # 100000000) == 1234568 # 10000000)%Q /\
  (fmt_7g (12345665 # 100000000) == 1234566 # 10000000)%Q /\
  (fmt_7g 99999996 == 100000000)%Q /\
  (fmt_7g 0 == 0)%Q.
Proof. repeat split; vm_compute; reflexivity. Qed.

Definition stereo_two_frames : ndarray :=
  mk_ndarray int16 (Ints (Mat 2 [[-32768; 32767]; [128; 1]])).

End Wav2CsvProperties.

(** * Further properties of tools/wav2csv.py *)

Section Wav2CsvDecoder.
Import Wav2Csv.

(** ** What read_wav_file returns, case by case *)

Definition supported (sw : Z) : Prop := sw = 1 \/ sw = 2 \/ sw = 4.

(** The samples in the bytes, whatever the header says of their number. *)
Definition decoded (w : wav_file) : list Z :=
  let n := Z.to_nat (getsampwidth w) in
  if getsampwidth w =? 1 then map (fun x => byte_val x - 128) (readframes w)
  else map (fun bs => to_signed (8 * getsampwidth w) (le_unsigned bs))
           (groups n (length (readframes w) / n) (readframes w)).

Definition shaped (w : wav_file) : block Z :=
  let c := Z.to_nat (getnchannels w) in
  if 1 <? getnchannels w then Mat c (groups c (length (decoded w) / c) (decoded w))
  else Vec (decoded w).

Definition info_of (w : wav_file) : wav_info :=
  mk_wav_info (getnchannels w) (getsampwidth w) (getframerate w) (getnframes w)
              (inject_Z (getnframes w) / inject_Z (getframerate w))%Q.

Lemma decoded_length (w : wav_file) :
  supported (getsampwidth w) ->
  length (decoded w) = (length (readframes w) / Z.to_nat (getsampwidth w))%nat.
Proof.
  intros Hs. unfold decoded. destruct Hs as [-> | [-> | ->]]; cbn [Z.eqb Pos.eqb];
    rewrite length_map, ?groups_length; [|done|done].
  change (Z.to_nat 1) with 1%nat. by rewrite Nat.div_1_r.
Qed.

Lemma read_wav_file_cases (w : wav_file) :
  supported (getsampwidth w) ->
  read_wav_file w =
    let n := Z.to_nat (getsampwidth w) in
    let c := Z.to_nat (getnchannels w) in
    if negb (length (readframes w) mod n =? 0)%nat
    then Raise (ReadError (BufferSizeError (getsampwidth w)))
    else if (1 <? getnchannels w) && negb (length (decoded w) mod c =? 0)%nat
    then Raise (ReadError (ReshapeError (length (decoded w)) (getnchannels w)))
    else if getframerate w =? 0 then Raise (ReadError ZeroDivisionError)
    else Ok (getframerate w,
             mk_ndarray (if getsampwidth w =? 4 then int32 else int16) (Ints (shaped w)),
             info_of w).
Proof.
  intros Hs. unfold read_wav_file, read_wav_body, shaped, info_of. cbn zeta.
  assert (Hstage :
    (if getsampwidth w =? 1 then
       d ← frombuffer 1 le_unsigned (readframes w) ; Ok (int16, map (fun u => u - 128) d)
     else if getsampwidth w =? 2 then
       d ← frombuffer 2 (fun bs => to_signed 16 (le_unsigned bs)) (readframes w) ;
       Ok (int16, d)
     else if getsampwidth w =? 4 then
       d ← frombuffer 4 (fun bs => to_signed 32 (le_unsigned bs)) (readframes w) ;
       Ok (int32, d)
     else Raise (UnsupportedSampleWidth (getsampwidth w)))
    = if (length (readframes w) mod Z.to_nat (getsampwidth w) =? 0)%nat
      then Ok (if getsampwidth w =? 4 then int32 else int16, decoded w)
      else Raise (BufferSizeError (getsampwidth w))).
  { unfold decoded, frombuffer. destruct Hs as [-> | [-> | ->]]; cbn [Z.eqb Pos.eqb].
    - change (Z.to_nat 1) with 1%nat. rewrite Nat.mod_1_r, Nat.div_1_r. cbn [Nat.eqb].
      cbn [mbind result_bind]. rewrite groups_singletons, !map_map.
      do 2 f_equal. apply map_ext. intros b. cbn [le_unsigned]. lia.
    - change (Z.to_nat 2) with 2%nat. by destruct (_ =? 0)%nat.
    - change (Z.to_nat 4) with 4%nat. by destruct (_ =? 0)%nat. }
  rewrite Hstage. destruct (_ =? 0)%nat; cbn [negb mbind result_bind]; [|done].
  destruct (1 <? getnchannels w); cbn [andb].
  - unfold reshape. destruct (_ =? 0)%nat; cbn [negb mbind result_bind]; [|done].
    by destruct (getframerate w =? 0).
  - cbn [mbind result_bind]. by destruct (getframerate w =? 0).
Qed.

Lemma groups_Forall_length {A} (n k : nat) (l : list A) :
  length l = (k * n)%nat -> Forall (fun g => length g = n) (groups n k l).
Proof.
  revert l. induction k as [|k IH]; intros l Hl; simpl; constructor.
  - rewrite length_take. lia.
  - apply IH. rewrite length_drop. lia.
Qed.

Lemma decoded_range (w : wav_file) :
  supported (getsampwidth w) ->
  (length (readframes w) mod Z.to_nat (getsampwidth w) = 0)%nat ->
  let d := if getsampwidth w =? 4 then int32 else int16 in
  Forall (fun z => iinfo_min d <= z <= iinfo_max d) (decoded w) /\
  (getsampwidth w = 1 -> Forall (fun z => -128 <= z <= 127) (decoded w)).
Proof.
  intros Hs Hmod. cbn zeta. unfold decoded.
  assert (Hwide : forall n bits : Z,
    getsampwidth w = n -> 0 < n -> bits = 8 * n ->
    Forall (fun z => - 2 ^ (bits - 1) <= z <= 2 ^ (bits - 1) - 1)
      (map (fun bs => to_signed bits (le_unsigned bs))
           (groups (Z.to_nat n) (length (readframes w) / Z.to_nat n) (readframes w)))).
  { intros n bits Hn Hpos ->. apply Forall_fmap.
    eapply Forall_impl; [apply groups_Forall_length|].
    - rewrite Hn in Hmod. apply Nat.Div0.div_exact in Hmod. lia.
    - intros g Hg. simpl. pose proof (le_unsigned_range g) as Hu. rewrite Hg in Hu.
      assert (Hpow : 256 ^ Z.of_nat (Z.to_nat n) = 2 ^ (8 * n)).
      { rewrite Z2Nat.id by lia. change 256 with (2 ^ 8). rewrite <- Z.pow_mul_r by lia. done. }
      rewrite Hpow in Hu.
      destruct (to_signed_spec (8 * n) (le_unsigned g) ltac:(lia) Hu) as [Hr _]. lia. }
  destruct Hs as [Hw | [Hw | Hw]]; rewrite Hw in *; cbn [Z.eqb Pos.eqb].
  - assert (Hb : Forall (fun z => -128 <= z <= 127)
                   (map (fun x => byte_val x - 128) (readframes w))).
    { apply Forall_fmap, Forall_forall. intros b _. simpl.
      pose proof (byte_val_range b). lia. }
    split; [|done]. eapply Forall_impl; [exact Hb|]. simpl. intros; lia.
  - split; [|discriminate]. apply (Hwide 2 16); done.
  - split; [|discriminate]. apply (Hwide 4 32); done.
Qed.

Lemma read_wav_file_unsupported (w : wav_file) :
  ~ supported (getsampwidth w) ->
  read_wav_file w = Raise (ReadError (UnsupportedSampleWidth (getsampwidth w))).
Proof.
  intros Hs. unfold read_wav_file, read_wav_body. cbn zeta.
  destruct (Z.eqb_spec (getsampwidth w) 1) as [H1|_]; [destruct Hs; by left|].
  destruct (Z.eqb_spec (getsampwidth w) 2) as [H2|_]; [destruct Hs; right; by left|].
  destruct (Z.eqb_spec (getsampwidth w) 4) as [H4|_]; [destruct Hs; right; by right|].
  reflexivity.
Qed.

(** Every row of a matrix has as many cells as the matrix has columns. *)
Definition well_shaped {A} (b : block A) : Prop :=
  match b with
  | Vec _ => True
  | Mat n rows => Forall (fun r => length r = n) rows
  end.

Lemma shaped_flat (w : wav_file) :
  (1 < getnchannels w -> (length (decoded w) mod Z.to_nat (getnchannels w) = 0)%nat) ->
  block_flat (shaped w) = decoded w /\ well_shaped (shaped w).
Proof.
  intros Hc. unfold shaped. destruct (Z.ltb_spec 1 (getnchannels w)) as [H|H]; [|done].
  specialize (Hc H). apply Nat.Div0.div_exact in Hc.
  cbn [block_flat well_shaped]. split.
  - apply groups_concat. lia.
  - apply groups_Forall_length. lia.
Qed.

(** What a successful read has found. *)
Lemma read_wav_file_Ok_inv (w : wav_file) sr arr info :
  read_wav_file w = Ok (sr, arr, info) ->
  supported (getsampwidth w) /\
  (length (readframes w) mod Z.to_nat (getsampwidth w) = 0)%nat /\
  (1 < getnchannels w -> (length (decoded w) mod Z.to_nat (getnchannels w) = 0)%nat) /\
  getframerate w <> 0 /\
  sr = getframerate w /\
  arr = mk_ndarray (if getsampwidth w =? 4 then int32 else int16) (Ints (shaped w)) /\
  info = info_of w.
Proof.
  intros Hok.
  assert (Hs : supported (getsampwidth w)).
  { destruct (Z.eq_dec (getsampwidth w) 1) as [?|N1]; [by left|].
    destruct (Z.eq_dec (getsampwidth w) 2) as [?|N2]; [right; by left|].
    destruct (Z.eq_dec (getsampwidth w) 4) as [?|N4]; [right; by right|].
    rewrite read_wav_file_unsupported in Hok; [discriminate|].
    intros [?|[?|?]]; done. }
  rewrite read_wav_file_cases in Hok by done. cbn zeta in Hok.
  destruct (Nat.eqb_spec (length (readframes w) mod Z.to_nat (getsampwidth w)) 0)
    as [Hb|]; [|discriminate]. cbn [negb] in Hok.
  assert (Hc : 1 < getnchannels w ->
               (length (decoded w) mod Z.to_nat (getnchannels w) = 0)%nat).
  { intros H. apply Z.ltb_lt in H. rewrite H in Hok. cbn [andb] in Hok.
    destruct (Nat.eqb_spec (length (decoded w) mod Z.to_nat (getnchannels w)) 0); [done|].
    discriminate. }
  split; [done|]. split; [done|]. split; [done|].
  destruct (1 <? getnchannels w); cbn [andb] in Hok.
  - destruct (_ =? 0)%nat; [|discriminate]. cbn [negb] in Hok.
    destruct (Z.eqb_spec (getframerate w) 0); [discriminate|].
    split; [done|]. split; [congruence|]. split; congruence.
  - destruct (Z.eqb_spec (getframerate w) 0); [discriminate|].
    split; [done|]. split; [congruence|]. split; congruence.
Qed.

(** X1.  [read_wav_file] fails, in this order, on a sample width other
    than 1, 2, 4, on a byte count that is no multiple of the width, on
    a sample count that is no multiple of the channel count (for more
    than one channel), and on a frame rate of 0; in every other case it
    returns the samples found in the bytes.  The frame count of the
    header is copied to the result and never compared with the bytes. *)
Theorem read_wav_file_outcome (w : wav_file) :
  let sw := getsampwidth w in
  let n := Z.to_nat sw in
  let c := Z.to_nat (getnchannels w) in
  let nb := length (readframes w) in
  (~ supported sw -> read_wav_file w = Raise (ReadError (UnsupportedSampleWidth sw))) /\
  (supported sw -> (nb mod n)%nat <> 0%nat ->
     read_wav_file w = Raise (ReadError (BufferSizeError sw))) /\
  (supported sw -> (nb mod n)%nat = 0%nat ->
     1 < getnchannels w -> ((nb / n) mod c)%nat <> 0%nat ->
     read_wav_file w = Raise (ReadError (ReshapeError (nb / n) (getnchannels w)))) /\
  (supported sw -> (nb mod n)%nat = 0%nat ->
     (1 < getnchannels w -> ((nb / n) mod c)%nat = 0%nat) ->
     getframerate w = 0 ->
     read_wav_file w = Raise (ReadError ZeroDivisionError)) /\
  (supported sw -> (nb mod n)%nat = 0%nat ->
     (1 < getnchannels w -> ((nb / n) mod c)%nat = 0%nat) ->
     getframerate w <> 0 ->
     exists arr info,
       read_wav_file w = Ok (getframerate w, arr, info) /\
       shape0 arr = (if 1 <? getnchannels w then (nb / n / c)%nat else (nb / n)%nat) /\
       n_frames info = getnframes w).
Proof.
  cbn zeta. split; [apply read_wav_file_unsupported|].
  split; [|split; [|split]].
  - intros Hs Hb. rewrite read_wav_file_cases by done. cbn zeta.
    apply Nat.eqb_neq in Hb. by rewrite Hb.
  - intros Hs Hb Hc Hr. rewrite read_wav_file_cases by done. cbn zeta.
    apply Nat.eqb_eq in Hb. rewrite Hb. cbn [negb].
    rewrite decoded_length by done. apply Z.ltb_lt in Hc. rewrite Hc.
    apply Nat.eqb_neq in Hr. by rewrite Hr.
  - intros Hs Hb Hc Hf. rewrite read_wav_file_cases by done. cbn zeta.
    apply Nat.eqb_eq in Hb. rewrite Hb. cbn [negb].
    rewrite decoded_length by done.
    destruct (Z.ltb_spec 1 (getnchannels w)) as [H|H]; cbn [andb].
    + specialize (Hc H). apply Nat.eqb_eq in Hc. rewrite Hc. cbn [negb]. by rewrite Hf.
    + by rewrite Hf.
  - intros Hs Hb Hc Hf. rewrite read_wav_file_cases by done. cbn zeta.
    apply Nat.eqb_eq in Hb. rewrite Hb. cbn [negb].
    assert (Hfr : (getframerate w =? 0) = false) by (by apply Z.eqb_neq).
    pose proof (decoded_length w Hs) as Hlen. unfold shaped.
    destruct (Z.ltb_spec 1 (getnchannels w)) as [H|H]; cbn [andb].
    + specialize (Hc H). rewrite Hlen. apply Nat.eqb_eq in Hc. rewrite Hc. cbn [negb].
      rewrite Hfr. eexists _, _. split; [reflexivity|].
      unfold shape0. cbn [el block_shape0 info_of n_frames]. by rewrite groups_length.
    + rewrite Hfr. eexists _, _. split; [reflexivity|].
      unfold shape0. cbn [el block_shape0 info_of n_frames]. done.
Qed.

(** A header that announces 8000 frames over two samples' worth of bytes. *)
Definition wav_truncated : wav_file := mk_wav_file 1 2 8000 8000 [x01; x00; xff; xff].

Lemma read_wav_file_outcome_witness :
  exists arr info,
    read_wav_file wav_truncated = Ok (8000, arr, info) /\
    shape0 arr = 2%nat /\ n_frames info = 8000.
Proof.
  destruct (read_wav_file_outcome wav_truncated) as (_ & _ & _ & _ & H).
  apply H.
  - right; left; reflexivity.
  - reflexivity.
  - cbn. lia.
  - cbn. lia.
Defined.

(** X2.  Whatever [read_wav_file] returns is a well-typed integer array
    ([int32] for 4-byte samples, [int16] otherwise) with the frame rate
    of the header: a vector for one channel, a matrix with one column
    per channel and complete rows for more. *)
Theorem read_wav_file_well_typed (w : wav_file) sr arr info :
  read_wav_file w = Ok (sr, arr, info) ->
  sr = getframerate w /\ sr <> 0 /\
  dt arr = (if getsampwidth w =? 4 then int32 else int16) /\
  well_typed arr /\
  (exists b, el arr = Ints b /\ well_shaped b) /\
  ndim arr = (if 1 <? getnchannels w then 2%nat else 1%nat) /\
  (1 < getnchannels w -> Z.of_nat (shape1 arr) = getnchannels w).
Proof.
  intros Hok.
  destruct (read_wav_file_Ok_inv w sr arr info Hok) as (Hs & Hb & Hc & Hfr & -> & -> & _).
  destruct (shaped_flat w Hc) as [Hflat Hshape].
  destruct (decoded_range w Hs Hb) as [Hrange _].
  split; [done|]. split; [done|]. split; [done|]. split.
  { unfold well_typed. cbn [el dt]. rewrite Hflat. split; [by destruct (_ =? 4)|done]. }
  split; [by exists (shaped w)|].
  unfold ndim, shape1, shaped. cbn [el].
  destruct (Z.ltb_spec 1 (getnchannels w)); cbn [block_ndim]; split; (done || lia).
Qed.

Lemma read_wav_file_well_typed_witness :
  well_typed (mk_ndarray int16 (Ints (Vec [1; -1]))).
Proof.
  destruct (read_wav_file_well_typed wav_truncated 8000
              (mk_ndarray int16 (Ints (Vec [1; -1])))
              (mk_wav_info 1 2 8000 8000 (8000 # 8000)) eq_refl) as (_ & _ & _ & H & _).
  exact H.
Defined.

(** X3.  A recording with 1-byte samples is decoded into [int16], so
    [normalize_audio] divides it by 32768: the normalised samples lie
    between -1/256 and 127/32768, and never reach the ends of [-1,1]. *)
Theorem normalize_audio_8bit (w : wav_file) sr arr info :
  getsampwidth w = 1 ->
  read_wav_file w = Ok (sr, arr, info) ->
  exists out,
    normalize_audio arr = mk_ndarray float32 (Floats out) /\
    Forall (fun q => (- (1 # 256) <= q)%Q /\ (q <= 127 # 32768)%Q) (block_flat out).
Proof.
  intros Hw Hok.
  destruct (read_wav_file_Ok_inv w sr arr info Hok) as (Hs & Hb & Hc & _ & _ & -> & _).
  rewrite Hw. cbn [Z.eqb Pos.eqb].
  destruct (shaped_flat w Hc) as [Hflat _].
  destruct (decoded_range w Hs Hb) as [_ Hrange]. specialize (Hrange Hw).
  unfold normalize_audio. cbn [dt el is_floating is_integer as_float].
  eexists. split; [reflexivity|].
  rewrite !block_flat_map, Hflat. apply Forall_fmap, Forall_fmap.
  eapply Forall_impl; [exact Hrange|]. intros z Hz. cbn beta in Hz |- *.
  unfold compose. change (denom int16) with (32768 # 1)%Q.
  unfold Qdiv, Qle, Qmult, Qinv, Qopp, inject_Z. cbn. lia.
Qed.

Lemma normalize_audio_8bit_witness :
  exists out,
    normalize_audio (mk_ndarray int16 (Ints (Vec [-128; 0; 127])))
    = mk_ndarray float32 (Floats out) /\
    Forall (fun q => (- (1 # 256) <= q)%Q /\ (q <= 127 # 32768)%Q) (block_flat out).
Proof.
  apply (normalize_audio_8bit wav_8bit 8000 _
           (mk_wav_info 1 1 8000 3 (3 # 8000))); reflexivity.
Defined.

End Wav2CsvDecoder.

(** * Further properties of tools/wav2csv.py: normalising, mixing, writing *)

Section Wav2CsvPipeline.
Import Wav2Csv.

(** ** The cell format, continued *)

Lemma pow10_pos (e : Z) : (0 < pow10 e)%Q.
Proof.
  unfold pow10. destruct (Z.leb_spec 0 e).
  - unfold Qlt; simpl. pose proof (Z.pow_pos_nonneg 10 e). lia.
  - apply Qinv_lt_0_compat. unfold Qlt; simpl. pose proof (Z.pow_pos_nonneg 10 (- e)). lia.
Qed.

Lemma pow10_nonpos (e : Z) : e <= 0 -> (pow10 e * inject_Z (10 ^ (- e)) == 1)%Q.
Proof.
  intros He. unfold pow10. destruct (Z.leb_spec 0 e).
  - assert (e = 0) as -> by lia. reflexivity.
  - rewrite Qmult_comm. apply Qmult_inv_r. unfold Qeq; simpl. pose proof (Z.pow_pos_nonneg 10 (- e)). lia.
Qed.

Lemma pow10_ge_10 (e : Z) : 1 <= e -> (10 <= pow10 e)%Q.
Proof.
  intros He. unfold pow10. destruct (Z.leb_spec 0 e); [|lia].
  change 10%Q with (inject_Z (10 ^ 1)). rewrite <- Zle_Qle.
  apply Z.pow_le_mono_r; lia.
Qed.

Lemma fmt_7g_opp (x : Q) : (fmt_7g (- x) == - fmt_7g x)%Q.
Proof.
  unfold fmt_7g, round_sig. destruct x as [[|n|n] d]; cbn [Qopp Qnum Qden Z.opp].
  - reflexivity.
  - reflexivity.
  - symmetry. apply Qopp_involutive.
Qed.

Lemma fmt_7g_rel_err_pos (x : Q) :
  (0 < x)%Q -> (Qabs (fmt_7g x - x) <= x * (1 # 2000000))%Q.
Proof.
  intros Hx. destruct (fmt_7g_spec x Hx) as (m & e & x' & Hv & Hlo & Hhi & Hm & ->).
  pose proof (pow10_pos e) as HP. set (P := pow10 e) in *.
  change (pow10 6) with (1000000 # 1)%Q in Hlo.
  apply Qabs_Qle_condition in Hm as [Hm1 Hm2].
  apply Qabs_Qle_condition. split; nra.
Qed.


Lemma fmt_7g_scale (x : Q) :
  (0 < x)%Q ->
  exists (m e : Z) (x' : Q),
    (x' * pow10 e == x)%Q /\ (1000000 <= x')%Q /\
    (inject_Z m - x' <= 1 # 2)%Q /\ (x' - inject_Z m <= 1 # 2)%Q /\
    fmt_7g x = (inject_Z m * pow10 e)%Q.
Proof.
  intros Hx. destruct (fmt_7g_spec x Hx) as (m & e & x' & Hv & Hlo & _ & Hm & Heq).
  exists m, e, x'. change (pow10 6) with (1000000 # 1)%Q in Hlo.
  apply Qabs_Qle_condition in Hm as [Hm1 Hm2].
  repeat split; (done || lra).
Qed.

Lemma fmt_7g_le_int (x : Q) (z : Z) :
  (0 < x)%Q -> (x <= inject_Z z)%Q -> z < 10 ^ 7 -> (fmt_7g x <= inject_Z z)%Q.
Proof.
  intros Hx Hz Hz7. destruct (fmt_7g_scale x Hx) as (m & e & x' & Hv & Hlo & Hm1 & Hm2 & ->).
  assert (Hzq : (inject_Z z < 10000000)%Q).
  { change 10000000%Q with (inject_Z (10 ^ 7)). by rewrite <- Zlt_Qlt. }
  pose proof (pow10_pos e) as HP.
  destruct (Z.le_gt_cases e 0) as [He|He].
  - pose proof (pow10_nonpos e He) as HK.
    assert (HKpos : 0 < 10 ^ (- e)) by (apply Z.pow_pos_nonneg; lia).
    set (K := 10 ^ (- e)) in *. set (P := pow10 e) in *.
    assert (HKq : (0 < inject_Z K)%Q) by (unfold Qlt; simpl; lia).
    assert (Hx' : (x' == x * inject_Z K)%Q).
    { rewrite <- Hv. rewrite <- Qmult_assoc, HK. ring. }
    assert (Hm : (inject_Z m <= inject_Z (z * K) + (1 # 2))%Q).
    { rewrite inject_Z_mult. nra. }
    assert (HmZ : m <= z * K).
    { unfold Qle, Qplus, inject_Z in Hm. simpl in Hm. lia. }
    rewrite Zle_Qle in HmZ. rewrite inject_Z_mult in HmZ.
    assert (Hgoal : (inject_Z m * P <= inject_Z z * (P * inject_Z K))%Q) by nra.
    rewrite HK in Hgoal. lra.
  - pose proof (pow10_ge_10 e ltac:(lia)) as H10. set (P := pow10 e) in *. nra.
Qed.

Lemma fmt_7g_ge_int (x : Q) (z : Z) :
  (0 < x)%Q -> (inject_Z z <= x)%Q -> z < 10 ^ 7 -> (inject_Z z <= fmt_7g x)%Q.
Proof.
  intros Hx Hz Hz7. destruct (fmt_7g_scale x Hx) as (m & e & x' & Hv & Hlo & Hm1 & Hm2 & ->).
  assert (Hzq : (inject_Z z < 10000000)%Q).
  { change 10000000%Q with (inject_Z (10 ^ 7)). by rewrite <- Zlt_Qlt. }
  pose proof (pow10_pos e) as HP.
  destruct (Z.le_gt_cases e 0) as [He|He].
  - pose proof (pow10_nonpos e He) as HK.
    assert (HKpos : 0 < 10 ^ (- e)) by (apply Z.pow_pos_nonneg; lia).
    set (K := 10 ^ (- e)) in *. set (P := pow10 e) in *.
    assert (HKq : (0 < inject_Z K)%Q) by (unfold Qlt; simpl; lia).
    assert (Hx' : (x' == x * inject_Z K)%Q).
    { rewrite <- Hv. rewrite <- Qmult_assoc, HK. ring. }
    assert (Hm : (inject_Z (z * K) <= inject_Z m + (1 # 2))%Q).
    { rewrite inject_Z_mult. nra. }
    assert (HmZ : z * K <= m).
    { unfold Qle, Qplus, inject_Z in Hm. simpl in Hm. lia. }
    rewrite Zle_Qle in HmZ. rewrite inject_Z_mult in HmZ.
    assert (Hgoal : (inject_Z z * (P * inject_Z K) <= inject_Z m * P)%Q) by nra.
    rewrite HK in Hgoal. lra.
  - pose proof (pow10_ge_10 e ltac:(lia)) as H10. set (P := pow10 e) in *.
    assert (Hm : (inject_Z 1000000 <= inject_Z m + (1 # 2))%Q).
    { change (inject_Z 1000000) with 1000000%Q. lra. }
    assert (HmZ : 1000000 <= m).
    { unfold Qle, Qplus, inject_Z in Hm. simpl in Hm. lia. }
    rewrite Zle_Qle in HmZ. change (inject_Z 1000000) with 1000000%Q in HmZ. nra.
Qed.

(** An integer of at most 7 digits is printed as it is. *)
Lemma fmt_7g_int (z : Z) :
  Z.abs z < 10 ^ 7 -> (fmt_7g (inject_Z z) == inject_Z z)%Q.
Proof.
  intros Hz. destruct z as [|n|n].
  - reflexivity.
  - assert (Hpos : (0 < inject_Z (Z.pos n))%Q) by (unfold Qlt; simpl; lia).
    apply Qle_antisym.
    + apply fmt_7g_le_int; [done|apply Qle_refl|lia].
    + apply fmt_7g_ge_int; [done|apply Qle_refl|lia].
  - change (inject_Z (Z.neg n)) with (- inject_Z (Z.pos n))%Q.
    rewrite fmt_7g_opp. apply Qopp_comp.
    assert (Hpos : (0 < inject_Z (Z.pos n))%Q) by (unfold Qlt; simpl; lia).
    apply Qle_antisym.
    + apply fmt_7g_le_int; [done|apply Qle_refl|lia].
    + apply fmt_7g_ge_int; [done|apply Qle_refl|lia].
Qed.

Lemma fmt_7g_abs_le (x : Q) (z : Z) :
  0 <= z < 10 ^ 7 -> (Qabs x <= inject_Z z)%Q -> (Qabs (fmt_7g x) <= inject_Z z)%Q.
Proof.
  intros Hz Hx. apply Qabs_Qle_condition in Hx as [Hx1 Hx2].
  assert (Hz0 : (0 <= inject_Z z)%Q) by (change 0%Q with (inject_Z 0); rewrite <- Zle_Qle; lia).
  destruct x as [[|n|n] d].
  - unfold fmt_7g, round_sig. cbn [Qnum]. simpl. done.
  - assert (Hpos : (0 < Z.pos n # d)%Q) by (unfold Qlt; simpl; lia).
    apply Qabs_Qle_condition. split.
    + pose proof (fmt_7g_ge_int (Z.pos n # d) 0 Hpos ltac:(by apply Qlt_le_weak) ltac:(lia)).
      change (inject_Z 0) with 0%Q in H. lra.
    + apply fmt_7g_le_int; [done|done|lia].
  - change (Z.neg n # d) with (- (Z.pos n # d))%Q in *.
    rewrite fmt_7g_opp, Qabs_opp.
    assert (Hpos : (0 < Z.pos n # d)%Q) by (unfold Qlt; simpl; lia).
    apply Qabs_Qle_condition. split.
    + pose proof (fmt_7g_ge_int (Z.pos n # d) 0 Hpos ltac:(by apply Qlt_le_weak) ltac:(lia)).
      change (inject_Z 0) with 0%Q in H. lra.
    + apply fmt_7g_le_int; [done| |lia]. lra.
Qed.

Lemma fmt_7g_rel_err (x : Q) :
  (Qabs (fmt_7g x - x) <= Qabs x * (1 # 2000000))%Q.
Proof.
  destruct x as [[|n|n] d].
  - unfold fmt_7g, round_sig. cbn [Qnum]. vm_compute. discriminate.
  - assert (Hpos : (0 < Z.pos n # d)%Q) by (unfold Qlt; simpl; lia).
    rewrite (Qabs_pos (Z.pos n # d)) by (by apply Qlt_le_weak).
    by apply fmt_7g_rel_err_pos.
  - change (Z.neg n # d) with (- (Z.pos n # d))%Q.
    assert (Hpos : (0 < Z.pos n # d)%Q) by (unfold Qlt; simpl; lia).
    rewrite Qabs_opp, (Qabs_pos (Z.pos n # d)) by (by apply Qlt_le_weak).
    assert (Heq : (fmt_7g (- (Z.pos n # d)) - - (Z.pos n # d)
                   == - (fmt_7g (Z.pos n # d) - (Z.pos n # d)))%Q).
    { rewrite fmt_7g_opp. ring. }
    rewrite Heq, Qabs_opp. by apply fmt_7g_rel_err_pos.
Qed.


(** Equality of float blocks, cell by cell, as numbers. *)
Definition block_Qeq (a b : block Q) : Prop :=
  match a, b with
  | Vec xs, Vec ys => Forall2 Qeq xs ys
  | Mat n rs, Mat n' rs' => n = n' /\ Forall2 (Forall2 Qeq) rs rs'
  | _, _ => False
  end.

Lemma block_map_id (b : block Q) : block_map (fun q => q) b = b.
Proof.
  destruct b as [xs|n rs]; simpl; f_equal.
  - apply map_id.
  - induction rs as [|r rs IH]; simpl; [done|]. by rewrite map_id, IH.
Qed.

Lemma block_Qeq_map (g : Q -> Q) (b : block Q) :
  Forall (fun q => (g q == q)%Q) (block_flat b) -> block_Qeq (block_map g b) b.
Proof.
  destruct b as [xs|n rs]; simpl; intros H.
  - apply Forall2_fmap_l, Forall_Forall2_diag. exact H.
  - split; [done|]. apply Forall_concat in H.
    apply Forall2_fmap_l, Forall_Forall2_diag.
    eapply Forall_impl; [exact H|]. intros r Hr. simpl.
    apply Forall2_fmap_l, Forall_Forall2_diag. exact Hr.
Qed.

Lemma well_shaped_map {A B} (f : A -> B) (b : block A) :
  well_shaped b -> well_shaped (block_map f b).
Proof.
  destruct b as [xs|n rs]; simpl; [done|]. intros H.
  apply Forall_fmap. eapply Forall_impl; [exact H|]. intros r Hr. simpl.
  by rewrite length_map.
Qed.

Lemma clip_within (q : Q) : (Qabs q <= 1)%Q -> (clip (-1) 1 q == q)%Q.
Proof.
  intros Hq. apply Qabs_Qle_condition in Hq as [Hlo Hhi]. unfold clip.
  destruct (Qle_bool q (-1)) eqn:H1.
  - apply Qle_bool_iff in H1. apply Qle_antisym; [exact Hlo|exact H1].
  - destruct (Qle_bool 1 q) eqn:H2; [|reflexivity].
    apply Qle_bool_iff in H2. by apply Qle_antisym.
Qed.

(** [normalize_audio] works cell by cell and keeps the shape. *)
Lemma normalize_audio_cells (arr : ndarray) :
  exists f : Q -> Q,
    normalize_audio arr = mk_ndarray float32 (Floats (block_map f (as_float (el arr)))) /\
    (well_typed arr ->
     Forall (fun q => (Qabs (f q) <= 1)%Q) (block_flat (as_float (el arr)))).
Proof.
  destruct arr as [d e]. unfold normalize_audio, well_typed. cbn [dt el].
  destruct (is_floating d) eqn:Hfl.
  - exists (clip (-1) 1). split; [done|]. intros _.
    apply Forall_forall. intros q _. apply Qabs_clip_le_1.
  - destruct (is_integer d) eqn:Hint.
    + exists (fun x => x / denom d)%Q. split; [done|].
      destruct e as [b|b|b]; [|congruence|intros ->; done].
      intros [_ Hrange]. cbn [as_float]. rewrite block_flat_map. apply Forall_fmap.
      eapply Forall_impl; [exact Hrange|]. intros z Hz. simpl. unfold denom.
      apply Qabs_div_le_1; [by apply denom_pos|by apply iinfo_within_denom].
    + exists (fun q => q). split; [by rewrite block_map_id|].
      destruct e as [b|b|b]; [intros [? _]; congruence|congruence|].
      intros _. cbn [as_float]. rewrite block_flat_map. apply Forall_fmap, Forall_forall.
      intros [|] _; done.
Qed.

(** X4.  Normalising twice is normalising once: the second pass finds
    float32 values within [-1,1] and leaves every one of them as it is. *)
Theorem normalize_audio_idempotent (arr : ndarray) :
  well_typed arr ->
  exists out out',
    normalize_audio arr = mk_ndarray float32 (Floats out) /\
    normalize_audio (normalize_audio arr) = mk_ndarray float32 (Floats out') /\
    block_Qeq out' out.
Proof.
  intros Hwt. destruct (normalize_audio_cells arr) as (f & Hn & Hb). specialize (Hb Hwt).
  eexists _, _. split; [exact Hn|]. rewrite Hn. split; [reflexivity|].
  cbn [as_float]. apply block_Qeq_map. rewrite block_flat_map. apply Forall_fmap.
  eapply Forall_impl; [exact Hb|]. intros q Hq. simpl. by apply clip_within.
Qed.

Lemma normalize_audio_idempotent_witness :
  exists out out',
    normalize_audio int16_extremes = mk_ndarray float32 (Floats out) /\
    normalize_audio (normalize_audio int16_extremes) = mk_ndarray float32 (Floats out') /\
    block_Qeq out' out.
Proof.
  apply normalize_audio_idempotent.
  unfold well_typed, int16_extremes; simpl. split; [done|].
  repeat constructor; simpl; lia.
Defined.

(** ** Mixing *)

Lemma Qsum_within (lo hi : Q) (row : list Q) :
  Forall (fun q => (lo <= q <= hi)%Q) row ->
  (inject_Z (Z.of_nat (length row)) * lo <= Qsum row
   <= inject_Z (Z.of_nat (length row)) * hi)%Q.
Proof.
  induction 1 as [|q row [Hq1 Hq2] _ [IH1 IH2]].
  - cbn [length Qsum fold_right]. change (inject_Z (Z.of_nat 0)) with 0%Q. split; lra.
  - cbn [length Qsum fold_right]. fold (Qsum row).
    rewrite Nat2Z.inj_succ. unfold Z.succ. rewrite inject_Z_plus.
    change (inject_Z 1) with 1%Q. split; lra.
Qed.

Lemma mean_within (lo hi : Q) (n : nat) (row : list Q) :
  (0 < n)%nat -> length row = n ->
  Forall (fun q => (lo <= q <= hi)%Q) row ->
  (lo <= Qsum row / inject_Z (Z.of_nat n) <= hi)%Q.
Proof.
  intros Hn Hlen Hrow. destruct (Qsum_within lo hi row Hrow) as [H1 H2].
  rewrite Hlen in H1, H2.
  assert (Hnq : (0 < inject_Z (Z.of_nat n))%Q) by (unfold Qlt; simpl; lia).
  split.
  - apply Qle_shift_div_l; [done|]. lra.
  - apply Qle_shift_div_r; [done|]. lra.
Qed.

(** The precision in which [mix_to_mono] averages an array. *)
Definition mean_prec (x : ndarray) : Z :=
  prec (if is_floating (dt x) then dt x else float64).

(** What [mix_to_mono] leaves: a vector of the same length, between
    the integers that bound the input. *)
Lemma mix_to_mono_cells (x : ndarray) (lo hi : Z) :
  well_shaped (as_float (el x)) ->
  (forall n rows, as_float (el x) = Mat n rows ->
     (0 < n)%nat /\ Z.of_nat n * Z.max (Z.abs lo) (Z.abs hi) <= 2 ^ mean_prec x) ->
  Forall (fun q => (inject_Z lo <= q <= inject_Z hi)%Q) (block_flat (as_float (el x))) ->
  exists ys,
    as_float (el (mix_to_mono x)) = Vec ys /\
    length ys = shape0 x /\
    Forall (fun q => (inject_Z lo <= q <= inject_Z hi)%Q) ys.
Proof.
  intros Hshape Hn Hb. rewrite shape0_as_float. unfold mix_to_mono.
  destruct (as_float (el x)) as [xs|n rows] eqn:Hx.
  - exists xs. by rewrite Hx.
  - destruct (Hn n rows eq_refl) as [Hpos Hnm]. unfold mean_prec in Hnm.
    unfold mean_axis1. cbn [el as_float block_shape0].
    set (d := if is_floating (dt x) then dt x else float64) in *.
    assert (Hd : is_floating d = true).
    { unfold d. destruct (is_floating (dt x)) eqn:E; done. }
    eexists. split; [reflexivity|]. split; [by rewrite length_map|].
    cbn [block_flat well_shaped] in *. apply Forall_concat in Hb.
    apply Forall_fmap, Forall_forall. intros row Hrow. simpl.
    rewrite Forall_forall in Hshape, Hb.
    apply mean_row_between; [done|done|by apply Hshape|done|by apply Hb].
Qed.

(** X5.  The mono mix is one-dimensional and has one value per frame.
    Rounding never takes a mean past an integer bound of the samples:
    samples between the integers [lo] and [hi] mix to values between
    [lo] and [hi], as long as [n * max(|lo|, |hi|)] is at most [2^53]
    ([2^24] when the array is [float32]) for the [n] channels.  Mixing
    the result again changes nothing. *)
Theorem mix_to_mono_within (x : ndarray) (lo hi : Z) :
  well_shaped (as_float (el x)) ->
  (forall n rows, as_float (el x) = Mat n rows ->
     (0 < n)%nat /\ Z.of_nat n * Z.max (Z.abs lo) (Z.abs hi) <= 2 ^ mean_prec x) ->
  Forall (fun q => (inject_Z lo <= q <= inject_Z hi)%Q) (block_flat (as_float (el x))) ->
  ndim (mix_to_mono x) = 1%nat /\
  shape0 (mix_to_mono x) = shape0 x /\
  Forall (fun q => (inject_Z lo <= q <= inject_Z hi)%Q)
         (block_flat (as_float (el (mix_to_mono x)))) /\
  mix_to_mono (mix_to_mono x) = mix_to_mono x.
Proof.
  intros Hshape Hn Hb.
  destruct (mix_to_mono_cells x lo hi Hshape Hn Hb) as (ys & Hys & Hlen & Hin).
  rewrite ndim_as_float, (shape0_as_float (mix_to_mono x)), Hys.
  split; [done|]. split; [done|]. split; [done|].
  unfold mix_to_mono at 1. by rewrite Hys.
Qed.

Lemma mix_to_mono_within_witness :
  Forall (fun q => (inject_Z (-1) <= q <= inject_Z 1)%Q)
         (block_flat (as_float (el (mix_to_mono
            (mk_ndarray float32 (Floats (Mat 2 [[-1; 1]; [1 # 2; 1]]%Q))))))).
Proof.
  apply (mix_to_mono_within (mk_ndarray float32 (Floats (Mat 2 [[-1; 1]; [1 # 2; 1]]%Q)))).
  - repeat constructor.
  - intros n rows [= <- _]. split; [lia|]. vm_compute. discriminate.
  - cbn [el as_float block_flat concat app].
    repeat (constructor; [split; unfold Qle; simpl; lia|]). constructor.
Defined.

(** ** The written table *)

Lemma zip_with_Forall {A B C} (f : A -> B -> C) (P : B -> Prop) (R : C -> Prop)
    (t : list A) (k : list B) :
  (forall x y, P y -> R (f x y)) -> Forall P k -> Forall R (zip_with f t k).
Proof.
  intros Hf Hk. revert t. induction Hk as [|y k Hy _ IH]; intros [|x t]; simpl; try done.
  constructor; [by apply Hf|apply IH].
Qed.

Lemma zip_with_Forall2 {A B C D} (f : A -> B -> C) (R : C -> D -> Prop)
    (t : list A) (k : list B) (o : list D) :
  length t = length k ->
  Forall2 (fun y d => forall x, R (f x y) d) k o -> Forall2 R (zip_with f t k) o.
Proof.
  intros Hlen Hk. revert t Hlen.
  induction Hk as [|y d k o Hy _ IH]; intros [|x t] Hlen; simpl in *; try done.
  constructor; [apply Hy|apply IH; lia].
Qed.

(** The cells of a row after its time cell hold the frame's samples. *)
Lemma column_stack_tail_cells (P : Q -> Prop) (t : list Q) (x : block Q) :
  Forall P (block_flat x) -> Forall (fun row => Forall P (tail row)) (column_stack t x).
Proof.
  destruct x as [xs|n rs]; simpl; intros H.
  - apply (zip_with_Forall _ P); [|done]. intros ti xi Hxi. simpl. by constructor.
  - apply Forall_concat in H. apply (zip_with_Forall _ (Forall P)); [|done]. by intros.
Qed.

Lemma shape1_as_float (x : ndarray) :
  shape1 x = match as_float (el x) with Mat n _ => n | Vec _ => 0%nat end.
Proof. unfold shape1. destruct (el x) as [[|]|[|]|[|]]; done. Qed.

(** The array [write_csv_minimal] serialises, seen as numbers. *)
Lemma processed_cells (data : ndarray) (normalize mix_mono : bool) :
  well_shaped (as_float (el data)) ->
  well_shaped (as_float (el (processed data normalize mix_mono))) /\
  (mix_mono = true -> ndim (processed data normalize mix_mono) = 1%nat) /\
  (mix_mono = false ->
   ndim (processed data normalize mix_mono) = ndim data /\
   shape1 (processed data normalize mix_mono) = shape1 data) /\
  (normalize = true -> dt (processed data normalize mix_mono) = float32) /\
  (normalize = false -> mix_mono = false -> processed data normalize mix_mono = data).
Proof.
  intros Hshape. unfold processed.
  set (x := if normalize then normalize_audio data else data).
  assert (Hx : well_shaped (as_float (el x)) /\ ndim x = ndim data /\ shape1 x = shape1 data /\
               (normalize = true -> dt x = float32)).
  { unfold x. destruct normalize; [|done].
    destruct (normalize_audio_cells data) as (f & -> & _). cbn [el as_float dt].
    split; [by apply well_shaped_map|].
    rewrite !ndim_as_float, !shape1_as_float. cbn [el as_float].
    by destruct (as_float (el data)). }
  destruct Hx as (Hxs & Hxn & Hx1 & Hxd).
  destruct mix_mono.
  - unfold mix_to_mono. rewrite ndim_as_float.
    destruct (as_float (el x)) as [xs|n rs] eqn:Hb.
    + rewrite Hb. repeat split; try done. 
    + unfold mean_axis1. cbn [el as_float dt]. repeat split; try done.
      intros Hn. by rewrite (Hxd Hn).
  - repeat split; try done. intros ->. done.
Qed.

(** X6.  Every row of the written table has one time cell and one cell
    per channel, with the channel count of the descriptor: 1 for a
    mono mix or a one-dimensional input, the input's column count
    otherwise.  The descriptor's dtype is float32 whenever the data
    were normalised, and the input's when no option is given. *)
Theorem write_csv_minimal_table abspath argv1 data sr output_path normalize mix_mono :
  sr <> 0 ->
  well_shaped (as_float (el data)) ->
  exists csv m,
    write_csv_minimal abspath argv1 data sr output_path normalize mix_mono = Ok (csv, m) /\
    Forall (fun row => Z.of_nat (length row) = 1 + channels m) (rows csv) /\
    (mix_mono = true -> channels m = 1) /\
    (mix_mono = false ->
     channels m = if (ndim data =? 1)%nat then 1 else Z.of_nat (shape1 data)) /\
    (normalize = true -> dtype_str m = "float32") /\
    (normalize = false -> mix_mono = false -> dtype_str m = dtype_name (dt data)).
Proof.
  intros Hsr Hshape. unfold write_csv_minimal. fold (processed data normalize mix_mono).
  destruct (processed_cells data normalize mix_mono Hshape) as (Hps & Hmono & Hkeep & Hdt & Hid).
  set (x := processed data normalize mix_mono) in *.
  assert (Hz : (sr =? 0) = false) by (by apply Z.eqb_neq). rewrite Hz.
  eexists _, _. split; [reflexivity|]. cbn [rows channels dtype_str].
  split; [|split; [|split; [|split]]].
  - apply Forall_fmap. rewrite ndim_as_float, shape1_as_float, to_float64_cells.
    destruct (as_float (el x)) as [xs|n rs]; cbn [block_map column_stack block_ndim Nat.eqb].
    + apply (zip_with_Forall _ (fun _ => True)); [|by apply Forall_forall].
      intros ti xi _. simpl. done.
    + cbn [well_shaped] in Hps. apply (zip_with_Forall _ (fun r => length r = n)).
      * intros ti r Hr. simpl. rewrite length_map. cbn [length]. lia.
      * apply Forall_fmap. eapply Forall_impl; [exact Hps|]. intros r Hr. simpl.
        by rewrite length_map.
  - intros Hm. by rewrite (Hmono Hm).
  - intros Hm. destruct (Hkeep Hm) as [-> ->]. done.
  - intros Hn. by rewrite (Hdt Hn).
  - intros Hn Hm. by rewrite (Hid Hn Hm).
Qed.

Lemma write_csv_minimal_table_witness :
  exists csv m,
    write_csv_minimal (fun p => p) "in.wav" stereo_two_frames 8000 "out.csv" false false
      = Ok (csv, m) /\
    Forall (fun row => Z.of_nat (length row) = 1 + channels m) (rows csv) /\
    channels m = 2.
Proof.
  destruct (write_csv_minimal_table (fun p => p) "in.wav" stereo_two_frames 8000 "out.csv"
              false false) as (csv & m & H1 & H2 & _ & H3 & _).
  - lia.
  - repeat constructor.
  - exists csv, m. split; [exact H1|]. split; [exact H2|]. exact (H3 eq_refl).
Defined.

(** The rows of a block of samples. *)
Definition block_rows {A} (b : block A) : list (list A) :=
  match b with
  | Vec xs => map (fun x => [x]) xs
  | Mat _ rs => rs
  end.

(** An integer of at most 7 digits is the same number in every dtype. *)
Lemma cell_int (d : dtype) (z : Z) :
  Z.abs z < 10 ^ 7 -> (cell d (inject_Z z) == inject_Z z)%Q.
Proof.
  intros Hz. unfold cell.
  assert (Hs : (stored d (inject_Z z) == inject_Z z)%Q).
  { destruct d; cbn [stored]; try reflexivity; apply round_bin_int; lia. }
  unfold f64. rewrite (round_bin_comp _ _ _ Hs). apply round_bin_int; lia.
Qed.

(** A number that is an integer of at most 7 digits is printed as that
    integer. *)
Lemma fmt_7g_is_int (x : Q) (z : Z) :
  (x == inject_Z z)%Q -> Z.abs z < 10 ^ 7 -> (fmt_7g x == inject_Z z)%Q.
Proof.
  intros Hx Hz.
  assert (Hpos : forall (y : Q) (k : Z), (y == inject_Z k)%Q -> 0 < k < 10 ^ 7 ->
                   (fmt_7g y == inject_Z k)%Q).
  { intros y k Hy Hk.
    assert (Hy0 : (0 < y)%Q).
    { rewrite Hy. change 0%Q with (inject_Z 0). rewrite <- Zlt_Qlt. lia. }
    apply Qle_antisym.
    - apply fmt_7g_le_int; [done|by rewrite Hy; apply Qle_refl|lia].
    - apply fmt_7g_ge_int; [done|by rewrite Hy; apply Qle_refl|lia]. }
  destruct x as [[|n|n] d].
  - unfold fmt_7g, round_sig. cbn [Qnum]. rewrite <- Hx. reflexivity.
  - apply Hpos; [done|].
    assert (H0 : (0 < inject_Z z)%Q) by (rewrite <- Hx; unfold Qlt; simpl; lia).
    change 0%Q with (inject_Z 0) in H0. rewrite <- Zlt_Qlt in H0. lia.
  - change (fmt_7g (Z.neg n # d)) with (- fmt_7g (Z.pos n # d))%Q.
    assert (Hx' : (Z.pos n # d == inject_Z (- z))%Q).
    { rewrite inject_Z_opp, <- Hx. reflexivity. }
    assert (H0 : (0 < inject_Z (- z))%Q) by (rewrite <- Hx'; unfold Qlt; simpl; lia).
    change 0%Q with (inject_Z 0) in H0. rewrite <- Zlt_Qlt in H0.
    rewrite (Hpos _ (- z) Hx') by lia. rewrite inject_Z_opp. apply Qopp_involutive.
Qed.

(** X7.  Integer samples of at most 7 digits, so every sample of an
    8-bit or 16-bit recording, are written to the CSV exactly when no
    option is given: the cells after the time cell are the samples. *)
Theorem write_csv_minimal_integer_exact abspath argv1 data b sr output_path :
  el data = Ints b ->
  Forall (fun z => Z.abs z < 10 ^ 7) (block_flat b) ->
  sr <> 0 ->
  exists csv m,
    write_csv_minimal abspath argv1 data sr output_path false false = Ok (csv, m) /\
    Forall2 (fun row frame => Forall2 Qeq (tail row) (map inject_Z frame))
            (rows csv) (block_rows b).
Proof.
  intros Hel Hb Hsr. unfold write_csv_minimal.
  assert (Hz : (sr =? 0) = false) by (by apply Z.eqb_neq). rewrite Hz.
  eexists _, _. split; [reflexivity|]. cbn [rows].
  pose proof (time_array_length (shape0 data) sr) as Hlen.
  rewrite shape0_as_float in Hlen at 2. rewrite to_float64_cells. rewrite Hel in *.
  cbn [as_float] in *. rewrite block_map_map.
  apply Forall2_fmap_l.
  assert (Hcell : forall z, Z.abs z < 10 ^ 7 ->
            (fmt_7g (cell (dt data) (inject_Z z)) == inject_Z z)%Q).
  { intros z Hz'. apply fmt_7g_is_int; [by apply cell_int|done]. }
  destruct b as [xs|n rs]; cbn [block_map column_stack block_rows block_flat block_shape0] in *.
  - apply zip_with_Forall2; [by rewrite Hlen, !length_map|].
    apply Forall2_fmap, Forall_Forall2_diag.
    eapply Forall_impl; [exact Hb|]. intros z Hz' ti. simpl.
    constructor; [by apply Hcell|constructor].
  - apply zip_with_Forall2; [by rewrite Hlen, !length_map|].
    apply Forall2_fmap_l, Forall_Forall2_diag. apply Forall_concat in Hb.
    eapply Forall_impl; [exact Hb|]. intros r Hr ti. simpl.
    apply Forall2_fmap_l, Forall2_fmap, Forall_Forall2_diag.
    eapply Forall_impl; [exact Hr|]. intros z Hz'. simpl. by apply Hcell.
Qed.

Lemma write_csv_minimal_integer_exact_witness :
  exists csv m,
    write_csv_minimal (fun p => p) "in.wav" stereo_two_frames 8000 "out.csv" false false
      = Ok (csv, m) /\
    Forall2 (fun row frame => Forall2 Qeq (tail row) (map inject_Z frame))
            (rows csv) [[-32768; 32767]; [128; 1]].
Proof.
  apply (write_csv_minimal_integer_exact (fun p => p) "in.wav" stereo_two_frames
           (Mat 2 [[-32768; 32767]; [128; 1]]) 8000 "out.csv").
  - reflexivity.
  - repeat constructor; simpl; lia.
  - lia.
Defined.

(** Numbers within [-1, 1] stay there in every dtype. *)
Lemma cell_abs_le_1 (d : dtype) (q : Q) : (Qabs q <= 1)%Q -> (Qabs (cell d q) <= 1)%Q.
Proof.
  intros Hq. apply Qabs_Qle_condition in Hq.
  assert (Hs : (inject_Z (-1) <= stored d q <= inject_Z 1)%Q).
  { destruct d; cbn [stored]; try exact Hq;
      apply round_bin_between; (done || lia). }
  apply Qabs_Qle_condition. apply (round_bin_between 53 (-1) 1); (done || lia).
Qed.

(** Normalised data of at most [2^24] channels, mixed or not, stay
    within [-1, 1]. *)
Lemma processed_normalized_flat (data : ndarray) (mix_mono : bool) :
  well_typed data ->
  well_shaped (as_float (el data)) ->
  (forall n rows, as_float (el data) = Mat n rows -> 0 < Z.of_nat n <= 2 ^ 24) ->
  Forall (fun q => (Qabs q <= 1)%Q)
         (block_flat (as_float (el (processed data true mix_mono)))).
Proof.
  intros Hwt Hshape Hn. unfold processed.
  destruct (normalize_audio_cells data) as (f & Hf & Hb). specialize (Hb Hwt).
  assert (Hnorm : Forall (fun q => (Qabs q <= 1)%Q)
                         (block_flat (as_float (el (normalize_audio data))))).
  { rewrite Hf. cbn [el as_float]. rewrite block_flat_map. by apply Forall_fmap. }
  destruct mix_mono; [|done].
  destruct (mix_to_mono_cells (normalize_audio data) (-1) 1) as (ys & Hys & _ & Hin).
  - rewrite Hf. cbn [el as_float]. by apply well_shaped_map.
  - rewrite Hf. unfold mean_prec. cbn [el as_float dt is_floating prec]. intros n rows Hm.
    destruct (as_float (el data)) as [xs|n' rs] eqn:Hd; [done|].
    injection Hm as <- _. specialize (Hn n' rs eq_refl). split; lia.
  - eapply Forall_impl; [exact Hnorm|]. intros q Hq. simpl.
    by apply Qabs_Qle_condition in Hq.
  - rewrite Hys. cbn [block_flat]. eapply Forall_impl; [exact Hin|].
    intros q Hq. simpl. by apply Qabs_Qle_condition.
Qed.

(** X8.  With [normalize] set, every sample cell written to the CSV
    lies in [-1, 1], whether or not the channels are mixed: neither the
    rounded mean of up to [2^24] channels nor the rounding of the cell
    format leaves the interval. *)
Theorem write_csv_minimal_normalized_cells abspath argv1 data sr output_path mix_mono :
  well_typed data ->
  well_shaped (as_float (el data)) ->
  (forall n rows, as_float (el data) = Mat n rows -> 0 < Z.of_nat n <= 2 ^ 24) ->
  sr <> 0 ->
  exists csv m,
    write_csv_minimal abspath argv1 data sr output_path true mix_mono = Ok (csv, m) /\
    Forall (fun row => Forall (fun c => (Qabs c <= 1)%Q) (tail row)) (rows csv).
Proof.
  intros Hwt Hshape Hn Hsr. unfold write_csv_minimal.
  assert (Hz : (sr =? 0) = false) by (by apply Z.eqb_neq). rewrite Hz.
  eexists _, _. split; [reflexivity|]. cbn [rows].
  pose proof (processed_normalized_flat data mix_mono Hwt Hshape Hn) as Hx.
  unfold processed in Hx. rewrite to_float64_cells.
  set (x := if mix_mono then _ else _) in *.
  assert (Hc : Forall (fun q => (Qabs q <= 1)%Q)
                      (block_flat (block_map (cell (dt x)) (as_float (el x))))).
  { rewrite block_flat_map. apply Forall_fmap. eapply Forall_impl; [exact Hx|].
    intros q Hq. simpl. by apply cell_abs_le_1. }
  apply Forall_fmap.
  eapply Forall_impl; [apply (column_stack_tail_cells _ _ _ Hc)|].
  intros row Hrow. simpl. destruct row as [|ti row]; [constructor|]. cbn [map tail] in *.
  apply Forall_fmap. eapply Forall_impl; [exact Hrow|]. intros q Hq. simpl.
  apply (fmt_7g_abs_le q 1); [lia|exact Hq].
Qed.

Lemma write_csv_minimal_normalized_cells_witness :
  exists csv m,
    write_csv_minimal (fun p => p) "in.wav" stereo_two_frames 8000 "out.csv" true true
      = Ok (csv, m) /\
    Forall (fun row => Forall (fun c => (Qabs c <= 1)%Q) (tail row)) (rows csv).
Proof.
  apply write_csv_minimal_normalized_cells.
  - unfold well_typed, stereo_two_frames; simpl. split; [done|].
    repeat constructor; simpl; lia.
  - repeat constructor.
  - intros n rows [= <- _]. lia.
  - lia.
Defined.

(** X9.  A cell printed with ['%.7g'] differs from the value by at
    most half a unit of its 7th significant digit: the relative error
    is at most 5e-7, for positive and negative values alike, and 0 is
    printed as 0. *)
Theorem fmt_7g_relative_error (x : Q) :
  (Qabs (fmt_7g x - x) <= Qabs x * (1 # 2000000))%Q /\
  (fmt_7g (- x) == - fmt_7g x)%Q /\
  fmt_7g 0 = 0%Q.
Proof.
  split; [apply fmt_7g_rel_err|]. split; [apply fmt_7g_opp|reflexivity].
Qed.

(** ** The time column and the duration *)

Lemma f64_int (z : Z) : Z.abs z <= 2 ^ 53 -> (f64 (inject_Z z) == inject_Z z)%Q.
Proof. intros Hz. apply round_bin_int; lia. Qed.

Lemma fdiv_f64 (i sr : Z) :
  Z.abs i <= 2 ^ 53 -> Z.abs sr <= 2 ^ 53 ->
  (fdiv i sr == f64 (inject_Z i / inject_Z sr))%Q.
Proof.
  intros Hi Hsr. unfold fdiv, f64 at 1.
  apply round_bin_proper. by rewrite !f64_int.
Qed.

(** The time of a row, as printed, is the quotient to 7 significant
    digits. *)
Lemma fmt_7g_fdiv_error (i sr : Z) :
  Z.abs i <= 2 ^ 53 -> Z.abs sr <= 2 ^ 53 ->
  let x := (inject_Z i / inject_Z sr)%Q in
  (Qabs (fdiv i sr - x) <= Qabs x * 2 ^ (-53))%Q /\
  (Qabs (fmt_7g (fdiv i sr) - x) <= Qabs x * (501 # 1000000000))%Q.
Proof.
  intros Hi Hsr x.
  assert (E1 : (Qabs (fdiv i sr - x) <= Qabs x * 2 ^ (-53))%Q).
  { rewrite (fdiv_f64 i sr Hi Hsr). apply (round_bin_rel_err 53 x). lia. }
  split; [exact E1|].
  pose proof (fmt_7g_rel_err (fdiv i sr)) as E2.
  set (y := fdiv i sr) in *. set (u := (2 ^ (-53))%Q) in *.
  assert (Hu : (0 < u)%Q /\ (u <= 1 # 1000000000000)%Q).
  { unfold u. split; vm_compute; (reflexivity || discriminate). }
  pose proof (Qabs_nonneg x) as Hx0.
  assert (Hy : (Qabs y <= Qabs x + Qabs x * u)%Q).
  { assert (Ht : (y == x + (y - x))%Q) by ring.
    rewrite Ht at 1. eapply Qle_trans; [apply Qabs_triangle|]. lra. }
  assert (Ht : (fmt_7g y - x == (fmt_7g y - y) + (y - x))%Q) by ring.
  rewrite Ht. eapply Qle_trans; [apply Qabs_triangle|].
  set (X := Qabs x) in *. set (Y := Qabs y) in *.
  destruct Hu as [Hu1 Hu2]. nra.
Qed.

Lemma fdiv_exact (k sr : Z) :
  sr <> 0 -> Z.abs (k * sr) <= 2 ^ 53 -> Z.abs sr <= 2 ^ 53 ->
  (fdiv (k * sr) sr == inject_Z k)%Q.
Proof.
  intros Hsr Hk Hs.
  assert (Hk' : Z.abs k <= 2 ^ 53) by (rewrite Z.abs_mul in Hk; nia).
  rewrite fdiv_f64 by done.
  assert (E : (inject_Z (k * sr) / inject_Z sr == inject_Z k)%Q).
  { rewrite inject_Z_mult. field. unfold Qeq; simpl. lia. }
  unfold f64. rewrite (round_bin_comp _ _ _ E). by apply round_bin_int.
Qed.

(** At 8000 Hz the times of the first second are printed exactly. *)
Lemma fmt_7g_first_second (i : nat) :
  Z.of_nat i < 8000 ->
  (fmt_7g (fdiv (Z.of_nat i) 8000) == inject_Z (Z.of_nat i) / 8000)%Q.
Proof.
  intros Hi.
  assert (Hall : forallb (fun k => Qeq_bool (fmt_7g (fdiv (Z.of_nat k) 8000))
                                            (inject_Z (Z.of_nat k) / 8000))
                         (seq 0 (Z.to_nat 8000)) = true) by (vm_compute; reflexivity).
  rewrite forallb_forall in Hall. apply Qeq_bool_iff, Hall.
  apply in_seq. lia.
Qed.

Example fmt_7g_fdiv_values :
  (fmt_7g (fdiv 1 44100) == 2267574 # 100000000000)%Q /\
  (fmt_7g (fdiv 16001 16000) == 1000063 # 1000000)%Q /\
  (fmt_7g (fdiv 80001 8000) == 1000013 # 100000)%Q /\
  (fdiv 1 3 == 6004799503160661 # 18014398509481984)%Q.
Proof. repeat split; vm_compute; reflexivity. Qed.



End Wav2CsvPipeline.

(** * Properties of the command line of tools/wav2csv.py *)

Section Wav2CsvMain.
Import Wav2Csv.

Context (abspath : string -> string)
        (with_suffix : string -> string -> option string)
        (traceback : string)
        (lookup : string -> input)
        (creatable : string -> bool).

(** The output path of a command line: the third word unless it starts
    with two dashes, the input with its suffix replaced otherwise. *)
Definition requested_output (argv : list string) : option string :=
  match argv with
  | _ :: input_file :: arg2 :: _ =>
      if String.prefix "--" arg2 then with_suffix input_file ".csv" else Some arg2
  | [_; input_file] => with_suffix input_file ".csv"
  | _ => None
  end.

(** X10.  [main] exits with 0 exactly when the command line names an
    input that is decoded, the CSV can be created at the output path,
    and the descriptor path can be formed and the descriptor created;
    it has then written the CSV at the requested path and the
    descriptor, with as many rows as the descriptor announces samples.
    In every other case it exits with 1, having written nothing
    (always so when the CSV cannot be created), or the CSV alone when
    the descriptor path cannot be formed or the descriptor cannot be
    created.  The script's own error messages never reach standard
    error. *)
Theorem main_exit_status (argv : list string) :
  let r := main abspath with_suffix traceback lookup creatable argv in
  (exit_status r = 0 \/ exit_status r = 1) /\
  (exit_status r = 0 <->
   exists input_file out w sr data info meta_path,
     argv !! 1%nat = Some input_file /\ requested_output argv = Some out /\
     lookup input_file = Wave w /\ read_wav_file w = Ok (sr, data, info) /\
     creatable out = true /\
     with_suffix out ".meta.json" = Some meta_path /\ creatable meta_path = true) /\
  (exit_status r = 0 ->
   exists out csv meta_path m,
     requested_output argv = Some out /\
     with_suffix out ".meta.json" = Some meta_path /\
     written r = [CsvFile out csv; MetaFile meta_path m] /\
     Z.of_nat (length (rows csv)) = samples m /\
     output_file m = abspath out) /\
  (exit_status r = 1 ->
   written r = [] \/
   exists out csv,
     written r = [CsvFile out csv] /\ creatable out = true /\
     (with_suffix out ".meta.json" = None \/
      exists meta_path, with_suffix out ".meta.json" = Some meta_path /\
                        creatable meta_path = false)) /\
  (forall out, requested_output argv = Some out -> creatable out = false -> written r = []) /\
  (stderr_text r <> "" ->
   exit_status r = 1 /\ written r = [] /\
   exists input_file, argv !! 1%nat = Some input_file /\ with_suffix input_file ".csv" = None).
Proof.
  cbn zeta. unfold main.
  destruct argv as [|a0 [|input_file rest]].
  { cbn. repeat split; try (by auto); try discriminate;
      try (intros (?&?&?&?&?&?&?&?&_); done). }
  { cbn. repeat split; try (by auto); try discriminate;
      try (intros (?&?&?&?&?&?&?&?&_); done). }
  assert (Hout : requested_output (a0 :: input_file :: rest)
                 = match rest with
                   | arg2 :: _ => if negb (String.prefix "--" arg2) then Some arg2
                                  else with_suffix input_file ".csv"
                   | [] => with_suffix input_file ".csv"
                   end).
  { destruct rest as [|arg2 ?]; [done|]. cbn. by destruct (String.prefix "--" arg2). }
  rewrite <- Hout.
  assert (Hargv : forall i, (a0 :: input_file :: rest) !! 1%nat = Some i <-> i = input_file).
  { intros i. cbn. split; [by intros [= ->]|by intros ->]. }
  destruct (requested_output (a0 :: input_file :: rest)) as [out|] eqn:Hreq.
  2:{ cbn [exit_status written stderr_text]. split; [by right|]. split.
      { split; [done|]. intros (?&?&?&?&?&?&?&_&?&_). done. }
      split; [done|]. split; [by left|]. split; [done|].
      intros _. split; [done|]. split; [done|].
      exists input_file. split; [done|].
      rewrite Hout in Hreq. destruct rest as [|arg2 ?]; [done|].
      by destruct (String.prefix "--" arg2). }
  destruct (lookup input_file) as [| |w] eqn:Hl.
  1,2: cbn [exit_status written stderr_text]; split; [by right|]; split;
       [split; [done|]; intros (i&o&?&?&?&?&?&Hi&_&Hw&_); apply Hargv in Hi; subst i; congruence|];
       split; [done|]; split; [by left|done].
  destruct (read_wav_file w) as [[[sr data] info]|e] eqn:Hr.
  2:{ cbn [exit_status written stderr_text]. split; [by right|]. split.
      { split; [done|]. intros (i&o&w'&?&?&?&?&Hi&_&Hw&Hr'&_).
        apply Hargv in Hi. subst i. congruence. }
      split; [done|]. split; [by left|done]. }
  destruct (read_wav_file_Ok_inv w sr data info Hr) as (_ & _ & _ & Hfr & -> & _).
  destruct (write_csv_minimal_ok abspath input_file data (getframerate w) out
              (existsb (String.eqb "--normalize") (a0 :: input_file :: rest))
              (existsb (String.eqb "--mono") (a0 :: input_file :: rest)) Hfr)
    as (csv & m & Hw & Hrows & _ & Hsamples & _).
  rewrite Hw.
  assert (Hof : output_file m = abspath out).
  { unfold write_csv_minimal in Hw. rewrite (proj2 (Z.eqb_neq _ _) Hfr) in Hw.
    by injection Hw as _ <-. }
  destruct (creatable out) eqn:Hco; cbn [negb].
  2:{ cbn [exit_status written stderr_text]. split; [by right|]. split.
      { split; [done|]. intros (i&o&?&?&?&?&?&_&Ho&_&_&Hc&_). congruence. }
      split; [done|]. split; [by left|done]. }
  destruct (with_suffix out ".meta.json") as [mp|] eqn:Hmp.
  2:{ cbn [exit_status written stderr_text]. split; [by right|]. split.
      { split; [done|]. intros (i&o&?&?&?&?&?&_&Ho&_&_&_&Hs&_). congruence. }
      split; [done|]. split; [|split; [intros ? [= <-]; congruence|done]].
      intros _. right. exists out, csv. split; [done|]. split; [done|]. by left. }
  destruct (creatable mp) eqn:Hcm; cbn [exit_status written stderr_text].
  - split; [by left|]. split.
    { split; [|done]. intros _. exists input_file, out, w, (getframerate w), data, info, mp.
      by rewrite Hmp. }
    split; [|split; [done|split; [intros ? [= <-]; congruence|done]]].
    intros _. exists out, csv, mp, m. by rewrite Hsamples.
  - split; [by right|]. split.
    { split; [done|]. intros (i&o&?&?&?&?&mp'&_&Ho&_&_&_&Hs&Hc). congruence. }
    split; [done|]. split; [|split; [intros ? [= <-]; congruence|done]].
    intros _. right. exists out, csv. split; [done|]. split; [done|]. right. by exists mp.
Qed.

End Wav2CsvMain.

Section Wav2CsvMainSample.
Import Wav2Csv.

(** A mono 16-bit recording of two samples. *)
Definition two_samples : wav_file := mk_wav_file 1 2 8000 2 [x01; x00; xff; xff].

Lemma main_exit_status_witness :
  exists csv m,
    written (main (fun p => p) (fun p s => Some (p +:+ s)) "Traceback"
                  (fun p => if String.eqb p "a.wav" then Wave two_samples else NoSuchFile)
                  (fun _ => true)
                  ["wav2csv.py"; "a.wav"; "a.csv"])
    = [CsvFile "a.csv" csv; MetaFile "a.csv.meta.json" m] /\
    samples m = 2.
Proof.
  destruct (main_exit_status (fun p => p) (fun p s => Some (p +:+ s)) "Traceback"
              (fun p => if String.eqb p "a.wav" then Wave two_samples else NoSuchFile)
              (fun _ => true)
              ["wav2csv.py"; "a.wav"; "a.csv"]) as (_ & _ & H & _).
  destruct (H eq_refl) as (out & csv & mp & m & Hout & Hmp & Hw & Hrows & _).
  injection Hout as <-. injection Hmp as <-.
  exists csv, m. split; [exact Hw|]. rewrite <- Hrows.
  injection Hw as <- _. reflexivity.
Defined.

End Wav2CsvMainSample.

(** * Properties of wav_to_csv.py *)

Section WavToCsvProperties.
Import Wav2Csv WavToCsv.

Lemma Qceiling_div (a b : Z) :
  0 < b -> Qceiling (inject_Z a / inject_Z b) = - ((- a) / b).
Proof.
  intros Hb. destruct b as [|p|p]; try lia.
  unfold Qceiling, Qfloor, Qdiv, Qinv, Qmult, Qopp, inject_Z. cbn [Qnum Qden].
  rewrite Z.mul_1_r. reflexivity.
Qed.

(** The number of rows: the least [n] with [n * rate >= length - 1]. *)
Lemma rows_count (len rate : Z) :
  0 < rate -> 1 <= len ->
  let n := - ((- (len - 1)) / rate) in
  0 <= n /\ (n - 1) * rate < len - 1 <= n * rate.
Proof.
  intros Hr Hl. cbn zeta.
  pose proof (Z.div_mod (- (len - 1)) rate ltac:(lia)) as Hdm.
  pose proof (Z.mod_pos_bound (- (len - 1)) rate Hr) as Hm.
  nia.
Qed.

Lemma samples_int16_length (raw : list byte) (d : list Z) :
  samples_int16 raw = Ok d -> length d = (length raw / 2)%nat.
Proof.
  unfold samples_int16. destruct (_ =? 0)%nat; [|done]. intros [= <-].
  by rewrite length_map, groups_length.
Qed.

(** X23.  [wav_to_csv] reads the bytes as 16-bit samples whatever
    sample width the header declares.  It fails on an odd number of
    bytes, on a sample count that is no multiple of the channel count,
    on a recording without frames, and on a frame rate of 0; with
    frames and a positive frame rate it returns
    ceil((frames - 1) / rate) rows. *)
Theorem wav_to_csv_outcome (w : wav_file) :
  let nb := length (readframes w) in
  let c := Z.to_nat (getnchannels w) in
  let frames := if 1 <? getnchannels w then (nb / 2 / c)%nat else (nb / 2)%nat in
  (forall sw, wav_to_csv (mk_wav_file (getnchannels w) sw (getframerate w) (getnframes w)
                                      (readframes w)) = wav_to_csv w) /\
  ((nb mod 2)%nat <> 0%nat -> wav_to_csv w = Raise BufferSizeError) /\
  ((nb mod 2)%nat = 0%nat -> 1 < getnchannels w -> ((nb / 2) mod c)%nat <> 0%nat ->
   wav_to_csv w = Raise (ReshapeError (nb / 2) (getnchannels w))) /\
  ((nb mod 2)%nat = 0%nat -> (1 < getnchannels w -> ((nb / 2) mod c)%nat = 0%nat) ->
   frames = 0%nat -> wav_to_csv w = Raise IndexError) /\
  ((nb mod 2)%nat = 0%nat -> (1 < getnchannels w -> ((nb / 2) mod c)%nat = 0%nat) ->
   frames <> 0%nat -> getframerate w = 0 -> wav_to_csv w = Raise ArangeError) /\
  ((nb mod 2)%nat = 0%nat -> (1 < getnchannels w -> ((nb / 2) mod c)%nat = 0%nat) ->
   frames <> 0%nat -> 0 < getframerate w ->
   exists rows,
     wav_to_csv w = Ok rows /\
     Z.of_nat (length rows) = - ((- (Z.of_nat frames - 1)) / getframerate w)).
Proof.
  cbn zeta. split; [done|].
  unfold wav_to_csv, samples_int16. cbn zeta.
  destruct (Nat.eqb_spec (length (readframes w) mod 2) 0) as [Hb|Hb].
  2:{ repeat split; intros; done. }
  split; [done|]. cbn [mbind result_bind].
  set (d := map _ (groups 2 _ _)).
  assert (Hd : length d = (length (readframes w) / 2)%nat)
    by (unfold d; by rewrite length_map, groups_length).
  unfold mono. rewrite Hd.
  set (audio := if 1 <? getnchannels w
                then map (fun row => Qsum (map inject_Z row)
                                     / inject_Z (Z.of_nat (Z.to_nat (getnchannels w))))%Q
                         (groups (Z.to_nat (getnchannels w))
                                 (length (readframes w) / 2 / Z.to_nat (getnchannels w)) d)
                else map inject_Z d).
  assert (Hlen : length audio
                 = if 1 <? getnchannels w
                   then (length (readframes w) / 2 / Z.to_nat (getnchannels w))%nat
                   else (length (readframes w) / 2)%nat).
  { unfold audio. destruct (1 <? getnchannels w); rewrite length_map; [|done].
    by rewrite groups_length. }
  assert (Hstage : (if 1 <? getnchannels w
                    then if (length (readframes w) / 2 mod Z.to_nat (getnchannels w) =? 0)%nat
                         then Ok audio
                         else Raise (ReshapeError (length (readframes w) / 2) (getnchannels w))
                    else Ok audio)
                   = (if 1 <? getnchannels w
                      then if (length (readframes w) / 2 mod Z.to_nat (getnchannels w) =? 0)%nat
                           then Ok (map (fun row => Qsum (map inject_Z row)
                                     / inject_Z (Z.of_nat (Z.to_nat (getnchannels w))))%Q
                                     (groups (Z.to_nat (getnchannels w))
                                        (length (readframes w) / 2 / Z.to_nat (getnchannels w)) d))
                           else Raise (ReshapeError (length (readframes w) / 2) (getnchannels w))
                      else Ok (map inject_Z d))).
  { unfold audio. by destruct (1 <? getnchannels w). }
  rewrite <- Hstage. clear Hstage.
  assert (Hres : forall rate, 
            resample rate audio
            = match audio with
              | [] => Raise IndexError
              | _ => if rate =? 0 then Raise ArangeError
                     else Ok (map (fun t => (inject_Z t,
                                     mean (slice (t * rate) ((t + 1) * rate) audio)))
                                  (arange (inject_Z (Z.of_nat (length audio) - 1) / inject_Z rate)))
              end) by (by intros; destruct audio).
  split.
  { intros _ Hc Hr. apply Z.ltb_lt in Hc. rewrite Hc. apply Nat.eqb_neq in Hr. by rewrite Hr. }
  assert (Hok : (1 < getnchannels w ->
                 (length (readframes w) / 2 mod Z.to_nat (getnchannels w))%nat = 0%nat) ->
                (if 1 <? getnchannels w
                 then if (length (readframes w) / 2 mod Z.to_nat (getnchannels w) =? 0)%nat
                      then Ok audio
                      else Raise (ReshapeError (length (readframes w) / 2) (getnchannels w))
                 else Ok audio) = @Ok exn _ audio).
  { intros Hc. destruct (Z.ltb_spec 1 (getnchannels w)) as [H|H]; [|done].
    specialize (Hc H). apply Nat.eqb_eq in Hc. by rewrite Hc. }
  split; [|split].
  - intros _ Hc Hf. rewrite (Hok Hc). cbn [mbind result_bind].
    rewrite <- Hlen in Hf. destruct audio; [done|discriminate].
  - intros _ Hc Hf Hr. rewrite (Hok Hc). cbn [mbind result_bind].
    rewrite <- Hlen in Hf. rewrite Hres, Hr. destruct audio; done.
  - intros _ Hc Hf Hr. rewrite (Hok Hc). cbn [mbind result_bind].
    rewrite <- Hlen in Hf |- *. rewrite Hres.
    assert (Hr0 : (getframerate w =? 0) = false) by (apply Z.eqb_neq; lia). rewrite Hr0.
    destruct audio as [|a0 audio'] eqn:Ha; [done|]. rewrite <- Ha in *.
    eexists. split; [reflexivity|].
    unfold arange. rewrite !length_map, length_seq, Qceiling_div by done.
    assert (1 <= Z.of_nat (length audio)) by (rewrite Ha; simpl; lia).
    pose proof (rows_count (Z.of_nat (length audio)) (getframerate w) Hr ltac:(lia)) as Hn.
    cbn zeta in Hn. lia.
Qed.

Lemma resample_unfold (rate : Z) (audio : list Q) :
  rate <> 0 -> audio <> [] ->
  resample rate audio
  = Ok (map (fun t => (inject_Z t, mean (slice (t * rate) ((t + 1) * rate) audio)))
            (arange (inject_Z (Z.of_nat (length audio) - 1) / inject_Z rate))).
Proof.
  intros Hr Ha. unfold resample. destruct audio; [done|].
  by rewrite (proj2 (Z.eqb_neq _ _) Hr).
Qed.

Lemma slice_length {A} (i j : Z) (a : list A) :
  0 <= i <= j ->
  Z.of_nat (length (slice i j a)) = Z.max 0 (Z.min (j - i) (Z.of_nat (length a) - i)).
Proof. intros Hij. unfold slice. rewrite length_take, length_drop. lia. Qed.

Lemma slice_lookup {A} (i j : Z) (a : list A) (k : nat) :
  0 <= i <= j -> (k < length (slice i j a))%nat ->
  slice i j a !! k = a !! (Z.to_nat i + k)%nat.
Proof.
  intros Hij Hk. unfold slice in *. rewrite length_take in Hk.
  rewrite lookup_take_lt by lia. by rewrite lookup_drop.
Qed.

(** X24.  The rows of [wav_to_csv] are the seconds 0, 1, 2, ... of
    the recording, row [k] holding the mean of the samples from
    [k * rate] up to, but excluding, [(k + 1) * rate] or the end of the
    recording; no row is empty.  There are ceil((L - 1) / rate) rows
    for [L] samples: the last sample belongs to no row exactly when
    [L - 1] is a multiple of the rate, so a recording of [m * rate + 1]
    samples gives [m] rows and one of a single sample gives none. *)
Theorem wav_to_csv_seconds (rate : Z) (audio : list Q) :
  0 < rate -> audio <> [] ->
  exists rows,
    resample rate audio = Ok rows /\
    let L := Z.of_nat (length audio) in
    let n := Z.of_nat (length rows) in
    (n - 1) * rate < L - 1 <= n * rate /\
    (forall k : nat, (k < length rows)%nat ->
       let sl := slice (Z.of_nat k * rate) ((Z.of_nat k + 1) * rate) audio in
       rows !! k = Some (inject_Z (Z.of_nat k), mean sl) /\
       Z.of_nat (length sl) = Z.min rate (L - Z.of_nat k * rate) /\
       (0 < length sl)%nat /\
       forall i : nat, (i < length sl)%nat ->
                       sl !! i = audio !! (Z.to_nat (Z.of_nat k * rate) + i)%nat) /\
    (n * rate = L - 1 <-> (L - 1) mod rate = 0) /\
    (forall m, L = m * rate + 1 -> n = m).
Proof.
  intros Hr Ha. rewrite resample_unfold by (done || lia).
  eexists. split; [reflexivity|]. cbn zeta.
  assert (HL : 1 <= Z.of_nat (length audio)) by (destruct audio; [done|simpl; lia]).
  unfold arange. rewrite !length_map, length_seq, Qceiling_div by done.
  destruct (rows_count (Z.of_nat (length audio)) rate Hr HL) as [Hn0 Hn].
  set (n := - (- (Z.of_nat (length audio) - 1) / rate)) in *.
  rewrite Z2Nat.id by done.
  split; [done|]. split; [|split].
  - intros k Hk.
    assert (Hkn : Z.of_nat k < n) by lia.
    assert (Hstart : Z.of_nat k * rate < Z.of_nat (length audio) - 1) by nia.
    split.
    { rewrite !list_lookup_fmap, lookup_seq_lt by done. done. }
    rewrite slice_length by nia.
    split; [nia|]. split.
    { assert (0 < Z.of_nat (length (slice (Z.of_nat k * rate) ((Z.of_nat k + 1) * rate) audio)))
        by (rewrite slice_length by nia; nia). lia. }
    intros i Hi. apply slice_lookup; [nia|done].
  - pose proof (Z.div_mod (- (Z.of_nat (length audio) - 1)) rate ltac:(lia)) as Hdm.
    pose proof (Z.mod_pos_bound (- (Z.of_nat (length audio) - 1)) rate Hr) as Hm.
    split.
    + intros Heq. assert (Hz : (- (Z.of_nat (length audio) - 1)) mod rate = 0) by (unfold n in Heq; nia).
      apply Z.mod_opp_l_z in Hz; [|lia]. by rewrite Z.opp_involutive in Hz.
    + intros Hz. apply Z.mod_opp_l_z in Hz; [|lia]. unfold n. nia.
  - intros m Hm. nia.
Qed.

Lemma wav_to_csv_seconds_witness :
  exists rows,
    resample 2 [1; 3; 5; 7; 9]%Q = Ok rows /\ Z.of_nat (length rows) = 2.
Proof.
  destruct (wav_to_csv_seconds 2 [1; 3; 5; 7; 9]%Q) as (rows & H1 & _ & _ & _ & H2);
    [lia|discriminate|].
  exists rows. split; [exact H1|]. apply H2. reflexivity.
Defined.

(** ** Bounds *)

Lemma samples_int16_range (raw : list byte) (d : list Z) :
  samples_int16 raw = Ok d -> Forall (fun z => - 32768 <= z <= 32767) d.
Proof.
  unfold samples_int16.
  destruct (Nat.eqb_spec (length raw mod 2) 0) as [Hb|]; [|done]. intros [= <-].
  apply Forall_fmap.
  eapply Forall_impl.
  - apply (groups_Forall_length 2 (length raw / 2) raw).
    apply Nat.Div0.div_exact in Hb. lia.
  - intros bs Hbs. simpl. pose proof (le_unsigned_range bs) as Hu. rewrite Hbs in Hu.
    destruct (to_signed_spec 16 (le_unsigned bs) ltac:(lia) Hu) as [Hs _].
    change (2 ^ (16 - 1)) with 32768 in Hs. lia.
Qed.

Lemma mono_range (n_channels : Z) (d : list Z) (audio : list Q) :
  mono n_channels d = Ok audio ->
  Forall (fun z => - 32768 <= z <= 32767) d ->
  Forall (fun q => (-32768 <= q <= 32767)%Q) audio.
Proof.
  intros Hm Hd.
  assert (Hq : forall l : list Z, Forall (fun z => - 32768 <= z <= 32767) l ->
                 Forall (fun q => (-32768 <= q <= 32767)%Q) (map inject_Z l)).
  { intros l Hl. apply Forall_fmap. eapply Forall_impl; [exact Hl|]. intros z Hz.
    cbn beta in Hz |- *. unfold compose. split; unfold Qle; simpl; lia. }
  unfold mono in Hm. destruct (Z.ltb_spec 1 n_channels) as [Hc|Hc].
  - destruct (Nat.eqb_spec (length d mod Z.to_nat n_channels) 0) as [Hdiv|]; [|done].
    injection Hm as <-. apply Forall_fmap.
    apply Nat.Div0.div_exact in Hdiv.
    assert (Hrows : Forall (fun row => length row = Z.to_nat n_channels /\
                                       Forall (fun z => - 32768 <= z <= 32767) row)
                           (groups (Z.to_nat n_channels) (length d / Z.to_nat n_channels) d)).
    { apply Forall_and. split.
      - apply groups_Forall_length. lia.
      - apply Forall_concat. rewrite groups_concat by lia. done. }
    eapply Forall_impl; [exact Hrows|]. intros row [Hlen Hrow]. simpl.
    apply mean_within; [lia|by rewrite length_map|by apply Hq].
  - injection Hm as <-. by apply Hq.
Qed.

(** X25.  Every value [wav_to_csv] writes is a mean of 16-bit
    samples and lies between -32768 and 32767, and the times written
    are the whole seconds 0, 1, 2, ... in order. *)
Theorem wav_to_csv_rows_bounded (w : wav_file) (rows : list (Q * Q)) :
  wav_to_csv w = Ok rows ->
  map fst rows = map (fun k => inject_Z (Z.of_nat k)) (seq 0 (length rows)) /\
  Forall (fun v => (-32768 <= v <= 32767)%Q) (map snd rows).
Proof.
  unfold wav_to_csv. cbn zeta.
  destruct (samples_int16 (readframes w)) as [d|e] eqn:Hd; [|done]. cbn [mbind result_bind].
  destruct (mono (getnchannels w) d) as [audio|e] eqn:Hm; [|done]. cbn [mbind result_bind].
  pose proof (mono_range _ _ _ Hm (samples_int16_range _ _ Hd)) as Hrange.
  unfold resample. destruct audio as [|a0 audio'] eqn:Ha; [done|]. rewrite <- Ha in *.
  destruct (Z.eqb_spec (getframerate w) 0) as [|Hr]; [done|]. intros [= <-].
  unfold arange. rewrite !length_map, length_seq, !map_map. cbn [fst snd]. split; [done|].
  apply Forall_fmap, Forall_forall. intros k _. simpl.
  set (sl := slice _ _ audio).
  assert (Hsl : Forall (fun q => (-32768 <= q <= 32767)%Q) sl).
  { unfold sl, slice. apply Forall_take, Forall_drop. exact Hrange. }
  destruct sl as [|q sl'] eqn:Hsl'.
  - unfold mean. simpl. unfold Qdiv. rewrite Qmult_0_l. split; discriminate.
  - rewrite <- Hsl' in *. unfold mean. apply mean_within; [rewrite Hsl'; simpl; lia|done|done].
Qed.

End WavToCsvProperties.

Section WavToCsvSample.
Import Wav2Csv WavToCsv.

Lemma wav_to_csv_outcome_witness :
  exists rows,
    wav_to_csv (mk_wav_file 1 1 1 4 [x01; x00; x03; x00; x05; x00]) = Ok rows /\
    Z.of_nat (length rows) = 2.
Proof.
  destruct (wav_to_csv_outcome (mk_wav_file 1 1 1 4 [x01; x00; x03; x00; x05; x00]))
    as (_ & _ & _ & _ & _ & H).
  destruct H as (rows & H1 & H2); [reflexivity|cbn; lia|cbn; lia|cbn; lia|].
  exists rows. split; [exact H1|]. rewrite H2. reflexivity.
Defined.

Lemma wav_to_csv_rows_bounded_witness :
  exists rows,
    wav_to_csv (mk_wav_file 1 1 1 4 [x01; x00; x03; x00; x05; x00]) = Ok rows /\
    Forall (fun v => (-32768 <= v <= 32767)%Q) (map snd rows).
Proof.
  eexists. split; [vm_compute; reflexivity|].
  apply (wav_to_csv_rows_bounded (mk_wav_file 1 1 1 4 [x01; x00; x03; x00; x05; x00])).
  vm_compute. reflexivity.
Defined.

End WavToCsvSample.

(** * Properties of tools/analyze_smartshirt_data.py *)

Section AnalyzeProperties.
Import Py Wav2Csv Analyze.

(** The range of values each unit stands for. *)
Definition unit_range (unit : string) : option (Z * Z) :=
  if String.eqb unit "BPM" then Some (40, 200)
  else if String.eqb unit "breaths/min" then Some (8, 30)
  else if String.eqb unit "g" then Some (-20, 20)
  else if String.eqb unit "mmHg" then Some (80, 200)
  else if String.eqb unit "level" then Some (0, 100)
  else if String.eqb unit "normalized" then Some (-1, 1)
  else None.

(** [(v + 1) / 2 * (hi - lo) + lo] in [float64]. *)
Definition denormalize (lo hi : Z) (v : Q) : Q :=
  add64 (mul64 (div64 (add64 v 1) 2) (inject_Z (hi - lo))) (inject_Z lo).

Lemma f64_between (lo hi : Z) (x : Q) :
  Z.abs lo <= 2 ^ 53 -> Z.abs hi <= 2 ^ 53 ->
  (inject_Z lo <= x <= inject_Z hi)%Q -> (inject_Z lo <= f64 x <= inject_Z hi)%Q.
Proof. intros Hlo Hhi Hx. apply round_bin_between; (done || lia). Qed.

Lemma f64_mono (x y : Q) : (x <= y)%Q -> (f64 x <= f64 y)%Q.
Proof. apply round_bin_mono. lia. Qed.

(** A conversion takes [-1, 1] into the range of its unit and keeps
    the order, rounding included. *)
Lemma denormalize_range (lo hi : Z) :
  lo <= hi -> Z.abs lo <= 2 ^ 52 -> Z.abs hi <= 2 ^ 52 ->
  (forall v, (Qabs v <= 1)%Q -> (inject_Z lo <= denormalize lo hi v <= inject_Z hi)%Q) /\
  (forall v v', (v <= v')%Q -> (denormalize lo hi v <= denormalize lo hi v')%Q).
Proof.
  intros Hle Hlo Hhi.
  assert (Hd : (0 <= inject_Z (hi - lo))%Q).
  { change 0%Q with (inject_Z 0). rewrite <- Zle_Qle. lia. }
  split.
  - intros v Hv. apply Qabs_Qle_condition in Hv as [V1 V2].
    unfold denormalize, add64, mul64, div64.
    assert (T1 : (inject_Z 0 <= f64 (v + 1) <= inject_Z 2)%Q).
    { apply f64_between; [simpl; lia|simpl; lia|]. change (inject_Z 0) with 0%Q.
      change (inject_Z 2) with 2%Q. split; lra. }
    set (t1 := f64 (v + 1)) in *.
    assert (T2 : (inject_Z 0 <= f64 (t1 / 2) <= inject_Z 1)%Q).
    { apply f64_between; [simpl; lia|simpl; lia|]. change (inject_Z 0) with 0%Q in *.
      change (inject_Z 2) with 2%Q in *. change (inject_Z 1) with 1%Q.
      unfold Qdiv. change (/ 2)%Q with (1 # 2)%Q. split; lra. }
    set (t2 := f64 (t1 / 2)) in *.
    assert (T3 : (inject_Z 0 <= f64 (t2 * inject_Z (hi - lo)) <= inject_Z (hi - lo))%Q).
    { apply f64_between; [simpl; lia|lia|]. change (inject_Z 0) with 0%Q in *.
      change (inject_Z 1) with 1%Q in *. set (D := inject_Z (hi - lo)) in *. split; nra. }
    set (t3 := f64 (t2 * inject_Z (hi - lo))) in *.
    apply f64_between; [lia|lia|]. change (inject_Z 0) with 0%Q in *.
    assert (Hd' : (inject_Z (hi - lo) == inject_Z hi - inject_Z lo)%Q).
    { unfold Z.sub. rewrite inject_Z_plus, inject_Z_opp. reflexivity. }
    destruct T3 as [T3a T3b]. rewrite Hd' in T3b. split; lra.
  - intros v v' Hv. unfold denormalize, add64, mul64, div64.
    apply f64_mono. apply Qplus_le_compat; [|apply Qle_refl].
    apply f64_mono. apply Qmult_le_compat_r; [|done].
    apply f64_mono. unfold Qdiv. apply Qmult_le_compat_r; [|discriminate].
    apply f64_mono. lra.
Qed.

Lemma select_range (signal_name : string) :
  exists lo hi : Z,
    unit_range (snd (select signal_name)) = Some (lo, hi) /\
    lo <= hi /\ Z.abs lo <= 200 /\ Z.abs hi <= 200 /\
    (forall v, (Qabs v <= 1)%Q ->
               (inject_Z lo <= fst (select signal_name) v <= inject_Z hi)%Q) /\
    (forall v v', (v <= v')%Q ->
                  (fst (select signal_name) v <= fst (select signal_name) v')%Q).
Proof.
  assert (Hden : forall lo hi : Z, lo <= hi -> Z.abs lo <= 200 -> Z.abs hi <= 200 ->
            (forall v, (Qabs v <= 1)%Q ->
                       (inject_Z lo <= denormalize lo hi v <= inject_Z hi)%Q) /\
            (forall v v', (v <= v')%Q -> (denormalize lo hi v <= denormalize lo hi v')%Q)).
  { intros lo hi H1 H2 H3. apply denormalize_range; lia. }
  unfold select.
  repeat match goal with
         | |- context [if ?b then _ else _] => destruct b
         end; cbn [fst snd].
  - exists 40, 200. split; [reflexivity|]. repeat (split; [lia|]). apply (Hden 40 200); lia.
  - exists 8, 30. split; [reflexivity|]. repeat (split; [lia|]). apply (Hden 8 30); lia.
  - exists (-20), 20. split; [reflexivity|]. repeat (split; [lia|]).
    apply (Hden (-20) 20); lia.
  - exists 80, 200. split; [reflexivity|]. repeat (split; [lia|]). apply (Hden 80 200); lia.
  - exists 0, 100. split; [reflexivity|]. repeat (split; [lia|]). apply (Hden 0 100); lia.
  - exists (-1), 1. split; [reflexivity|]. repeat (split; [lia|]). split.
    + intros v Hv. by apply Qabs_Qle_condition in Hv.
    + done.
Qed.

Lemma fold_qmin_spec (lo : Q) (l : list Q) (a : Q) :
  (lo <= a)%Q -> Forall (fun x => (lo <= x)%Q) l ->
  (lo <= fold_left qmin l a)%Q /\ (fold_left qmin l a <= a)%Q /\
  Forall (fun x => (fold_left qmin l a <= x)%Q) l.
Proof.
  intros Ha Hl. revert a Ha. induction Hl as [|x l Hx _ IH]; intros a Ha.
  - simpl. split; [done|]. split; [apply Qle_refl|constructor].
  - cbn [fold_left].
    assert (Hm : (lo <= qmin a x)%Q /\ (qmin a x <= a)%Q /\ (qmin a x <= x)%Q).
    { unfold qmin. destruct (Qle_bool a x) eqn:E.
      - apply Qle_bool_iff in E. repeat split; (done || apply Qle_refl).
      - assert (~ (a <= x)%Q) by (intros H; apply Qle_bool_iff in H; congruence).
        repeat split; (done || lra). }
    destruct Hm as (M1 & M2 & M3). destruct (IH (qmin a x) M1) as (I1 & I2 & I3).
    split; [done|]. split; [lra|]. constructor; [lra|done].
Qed.

Lemma fold_qmax_spec (hi : Q) (l : list Q) (a : Q) :
  (a <= hi)%Q -> Forall (fun x => (x <= hi)%Q) l ->
  (fold_left qmax l a <= hi)%Q /\ (a <= fold_left qmax l a)%Q /\
  Forall (fun x => (x <= fold_left qmax l a)%Q) l.
Proof.
  intros Ha Hl. revert a Ha. induction Hl as [|x l Hx _ IH]; intros a Ha.
  - simpl. split; [done|]. split; [apply Qle_refl|constructor].
  - cbn [fold_left].
    assert (Hm : (qmax a x <= hi)%Q /\ (a <= qmax a x)%Q /\ (x <= qmax a x)%Q).
    { unfold qmax. destruct (Qle_bool a x) eqn:E.
      - apply Qle_bool_iff in E. repeat split; (done || apply Qle_refl).
      - assert (~ (a <= x)%Q) by (intros H; apply Qle_bool_iff in H; congruence).
        repeat split; (done || apply Qle_refl || lra). }
    destruct Hm as (M1 & M2 & M3). destruct (IH (qmax a x) M1) as (I1 & I2 & I3).
    split; [done|]. split; [lra|]. constructor; [lra|done].
Qed.

Lemma column_ok (j : nat) (r : list Q) (rest : list (list Q)) :
  (j < length r)%nat ->
  column j (r :: rest) = Ok (map (fun r => nth j r 0%Q) (r :: rest)).
Proof. intros Hj. unfold column. by destruct (Nat.ltb_spec j (length r)); [|lia]. Qed.

Lemma load_signal_data_ok (csv : csv_file) (m : meta) (P : Q -> Prop) :
  (2 <= length (rows csv))%nat ->
  Forall (fun row => exists c, row !! 1%nat = Some c /\ P (f64 c)) (rows csv) ->
  exists time_s ch1_values,
    load_signal_data csv m = Ok (time_s, ch1_values, m) /\
    length ch1_values = length (rows csv) /\ Forall P ch1_values.
Proof.
  intros Hlen Hrows. unfold load_signal_data.
  assert (Hlen' : (2 <= length (loadtxt csv))%nat) by (unfold loadtxt; by rewrite length_map).
  assert (Hrows' : Forall (fun row => exists c, row !! 1%nat = Some c /\ P c) (loadtxt csv)).
  { unfold loadtxt. apply Forall_fmap. eapply Forall_impl; [exact Hrows|].
    intros row (c & Hc & HP). simpl. exists (f64 c). by rewrite list_lookup_fmap, Hc. }
  assert (Hl : length (loadtxt csv) = length (rows csv)) by (unfold loadtxt; by rewrite length_map).
  rewrite <- Hl.
  destruct (loadtxt csv) as [|r0 [|r1 rest]] eqn:Hr; simpl in Hlen'; try lia.
  assert (H0 : exists c, r0 !! 1%nat = Some c /\ P c) by (by apply Forall_cons in Hrows' as [? _]).
  destruct H0 as (c0 & Hc0 & _). pose proof (lookup_lt_Some _ _ _ Hc0) as Hl0.
  rewrite !column_ok by lia. cbn [mbind result_bind].
  eexists _, _. split; [reflexivity|]. split; [by rewrite length_map|].
  apply Forall_fmap. eapply Forall_impl; [exact Hrows'|].
  intros row (c & Hc & HP). simpl.
  by rewrite (nth_lookup_Some _ _ _ _ Hc).
Qed.

Lemma analyze_signal_stats (csv : csv_file) (m : meta) (signal_name : string) :
  (2 <= length (rows csv))%nat ->
  Z.of_nat (length (rows csv)) * 200 <= 2 ^ 53 ->
  Forall (fun row => exists c, row !! 1%nat = Some c /\ (Qabs c <= 1)%Q) (rows csv) ->
  exists st lo hi,
    analyze_signal csv m signal_name = Ok st /\
    st_samples st = length (rows csv) /\
    st_sample_rate_hz st = samplerate_hz m /\
    unit_range (st_unit st) = Some (lo, hi) /\
    (inject_Z lo <= st_min st)%Q /\ (st_min st <= st_max st)%Q /\
    (st_max st <= inject_Z hi)%Q /\
    (inject_Z lo <= st_mean st <= inject_Z hi)%Q.
Proof.
  intros Hlen Hbig Hrows.
  assert (Hrows' : Forall (fun row => exists c, row !! 1%nat = Some c /\ (Qabs (f64 c) <= 1)%Q)
                          (rows csv)).
  { eapply Forall_impl; [exact Hrows|]. intros row (c & Hc & Habs). exists c. split; [done|].
    apply Qabs_Qle_condition in Habs. apply Qabs_Qle_condition.
    apply (f64_between (-1) 1); (done || simpl; lia). }
  destruct (load_signal_data_ok csv m (fun q => (Qabs q <= 1)%Q) Hlen Hrows')
    as (ts & vs & Hload & Hvl & Hvs).
  destruct (select_range signal_name) as (lo & hi & Hunit & Hlh & Hlo & Hhi & Hin & _).
  unfold analyze_signal. rewrite Hload. cbn [mbind result_bind].
  destruct (select signal_name) as [f unit] eqn:Hsel. cbn [fst snd] in *.
  eexists _, lo, hi. split; [reflexivity|].
  cbn [st_samples st_sample_rate_hz st_unit st_min st_max st_mean].
  rewrite length_map. split; [done|]. split; [done|]. split; [done|].
  assert (Hall : Forall (fun x => (inject_Z lo <= x <= inject_Z hi)%Q) (map f vs)).
  { apply Forall_fmap. eapply Forall_impl; [exact Hvs|]. intros v Hv. by apply Hin. }
  assert (Hlv : length (map f vs) = length (rows csv)) by (by rewrite length_map).
  destruct (map f vs) as [|y ys] eqn:Hys.
  { simpl in Hlv. lia. }
  rewrite <- Hys in *.
  assert (Hhd : (inject_Z lo <= hd 0%Q (map f vs) <= inject_Z hi)%Q).
  { rewrite Hys. cbn [hd]. rewrite Hys in Hall. by apply Forall_cons in Hall as [? _]. }
  destruct (fold_qmin_spec (inject_Z lo) (map f vs) (hd 0%Q (map f vs))) as (N1 & N2 & _);
    [by destruct Hhd| eapply Forall_impl; [exact Hall|]; by intros ? [? ?] |].
  destruct (fold_qmax_spec (inject_Z hi) (map f vs) (hd 0%Q (map f vs))) as (X1 & X2 & _);
    [by destruct Hhd| eapply Forall_impl; [exact Hall|]; by intros ? [? ?] |].
  split; [done|]. split; [lra|]. split; [done|].
  destruct (np_sum_between 53 lo hi (map f vs)) as [S1 S2]; [lia| |exact Hall|].
  { rewrite Hlv. nia. }
  rewrite Hlv, inject_Z_mult in S1, S2. unfold div64.
  assert (Hnq : (0 < inject_Z (Z.of_nat (length (rows csv))))%Q).
  { change 0%Q with (inject_Z 0). rewrite <- Zlt_Qlt. lia. }
  apply f64_between; [lia|lia|]. rewrite ?Hlv, ?Hvl.
  change (round_bin 53) with f64 in S1, S2. split.
  - apply Qle_shift_div_l; [done|]. lra.
  - apply Qle_shift_div_r; [done|]. lra.
Qed.

(** X26.  [analyze_signal] needs a table of at least two rows: on a
    file with no data row or a single one it raises [IndexError].  On a
    table of up to [2^53 / 200] rows whose first-channel cells lie in
    [-1, 1] it reports one sample per row, a minimum that is at most
    the maximum, and a minimum, a maximum and a mean within the range
    of the unit it reports: 40 to 200 BPM, 8 to 30 breaths/min, -20 to
    20 g, 80 to 200 mmHg, 0 to 100 for the activity level, and -1 to 1
    when the name selects no conversion; the rounding of the float64
    operations never leads out of the range.  Each conversion keeps
    the order of the values. *)
Theorem analyze_signal_within_range (csv : csv_file) (m : meta) (signal_name : string) :
  ((length (rows csv) < 2)%nat -> analyze_signal csv m signal_name = Raise IndexError) /\
  ((2 <= length (rows csv))%nat ->
   Z.of_nat (length (rows csv)) * 200 <= 2 ^ 53 ->
   Forall (fun row => exists c, row !! 1%nat = Some c /\ (Qabs c <= 1)%Q) (rows csv) ->
   exists st lo hi,
     analyze_signal csv m signal_name = Ok st /\
     st_samples st = length (rows csv) /\
     st_sample_rate_hz st = samplerate_hz m /\
     unit_range (st_unit st) = Some (lo, hi) /\
     (inject_Z lo <= st_min st)%Q /\ (st_min st <= st_max st)%Q /\
     (st_max st <= inject_Z hi)%Q /\
     (inject_Z lo <= st_mean st <= inject_Z hi)%Q) /\
  (forall v v', (v <= v')%Q ->
                (fst (select signal_name) v <= fst (select signal_name) v')%Q).
Proof.
  split; [|split].
  - intros Hlen. unfold analyze_signal, load_signal_data, loadtxt.
    destruct (rows csv) as [|r0 [|r1 rest]]; simpl in Hlen; (done || lia).
  - apply analyze_signal_stats.
  - by destruct (select_range signal_name) as (lo & hi & _ & _ & _ & _ & _ & H).
Qed.

Lemma column_stack_cell1 (P : Q -> Prop) (t : list Q) (x : block Q) :
  well_shaped x -> (forall n rows, x = Mat n rows -> (0 < n)%nat) ->
  Forall P (block_flat x) ->
  Forall (fun row => exists c, row !! 1%nat = Some c /\ P c) (column_stack t x).
Proof.
  intros Hs Hn HP. destruct x as [xs|n rs]; cbn [column_stack block_flat well_shaped] in *.
  - apply (zip_with_Forall _ P); [|done]. intros ti xi Hxi. by exists xi.
  - specialize (Hn n rs eq_refl). apply Forall_concat in HP.
    apply (zip_with_Forall _ (fun r => length r = n /\ Forall P r)).
    + intros ti r [Hl Hr]. destruct r as [|c r]; [simpl in Hl; lia|].
      exists c. split; [done|]. by apply Forall_cons in Hr as [? _].
    + apply Forall_and. by split.
Qed.

(** Processing keeps the number of frames and adds no columns. *)
Lemma processed_shape (data : ndarray) (normalize mix_mono : bool) :
  shape0 (processed data normalize mix_mono) = shape0 data /\
  (forall n rows, as_float (el (processed data normalize mix_mono)) = Mat n rows ->
                  exists rows', as_float (el data) = Mat n rows').
Proof.
  unfold processed.
  set (x := if normalize then normalize_audio data else data).
  assert (Hx : exists f, as_float (el x) = block_map f (as_float (el data))).
  { unfold x. destruct normalize.
    - destruct (normalize_audio_cells data) as (f & -> & _). by exists f.
    - exists (fun q => q). by rewrite block_map_id. }
  destruct Hx as [f Hx].
  assert (H0 : shape0 x = shape0 data).
  { rewrite !shape0_as_float, Hx. destruct (as_float (el data)); simpl; by rewrite length_map. }
  assert (H1 : forall n rows, as_float (el x) = Mat n rows ->
                              exists rows', as_float (el data) = Mat n rows').
  { intros n rows. rewrite Hx. destruct (as_float (el data)) as [xs|n' rs]; [done|].
    intros [= <- _]. by eexists. }
  destruct mix_mono; [|done].
  unfold mix_to_mono. destruct (as_float (el x)) as [xs|n rs] eqn:Hb.
  - split; [done|]. by rewrite Hb.
  - unfold mean_axis1. split; [|done].
    rewrite <- H0, (shape0_as_float x), Hb. unfold shape0. cbn [el block_shape0].
    by rewrite length_map.
Qed.


End AnalyzeProperties.

Section AnalyzeSample.
Import Py Wav2Csv Analyze.

(** A normalised table of two rows and its descriptor. *)
Definition sample_table : csv_file :=
  mk_csv_file "Time_s,Ch1" [[0; - (1 # 2)]; [1 # 8000; 1 # 4]]%Q.

Definition sample_meta : meta :=
  mk_meta "in.wav" "heart_rate.csv" 8000 2 1 (2 # 8000) "float32" true false.

Example analyze_signal_sample :
  exists st,
    analyze_signal sample_table sample_meta "heart_rate" = Ok st /\
    st_unit st = "BPM" /\ st_samples st = 2%nat /\
    (st_min st == 80)%Q /\ (st_max st == 140)%Q /\ (st_mean st == 110)%Q.
Proof. eexists. split; [reflexivity|]. repeat split; vm_compute; reflexivity. Qed.

Lemma analyze_signal_within_range_witness :
  exists st,
    analyze_signal sample_table sample_meta "heart_rate" = Ok st /\
    (40 <= st_min st)%Q /\ (st_max st <= 200)%Q /\ (40 <= st_mean st <= 200)%Q.
Proof.
  destruct (analyze_signal_within_range sample_table sample_meta "heart_rate") as (_ & H & _).
  destruct H as (st & lo & hi & Hst & _ & _ & Hu & H1 & _ & H3 & H4).
  - unfold sample_table; simpl. lia.
  - unfold sample_table; simpl. lia.
  - unfold sample_table; cbn [rows].
    repeat constructor; eexists; (split; [reflexivity|]); unfold Qle; simpl; lia.
  - exists st. split; [exact Hst|].
    vm_compute in Hst. injection Hst as <-.
    vm_compute in Hu. injection Hu as <- <-. split; [exact H1 |]. split; [exact H3|exact H4].
Defined.


End AnalyzeSample.

(** * Properties of caloricExpenditure.py *)

Section CaloricProperties.
Import CaloricExpenditure.

(** ** Series.resample *)

Lemma freq_15S_val : freq_15S = 15000000000.
Proof. reflexivity. Qed.

Lemma div_bucket (a f q : Z) : 0 < f -> (q * f <= a < q * f + f <-> a / f = q).
Proof.
  intros Hf. split.
  - intros Ha. symmetry. apply (Z.div_unique a f q (a - q * f)); lia.
  - intros <-. pose proof (Z.mul_div_le a f Hf). pose proof (Z.mul_succ_div_gt a f Hf). lia.
Qed.

Lemma fold_min_head (t0 : Z) (ts : list Z) :
  Forall (fun t => t0 <= t) ts -> fold_right Z.min t0 ts = t0.
Proof. induction 1 as [|t ts Ht _ IH]; simpl; [done|]. rewrite IH. lia. Qed.

Lemma fold_max_greatest (m t0 : Z) (ts : list Z) :
  Forall (fun t => t <= m) (t0 :: ts) -> m ∈ t0 :: ts -> fold_right Z.max t0 ts = m.
Proof.
  intros Hle Hin. apply Forall_cons in Hle as [H0 Hle].
  assert (Hub : fold_right Z.max t0 ts <= m).
  { clear Hin. induction Hle; simpl; lia. }
  assert (Hlb : m <= fold_right Z.max t0 ts).
  { clear Hub Hle H0. induction ts as [|t ts IH]; simpl.
    - apply list_elem_of_singleton in Hin. lia.
    - apply elem_of_cons in Hin as [Hin|Hin].
      + assert (m ∈ t0 :: ts) by (subst; apply elem_of_cons; by left). specialize (IH H). lia.
      + apply elem_of_cons in Hin as [Hin|Hin]; [lia|].
        assert (m ∈ t0 :: ts) by (apply elem_of_cons; by right). specialize (IH H). lia. }
  lia.
Qed.

Lemma sorted_bounds (l : list Z) (t0 tn : Z) :
  Sorted Z.le l -> head l = Some t0 -> last l = Some tn ->
  exists ts, l = t0 :: ts /\
    fold_right Z.min t0 ts = t0 /\ fold_right Z.max t0 ts = tn /\
    Forall (fun t => t0 <= t <= tn) l.
Proof.
  intros Hs Hh Hl. destruct l as [|t ts]; [done|]. injection Hh as ->.
  exists ts. split; [done|].
  apply Sorted_StronglySorted in Hs; [|intros ???; lia].
  assert (Hlast : forall l : list Z, StronglySorted Z.le l -> last l = Some tn ->
                    Forall (fun t => t <= tn) l).
  { clear. intros l Hs. induction Hs as [|a l Hs IH Ha]; intros Hl; [done|].
    destruct l as [|b l]; [injection Hl as ->; by repeat constructor|].
    specialize (IH Hl). constructor; [|done].
    apply Forall_cons in Ha as [Hab _]. apply Forall_cons in IH as [Hb _]. lia. }
  pose proof (Hlast _ Hs Hl) as Hle.
  apply StronglySorted_inv in Hs as [_ Hge].
  split; [by apply fold_min_head|]. split.
  - apply fold_max_greatest; [done|]. by apply last_Some_elem_of.
  - apply Forall_cons in Hle as [H0 Hle]. constructor; [lia|].
    rewrite Forall_forall in Hge, Hle |- *. intros t Ht.
    specialize (Hge t Ht). specialize (Hle t Ht). simpl in *. lia.
Qed.

(** The start of the day of [t], and the bin of [t] counted from it. *)
Definition midnight (t : Z) : Z := t - t mod ns_per_day.
Definition bin_of (origin t : Z) : Z := (t - origin) / freq_15S.

(** With sorted timestamps from [t0] to [tn], [resample('15S').sum()]
    has one entry for each bin from the bin of [t0] to the bin of [tn]:
    the sum of the values whose timestamp lies in that bin. *)
Lemma resample_sum_bins (s : list (Z * R)) (t0 tn : Z) :
  Sorted Z.le (map fst s) -> head (map fst s) = Some t0 -> last (map fst s) = Some tn ->
  resample_sum freq_15S s
  = map (fun k : nat =>
           let b := bin_of (midnight t0) t0 + Z.of_nat k in
           (midnight t0 + b * freq_15S,
            Rsum (map snd (List.filter (fun p => bin_of (midnight t0) (fst p) =? b) s))))
        (seq 0 (Z.to_nat (bin_of (midnight t0) tn - bin_of (midnight t0) t0 + 1))).
Proof.
  intros Hs Hh Hl. destruct (sorted_bounds _ _ _ Hs Hh Hl) as (ts & Hmap & Hmin & Hmax & _).
  unfold resample_sum. rewrite Hmap, Hmin, Hmax. cbn zeta.
  fold (midnight t0). unfold bin_of.
  set (o := midnight t0). set (f := freq_15S).
  assert (Hf : 0 < f) by (unfold f; rewrite freq_15S_val; lia).
  pose proof (Z.mod_pos_bound (t0 - o) f Hf) as Hfo.
  pose proof (Z.mod_pos_bound (tn - o) f Hf) as Hlo.
  pose proof (Z.div_mod (t0 - o) f ltac:(lia)) as Hd0.
  pose proof (Z.div_mod (tn - o) f ltac:(lia)) as Hdn.
  set (b0 := (t0 - o) / f) in *. set (bn := (tn - o) / f) in *.
  assert (Hfirst : (if 0 <? (t0 - o) mod f then t0 - (t0 - o) mod f else t0) = o + b0 * f).
  { destruct (Z.ltb_spec 0 ((t0 - o) mod f)); lia. }
  assert (Hlast : (if 0 <? (tn - o) mod f then tn + (f - (tn - o) mod f) else tn + f)
                  = o + (bn + 1) * f).
  { destruct (Z.ltb_spec 0 ((tn - o) mod f)); lia. }
  rewrite Hfirst, Hlast.
  replace ((o + (bn + 1) * f - (o + b0 * f)) / f) with (bn - b0 + 1).
  2:{ replace (o + (bn + 1) * f - (o + b0 * f)) with ((bn - b0 + 1) * f) by lia.
      by rewrite Z.div_mul by lia. }
  apply map_ext. intros k. f_equal; [lia|]. do 2 f_equal.
  apply List.filter_ext. intros [t v]. unfold in_bin. cbn [fst].
  destruct (Z.eqb_spec ((t - o) / f) (b0 + Z.of_nat k)) as [Heq|Hne].
  - apply div_bucket in Heq; [|done].
    apply andb_true_iff. split; [apply Z.leb_le|apply Z.ltb_lt]; lia.
  - apply andb_false_iff.
    destruct (Z.leb_spec (o + b0 * f + Z.of_nat k * f) t); [|by left].
    destruct (Z.ltb_spec t (o + b0 * f + Z.of_nat k * f + f)); [|by right].
    exfalso. apply Hne. apply div_bucket; [done|]. lia.
Qed.

Lemma vector_magnitude_length (xs ys zs : list R) :
  length ys = length xs -> length zs = length xs ->
  length (vector_magnitude xs ys zs) = length xs.
Proof.
  revert ys zs. induction xs as [|x xs IH]; intros [|y ys] [|z zs] Hy Hz; simpl in *; try done.
  f_equal. apply IH; lia.
Qed.

Lemma vector_magnitude_lookup (xs ys zs : list R) (i : nat) (x y z : R) :
  xs !! i = Some x -> ys !! i = Some y -> zs !! i = Some z ->
  vector_magnitude xs ys zs !! i = Some (sqrt (x ^ 2 + y ^ 2 + z ^ 2)).
Proof.
  revert ys zs i. induction xs as [|x' xs IH]; intros [|y' ys] [|z' zs] [|i]; simpl; try done.
  - by intros [= ->] [= ->] [= ->].
  - apply IH.
Qed.

Definition ceil_div (a b : Z) : Z := - ((- a) / b).

(** A zero signal sampled at 2 Hz for 22.5 s (one and a half epochs),
    starting 10 s after midnight. *)
Definition df_offset : DataFrame :=
  mk_DataFrame
    (map (fun k => 10 * 10 ^ 9 + Z.of_nat k * (5 * 10 ^ 8)) (seq 0 46))
    (<["X" := repeat 0%R 46]> (<["Y" := repeat 0%R 46]> (<["Z" := repeat 0%R 46]> ∅))).

(** C2, as stated, fails: the bins start at clock multiples of 15 s, not
    at the first sample.  The 22.5 s recording above gives three counts,
    for the bins starting 0 s, 15 s and 30 s after midnight, where the
    claim promises ceil(22.5 / 15) = 2 counts from 10 s on. *)
Lemma convert_to_triaxial_counts_not_aligned :
  head (index df_offset) = Some 10000000000 /\
  last (index df_offset) = Some 32500000000 /\
  ceil_div (32500000000 - 10000000000) freq_15S = 2 /\
  (exists counts,
     convert_to_triaxial_counts df_offset "X" "Y" "Z" = Ok counts /\
     length counts = 3%nat) /\
  map fst (resample_sum freq_15S
             (zip (index df_offset)
                  (vector_magnitude (repeat 0%R 46) (repeat 0%R 46) (repeat 0%R 46))))
  = [0; 15000000000; 30000000000].
Proof.
  split; [reflexivity|]. split; [reflexivity|]. split; [reflexivity|]. split.
  - eexists. split; [vm_compute; reflexivity|reflexivity].
  - vm_compute. reflexivity.
Qed.

(** C2, amended.  With the three columns present and sorted timestamps
    from [t0] to [tn], the counts are, bin by bin, the sums of
    sqrt(x^2+y^2+z^2) over the samples of the bin, for the 15 s bins
    counted from midnight of the first sample's day, from the bin of
    [t0] to the bin of [tn]: every sample lies in one of them, the last,
    partial one included.  A recording of 22.5 s gives 2 counts when it
    starts in the first half of its bin and 3 otherwise. *)
Theorem convert_to_triaxial_counts_epochs
    (df : DataFrame) (x_col y_col z_col : string) (xs ys zs : list R) (t0 tn : Z) :
  columns df !! x_col = Some xs ->
  columns df !! y_col = Some ys ->
  columns df !! z_col = Some zs ->
  length xs = length (index df) ->
  length ys = length (index df) ->
  length zs = length (index df) ->
  Sorted Z.le (index df) -> head (index df) = Some t0 -> last (index df) = Some tn ->
  let bin := bin_of (midnight t0) in
  exists counts,
    convert_to_triaxial_counts df x_col y_col z_col = Ok counts /\
    Z.of_nat (length counts) = bin tn - bin t0 + 1 /\
    (forall k : nat, (k < length counts)%nat ->
       counts !! k
       = Some (Rsum (map snd (List.filter (fun p => bin (fst p) =? bin t0 + Z.of_nat k)
                                          (zip (index df) (vector_magnitude xs ys zs)))))) /\
    (forall (i : nat) x y z, xs !! i = Some x -> ys !! i = Some y -> zs !! i = Some z ->
       vector_magnitude xs ys zs !! i = Some (sqrt (x ^ 2 + y ^ 2 + z ^ 2))) /\
    (forall (i : nat) t, index df !! i = Some t ->
       0 <= bin t - bin t0 < Z.of_nat (length counts)) /\
    (tn - t0 = 22500000000 ->
       length counts
       = if (t0 - midnight t0) mod freq_15S <? 7500000000 then 2%nat else 3%nat).
Proof.
  intros Hx Hy Hz Hlx Hly Hlz Hs Hh Hl bin.
  set (vm := zip (index df) (vector_magnitude xs ys zs)).
  assert (Hfst : map fst vm = index df).
  { unfold vm. apply fst_zip. rewrite vector_magnitude_length; lia. }
  assert (Hf : 0 < freq_15S) by (rewrite freq_15S_val; lia).
  destruct (sorted_bounds _ _ _ Hs Hh Hl) as (ts & _ & _ & _ & Hrange).
  assert (Hmono : forall t, t0 <= t <= tn -> bin t0 <= bin t <= bin tn).
  { intros t Ht. unfold bin, bin_of. split; apply Z.div_le_mono; lia. }
  assert (H0n : t0 <= tn).
  { rewrite Forall_forall in Hrange. apply (Hrange t0).
    apply head_Some_elem_of. done. }
  pose proof (Hmono t0 ltac:(lia)) as Hb0n.
  eexists. split.
  { unfold convert_to_triaxial_counts, getitem. rewrite Hx, Hy, Hz.
    cbn [mbind result_bind]. fold vm. reflexivity. }
  rewrite (resample_sum_bins vm t0 tn) by (rewrite Hfst; done).
  rewrite !length_map, length_seq. fold bin.
  assert (Hlen : Z.of_nat (Z.to_nat (bin tn - bin t0 + 1)) = bin tn - bin t0 + 1) by lia.
  split; [exact Hlen|]. split; [|split; [|split]].
  - intros k Hk. rewrite list_lookup_fmap, list_lookup_fmap, lookup_seq_lt by done. done.
  - intros i x y z. apply vector_magnitude_lookup.
  - intros i t Hi. rewrite Forall_forall in Hrange.
    assert (Ht : t0 <= t <= tn).
    { apply Hrange. eapply list_elem_of_lookup_2. exact Hi. }
    specialize (Hmono t Ht). lia.
  - intros Hdur. unfold bin, bin_of in *. rewrite freq_15S_val in *.
    set (o := midnight t0) in *.
    pose proof (Z.div_mod (t0 - o) 15000000000 ltac:(lia)) as Hd.
    pose proof (Z.mod_pos_bound (t0 - o) 15000000000 ltac:(lia)) as Hr.
    destruct (Z.ltb_spec ((t0 - o) mod 15000000000) 7500000000).
    + assert (Hn : (tn - o) / 15000000000 = (t0 - o) / 15000000000 + 1)
        by (apply div_bucket; lia).
      rewrite Hn. replace (_ + 1 - _ + 1) with 2 by lia. done.
    + assert (Hn : (tn - o) / 15000000000 = (t0 - o) / 15000000000 + 2)
        by (apply div_bucket; lia).
      rewrite Hn. replace (_ + 2 - _ + 1) with 3 by lia. done.
Qed.

Definition df_three : DataFrame :=
  mk_DataFrame [10000000000; 20000000000; 32500000000]
    (<["X" := [3; 0; 1]%R]> (<["Y" := [4; 0; 2]%R]> (<["Z" := [0; 0; 2]%R]> ∅))).

Lemma convert_to_triaxial_counts_epochs_witness :
  exists counts,
    convert_to_triaxial_counts df_three "X" "Y" "Z" = Ok counts /\
    length counts = 3%nat.
Proof.
  destruct (convert_to_triaxial_counts_epochs df_three "X" "Y" "Z"
              [3; 0; 1]%R [4; 0; 2]%R [0; 0; 2]%R 10000000000 32500000000)
    as (counts & H1 & _ & _ & _ & _ & H2); try reflexivity.
  - repeat (apply Sorted_cons || apply HdRel_cons || apply Sorted_nil || apply HdRel_nil);
      unfold Z.le; simpl; discriminate.
  - exists counts. split; [exact H1|]. rewrite H2; reflexivity.
Defined.

(** ** calculate_triaxial_expenditure *)

Lemma max0_Rmax (x : R) : max0 x = Rmax 0 x.
Proof. unfold max0, Rmax. destruct (Rlt_dec 0 x), (Rle_dec 0 x); lra. Qed.

Lemma max0_nonneg (x : R) : (0 <= max0 x)%R.
Proof. unfold max0. destruct (Rlt_dec 0 x); lra. Qed.

Lemma max0_negative (x : R) : (x < 0)%R -> max0 x = 0%R.
Proof. intros Hx. unfold max0. destruct (Rlt_dec 0 x); lra. Qed.

(** The loop appends one floored estimate per count. *)
Lemma expenditures_loop (f : R -> R) (counts acc : list R) :
  fold_left (fun expenditures count => expenditures ++ [f count]) counts acc
  = acc ++ map f counts.
Proof.
  revert acc. induction counts as [|c counts IH]; intros acc; simpl.
  - by rewrite app_nil_r.
  - rewrite IH. by rewrite <- app_assoc.
Qed.

Lemma py_sum_Rsum_from (l : list R) (a : R) : fold_left Rplus l a = (a + Rsum l)%R.
Proof.
  revert a. induction l as [|x l IH]; intros a; simpl; [lra|].
  rewrite IH. unfold Rsum. lra.
Qed.

Lemma py_sum_Rsum (l : list R) : py_sum l = Rsum l.
Proof. unfold py_sum. rewrite py_sum_Rsum_from. lra. Qed.

Lemma Rsum_app (l1 l2 : list R) : Rsum (l1 ++ l2) = (Rsum l1 + Rsum l2)%R.
Proof. induction l1 as [|x l1 IH]; simpl; [lra|]. unfold Rsum in *. rewrite IH. lra. Qed.

Lemma calculate_triaxial_expenditure_eq (counts : list R) (u : user_data) :
  calculate_triaxial_expenditure counts u
  = (Rsum (map (fun count => Rmax 0 (ee_per_min u count)) counts) / 4)%R.
Proof.
  unfold calculate_triaxial_expenditure.
  rewrite expenditures_loop, py_sum_Rsum. simpl. do 2 f_equal.
  apply map_ext. intros c. apply max0_Rmax.
Qed.

(** C6.  The activity expenditure is a quarter of the sum over the
    epochs of max(0, estimate), where the estimate is the linear formula
    of the user's gender; an epoch with a negative estimate adds exactly
    0, and no epoch lowers the total. *)
Theorem calculate_triaxial_expenditure_floor (u : user_data) :
  (forall counts,
     calculate_triaxial_expenditure counts u
     = (Rsum (map (fun count => Rmax 0 (ee_per_min u count)) counts) / 4)%R) /\
  (forall count,
     (gender u = "male" ->
      ee_per_min u count
      = (-106.59251 + 0.40825 * IZR (age u) + 0.35249 * weight u - 0.22485 * count)%R) /\
     (gender u = "female" ->
      ee_per_min u count
      = (-56.09672 + 0.38459 * IZR (age u) + 0.16541 * weight u - 0.16912 * count)%R)) /\
  (forall before count after,
     (ee_per_min u count < 0)%R ->
     calculate_triaxial_expenditure (before ++ count :: after) u
     = calculate_triaxial_expenditure (before ++ after) u) /\
  (forall before count after,
     (calculate_triaxial_expenditure (before ++ after) u
      <= calculate_triaxial_expenditure (before ++ count :: after) u)%R).
Proof.
  split; [intros; apply calculate_triaxial_expenditure_eq|].
  split.
  { intros count. unfold ee_per_min. split; intros ->; reflexivity. }
  assert (Hins : forall before count after,
    calculate_triaxial_expenditure (before ++ count :: after) u
    = (calculate_triaxial_expenditure (before ++ after) u + max0 (ee_per_min u count) / 4)%R).
  { intros before count after. rewrite !calculate_triaxial_expenditure_eq.
    rewrite !map_app, !Rsum_app. cbn [map Rsum fold_right].
    fold (Rsum (map (fun count => Rmax 0 (ee_per_min u count)) after)).
    rewrite <- max0_Rmax. lra. }
  split.
  - intros before count after Hneg. rewrite Hins, max0_negative by done. lra.
  - intros before count after. rewrite Hins.
    pose proof (max0_nonneg (ee_per_min u count)). lra.
Qed.

Definition resting_man : user_data := mk_user_data 30 180 70 "male".

Lemma calculate_triaxial_expenditure_floor_witness :
  (ee_per_min resting_man 0 < 0)%R /\
  calculate_triaxial_expenditure ([1] ++ 0 :: [2])%R resting_man
  = calculate_triaxial_expenditure ([1] ++ [2])%R resting_man.
Proof.
  assert (Hneg : (ee_per_min resting_man 0 < 0)%R).
  { unfold ee_per_min, resting_man; simpl. lra. }
  split; [exact Hneg|].
  destruct (calculate_triaxial_expenditure_floor resting_man) as (_ & _ & H & _).
  apply (H [1%R] 0%R [2%R]). exact Hneg.
Defined.

End CaloricProperties.

(** * Further properties of caloricExpenditure.py *)

Section CaloricPipeline.
Import Py CaloricExpenditure CaloricScript.

(** ** Columns *)

(** X13.  [convert_to_triaxial_counts] returns counts exactly when the
    three named columns exist; otherwise it raises [KeyError] for the
    first missing one, in the order x, y, z.  The counts are read off
    the timestamps and the values of the three columns: the names of
    the columns and what else the frame holds do not matter. *)
Theorem convert_to_triaxial_counts_columns (df : DataFrame) (x_col y_col z_col : string) :
  ((exists counts, convert_to_triaxial_counts df x_col y_col z_col = Ok counts) <->
   is_Some (columns df !! x_col) /\ is_Some (columns df !! y_col) /\
   is_Some (columns df !! z_col)) /\
  (columns df !! x_col = None ->
   convert_to_triaxial_counts df x_col y_col z_col = Raise (KeyError x_col)) /\
  (is_Some (columns df !! x_col) -> columns df !! y_col = None ->
   convert_to_triaxial_counts df x_col y_col z_col = Raise (KeyError y_col)) /\
  (is_Some (columns df !! x_col) -> is_Some (columns df !! y_col) ->
   columns df !! z_col = None ->
   convert_to_triaxial_counts df x_col y_col z_col = Raise (KeyError z_col)) /\
  (forall xs ys zs,
     columns df !! x_col = Some xs -> columns df !! y_col = Some ys ->
     columns df !! z_col = Some zs ->
     forall df' x_col' y_col' z_col',
       index df' = index df ->
       columns df' !! x_col' = Some xs -> columns df' !! y_col' = Some ys ->
       columns df' !! z_col' = Some zs ->
       convert_to_triaxial_counts df' x_col' y_col' z_col'
       = convert_to_triaxial_counts df x_col y_col z_col).
Proof.
  unfold convert_to_triaxial_counts, getitem.
  destruct (columns df !! x_col) as [xs|] eqn:Hx;
    destruct (columns df !! y_col) as [ys|] eqn:Hy;
    destruct (columns df !! z_col) as [zs|] eqn:Hz;
    cbn [mbind result_bind];
    (split; [split; [intros [c Hc]; try discriminate Hc; by repeat split
                    |intros (H1 & H2 & H3);
                     try (by destruct H1); try (by destruct H2); try (by destruct H3);
                     by eexists]|]);
    (split; [intros; try done|]); (split; [intros; try done|]); (split; [intros; try done|]);
    try (intros [? ?]; done); try (intros _ [? ?]; done); try (intros _ _ [? ?]; done);
    try (intros ? ? ? ? ? ?; done).
  intros xs' ys' zs' [= <-] [= <-] [= <-] df' x' y' z' Hi Hx' Hy' Hz'.
  rewrite Hx', Hy', Hz', Hi. done.
Qed.

Lemma convert_to_triaxial_counts_columns_witness :
  exists counts, convert_to_triaxial_counts df_three "X" "Y" "Z" = Ok counts.
Proof.
  destruct (convert_to_triaxial_counts_columns df_three "X" "Y" "Z") as (H & _).
  apply H. repeat split; by eexists.
Defined.

(** ** Epochs *)

Lemma Rsum_nonneg (l : list R) : Forall (fun v => (0 <= v)%R) l -> (0 <= Rsum l)%R.
Proof. unfold Rsum. induction 1 as [|v l Hv _ IH]; simpl; lra. Qed.

Lemma magnitude_nonneg (x y z : R) : (0 <= magnitude x y z)%R.
Proof. apply sqrt_pos. Qed.

Lemma vector_magnitude_nonneg (xs ys zs : list R) :
  Forall (fun v => (0 <= v)%R) (vector_magnitude xs ys zs).
Proof.
  revert ys zs. induction xs as [|x xs IH]; intros [|y ys] [|z zs]; simpl; try constructor.
  - apply magnitude_nonneg.
  - apply IH.
Qed.

Lemma filter_snd_nonneg (f : Z * R -> bool) (s : list (Z * R)) :
  Forall (fun v => (0 <= v)%R) (map snd s) ->
  Forall (fun v => (0 <= v)%R) (map snd (List.filter f s)).
Proof.
  induction s as [|p s IH]; simpl; [done|]. intros Hs.
  apply Forall_cons in Hs as [Hp Hs]. destruct (f p); simpl; [constructor|]; auto.
Qed.

Lemma resample_sum_nonneg (freq : Z) (s : list (Z * R)) :
  Forall (fun v => (0 <= v)%R) (map snd s) ->
  Forall (fun v => (0 <= v)%R) (map snd (resample_sum freq s)).
Proof.
  intros Hs. unfold resample_sum. destruct (map fst s) as [|t0 ts]; [constructor|].
  cbn zeta. rewrite map_map. apply Forall_fmap, Forall_forall. intros k _. simpl.
  apply Rsum_nonneg. by apply filter_snd_nonneg.
Qed.

(** The counts are sums of magnitudes: none is negative. *)
Lemma convert_to_triaxial_counts_nonneg (df : DataFrame) (x_col y_col z_col : string)
    (counts : list R) :
  convert_to_triaxial_counts df x_col y_col z_col = Ok counts ->
  Forall (fun c => (0 <= c)%R) counts.
Proof.
  unfold convert_to_triaxial_counts, getitem.
  destruct (columns df !! x_col) as [xs|]; [|done].
  destruct (columns df !! y_col) as [ys|]; [|done].
  destruct (columns df !! z_col) as [zs|]; [|done].
  cbn [mbind result_bind]. intros [= <-].
  apply resample_sum_nonneg.
  assert (H := vector_magnitude_nonneg xs ys zs).
  revert H. generalize (vector_magnitude xs ys zs). generalize (index df).
  intros ts. induction ts as [|t ts IH]; intros [|v vs] Hv; simpl; try constructor.
  - by apply Forall_cons in Hv as [? _].
  - apply IH. by apply Forall_cons in Hv as [_ ?].
Qed.

Lemma filter_filter_ext {A} (f g h : A -> bool) (s : list A) :
  (forall p, f p && g p = h p) -> List.filter f (List.filter g s) = List.filter h s.
Proof.
  intros Hfg. induction s as [|p s IH]; [done|]. cbn [List.filter].
  rewrite <- Hfg. destruct (g p); cbn [List.filter].
  - destruct (f p); cbn; by rewrite IH.
  - by rewrite andb_false_r.
Qed.

Lemma filter_none {A} (f : A -> bool) (s : list A) :
  Forall (fun p => f p = false) s -> List.filter f s = [].
Proof. induction 1 as [|p s Hp _ IH]; [done|]. cbn. by rewrite Hp. Qed.

Lemma filter_every {A} (f : A -> bool) (s : list A) :
  Forall (fun p => f p = true) s -> List.filter f s = s.
Proof. induction 1 as [|p s Hp _ IH]; [done|]. cbn. by rewrite Hp, IH. Qed.

(** A list sorted by [g] is its elements at the least value followed by
    the others. *)
Lemma filter_split_sorted {A} (g : A -> Z) (b0 : Z) (s : list A) :
  StronglySorted Z.le (map g s) -> Forall (fun p => b0 <= g p) s ->
  List.filter (fun p => g p =? b0) s ++ List.filter (fun p => b0 <? g p) s = s.
Proof.
  induction s as [|p s IH]; [done|]. cbn [map]. intros Hs Hge.
  apply StronglySorted_inv in Hs as [Hs Hp]. apply Forall_cons in Hge as [Hp0 Hge].
  cbn [List.filter]. destruct (Z.eqb_spec (g p) b0) as [Heq|Hne].
  - destruct (Z.ltb_spec b0 (g p)); [lia|]. cbn [app]. by rewrite IH.
  - destruct (Z.ltb_spec b0 (g p)); [|lia].
    assert (Hall : Forall (fun q => b0 < g q) s).
    { rewrite List.Forall_map in Hp. eapply Forall_impl; [exact Hp|].
      intros q Hq. simpl in Hq. lia. }
    rewrite (filter_none (fun q => g q =? b0)), (filter_every (fun q => b0 <? g q)); [done| |].
    + eapply Forall_impl; [exact Hall|]. intros q Hq. simpl in *. apply Z.ltb_lt. lia.
    + eapply Forall_impl; [exact Hall|]. intros q Hq. simpl in *. apply Z.eqb_neq. lia.
Qed.

Lemma StronglySorted_filter_map {A} (g : A -> Z) (f : A -> bool) (s : list A) :
  StronglySorted Z.le (map g s) -> StronglySorted Z.le (map g (List.filter f s)).
Proof.
  induction s as [|p s IH]; [done|]. cbn [map]. intros Hs.
  apply StronglySorted_inv in Hs as [Hs Hp]. cbn [List.filter].
  destruct (f p); [|by apply IH]. cbn [map]. constructor; [by apply IH|].
  rewrite List.Forall_map in Hp |- *.
  apply Forall_forall. intros q Hq. rewrite Forall_forall in Hp. apply Hp.
  apply list_elem_of_In in Hq. apply filter_In in Hq as [Hq _]. by apply list_elem_of_In.
Qed.

(** Cut into [n] consecutive bins, bin after bin, a list sorted by bin
    is given back as it is. *)
Lemma concat_bins {A} (g : A -> Z) (n : nat) (b0 : Z) (s : list A) :
  StronglySorted Z.le (map g s) ->
  Forall (fun p => b0 <= g p < b0 + Z.of_nat n) s ->
  concat (map (fun k : nat => List.filter (fun p => g p =? b0 + Z.of_nat k) s) (seq 0 n)) = s.
Proof.
  revert b0 s. induction n as [|n IH]; intros b0 s Hs Hr.
  - destruct Hr as [|p s Hp _]; [done|]. lia.
  - cbn [seq map concat]. rewrite <- seq_shift, map_map.
    assert (Hge : Forall (fun p => b0 <= g p) s).
    { eapply Forall_impl; [exact Hr|]. intros p Hp. simpl in Hp. lia. }
    etrans; [|exact (filter_split_sorted g b0 s Hs Hge)].
    change (Z.of_nat 0) with 0. rewrite Z.add_0_r. f_equal.
    rewrite <- (IH (b0 + 1) (List.filter (fun p => b0 <? g p) s)).
    + f_equal. apply map_ext. intros k. symmetry. apply filter_filter_ext. intros p.
      destruct (Z.eqb_spec (g p) (b0 + 1 + Z.of_nat k)),
               (Z.ltb_spec b0 (g p)), (Z.eqb_spec (g p) (b0 + Z.of_nat (S k)));
        simpl; (reflexivity || lia).
    + by apply StronglySorted_filter_map.
    + apply Forall_forall. intros p Hp. apply list_elem_of_In in Hp.
      apply filter_In in Hp as [Hp Hlt]. apply Z.ltb_lt in Hlt.
      rewrite Forall_forall in Hr. apply list_elem_of_In in Hp. specialize (Hr p Hp).
      simpl in Hr. lia.
Qed.

(** X14.  With sorted timestamps the epochs split the recording: taken
    one after the other, the samples of the epochs are the samples of
    the recording, none dropped and none taken twice, each in the epoch
    of its timestamp; every count is the sum of the vector magnitudes
    of the samples of its epoch, and no count is negative. *)
Theorem convert_to_triaxial_counts_partition
    (df : DataFrame) (x_col y_col z_col : string) (xs ys zs : list R) (t0 tn : Z) :
  columns df !! x_col = Some xs ->
  columns df !! y_col = Some ys ->
  columns df !! z_col = Some zs ->
  length xs = length (index df) ->
  length ys = length (index df) ->
  length zs = length (index df) ->
  Sorted Z.le (index df) -> head (index df) = Some t0 -> last (index df) = Some tn ->
  let bin := bin_of (midnight t0) in
  exists (counts : list R) (epochs : list (list (Z * R))),
    convert_to_triaxial_counts df x_col y_col z_col = Ok counts /\
    concat epochs = zip (index df) (vector_magnitude xs ys zs) /\
    (forall (k : nat) e, epochs !! k = Some e ->
       Forall (fun p => bin (fst p) = bin t0 + Z.of_nat k) e) /\
    counts = map (fun e => Rsum (map snd e)) epochs /\
    Forall (fun c => (0 <= c)%R) counts.
Proof.
  intros Hx Hy Hz Hlx Hly Hlz Hs Hh Hl bin.
  set (vm := zip (index df) (vector_magnitude xs ys zs)).
  assert (Hvl : length (vector_magnitude xs ys zs) = length (index df)).
  { rewrite vector_magnitude_length; lia. }
  assert (Hfst : map fst vm = index df) by (unfold vm; apply fst_zip; lia).
  assert (Hok : convert_to_triaxial_counts df x_col y_col z_col
                = Ok (map snd (resample_sum freq_15S vm))).
  { unfold convert_to_triaxial_counts, getitem. rewrite Hx, Hy, Hz. done. }
  set (n := Z.to_nat (bin tn - bin t0 + 1)).
  set (g := fun p : Z * R => bin (fst p)).
  set (epochs := map (fun k : nat => List.filter (fun p => g p =? bin t0 + Z.of_nat k) vm)
                     (seq 0 n)).
  exists (map snd (resample_sum freq_15S vm)), epochs.
  split; [exact Hok|].
  assert (Hf : 0 < freq_15S) by (rewrite freq_15S_val; lia).
  destruct (sorted_bounds _ _ _ Hs Hh Hl) as (ts & _ & _ & _ & Hrange).
  assert (Hmono : forall t t', t <= t' -> bin t <= bin t').
  { intros t t' Ht. unfold bin, bin_of. apply Z.div_le_mono; lia. }
  split; [|split; [|split]].
  - apply concat_bins.
    + replace (map g vm) with (map bin (index df)).
      2:{ rewrite <- Hfst, map_map. done. }
      apply Sorted_StronglySorted in Hs; [|intros ???; lia].
      clear -Hs Hmono. induction Hs as [|t l Hs IH Ht]; [constructor|].
      cbn [map]. constructor; [exact IH|].
      rewrite List.Forall_map. eapply Forall_impl; [exact Ht|]. intros t' Ht'. by apply Hmono.
    + rewrite <- Hfst, List.Forall_map in Hrange.
      eapply Forall_impl; [exact Hrange|]. intros [t v] Ht. unfold g. simpl in *.
      pose proof (Hmono t0 t ltac:(lia)). pose proof (Hmono t tn ltac:(lia)). unfold n. lia.
  - intros k e He. unfold epochs in He. rewrite list_lookup_fmap in He.
    destruct (seq 0 n !! k) as [k'|] eqn:Hk; [|done]. injection He as <-.
    apply lookup_seq in Hk as [-> _]. apply Forall_forall. intros p Hp.
    apply list_elem_of_In in Hp. apply filter_In in Hp as [_ Hp].
    apply Z.eqb_eq in Hp. exact Hp.
  - rewrite (resample_sum_bins vm t0 tn) by (rewrite Hfst; done).
    unfold epochs. rewrite !map_map. done.
  - by apply (convert_to_triaxial_counts_nonneg df x_col y_col z_col).
Qed.

Lemma convert_to_triaxial_counts_partition_witness :
  exists counts epochs,
    convert_to_triaxial_counts df_three "X" "Y" "Z" = Ok counts /\
    concat epochs = zip (index df_three)
                        (vector_magnitude [3; 0; 1]%R [4; 0; 2]%R [0; 0; 2]%R) /\
    counts = map (fun e => Rsum (map snd e)) epochs.
Proof.
  destruct (convert_to_triaxial_counts_partition df_three "X" "Y" "Z"
              [3; 0; 1]%R [4; 0; 2]%R [0; 0; 2]%R 10000000000 32500000000)
    as (counts & epochs & H1 & H2 & _ & H3 & _); try reflexivity.
  - repeat (apply Sorted_cons || apply HdRel_cons || apply Sorted_nil || apply HdRel_nil);
      unfold Z.le; simpl; discriminate.
  - exists counts, epochs. split; [exact H1|]. split; [exact H2 | exact H3].
Defined.

(** ** The estimate and movement *)

Lemma ee_per_min_antitone (u : user_data) (c c' : R) :
  (c <= c')%R -> (ee_per_min u c' <= ee_per_min u c)%R.
Proof.
  intros Hc. unfold ee_per_min.
  destruct (String.eqb (gender u) "male"); [lra|].
  destruct (String.eqb (gender u) "female"); lra.
Qed.

Lemma max0_mono (a b : R) : (a <= b)%R -> (max0 a <= max0 b)%R.
Proof. intros Hab. unfold max0. destruct (Rlt_dec 0 a), (Rlt_dec 0 b); lra. Qed.

Lemma calculate_triaxial_expenditure_max0 (counts : list R) (u : user_data) :
  calculate_triaxial_expenditure counts u
  = (Rsum (map (fun count => max0 (ee_per_min u count)) counts) / 4)%R.
Proof.
  rewrite calculate_triaxial_expenditure_eq. do 2 f_equal.
  apply map_ext. intros c. by rewrite max0_Rmax.
Qed.

Lemma calculate_triaxial_expenditure_nonneg (counts : list R) (u : user_data) :
  (0 <= calculate_triaxial_expenditure counts u)%R.
Proof.
  rewrite calculate_triaxial_expenditure_max0.
  assert (0 <= Rsum (map (fun count => max0 (ee_per_min u count)) counts))%R; [|lra].
  apply Rsum_nonneg, Forall_fmap, Forall_forall. intros c _. apply max0_nonneg.
Qed.

Lemma calculate_triaxial_expenditure_zero (counts : list R) (u : user_data) :
  (ee_per_min u 0 <= 0)%R -> Forall (fun c => (0 <= c)%R) counts ->
  calculate_triaxial_expenditure counts u = 0%R.
Proof.
  intros Hrest Hc. rewrite calculate_triaxial_expenditure_max0.
  assert (Rsum (map (fun count => max0 (ee_per_min u count)) counts) = 0)%R as ->; [|lra].
  induction Hc as [|c counts Hc _ IH]; [done|].
  cbn [map Rsum fold_right]. fold (Rsum (map (fun count => max0 (ee_per_min u count)) counts)).
  rewrite IH. pose proof (ee_per_min_antitone u 0 c Hc).
  unfold max0. destruct (Rlt_dec 0 (ee_per_min u c)); lra.
Qed.

(** X15.  Movement never raises the estimate: the activity expenditure
    is never negative and does not grow when counts grow; for a user
    whose estimate at rest is not positive it is 0 whatever
    non-negative counts are given. *)
Theorem calculate_triaxial_expenditure_antitone (u : user_data) :
  (forall cs, (0 <= calculate_triaxial_expenditure cs u)%R) /\
  (forall cs cs',
     Forall2 Rle cs cs' ->
     (calculate_triaxial_expenditure cs' u <= calculate_triaxial_expenditure cs u)%R) /\
  (forall cs,
     (ee_per_min u 0 <= 0)%R -> Forall (fun c => (0 <= c)%R) cs ->
     calculate_triaxial_expenditure cs u = 0%R).
Proof.
  split; [|split].
  - intros cs. apply calculate_triaxial_expenditure_nonneg.
  - intros cs cs' Hle. rewrite !calculate_triaxial_expenditure_max0.
    assert (Rsum (map (fun count => max0 (ee_per_min u count)) cs')
            <= Rsum (map (fun count => max0 (ee_per_min u count)) cs))%R; [|lra].
    induction Hle as [|c c' cs cs' Hc _ IH]; [simpl; lra|].
    cbn [map Rsum fold_right].
    fold (Rsum (map (fun count => max0 (ee_per_min u count)) cs)).
    fold (Rsum (map (fun count => max0 (ee_per_min u count)) cs')).
    pose proof (max0_mono _ _ (ee_per_min_antitone u c c' Hc)). lra.
  - intros cs. apply calculate_triaxial_expenditure_zero.
Qed.

Lemma calculate_triaxial_expenditure_antitone_witness :
  calculate_triaxial_expenditure [0; 5; 100]%R resting_man = 0%R.
Proof.
  destruct (calculate_triaxial_expenditure_antitone resting_man) as (_ & _ & H).
  apply H.
  - unfold ee_per_min, resting_man; simpl. lra.
  - repeat constructor; lra.
Defined.

(** ** The prompts *)

Section Prompts.

Context (int_of_str : string -> option Z) (float_of_str : string -> option pyfloat).

Lemma ask_age_spec (inputs rest : list string) (a : Z) :
  ask_age int_of_str inputs = Some (a, rest) ->
  0 < a /\ exists used, inputs = used ++ rest /\ (1 <= length used)%nat.
Proof.
  induction inputs as [|line inputs IH]; [done|]. cbn [ask_age].
  assert (Hrec : ask_age int_of_str inputs = Some (a, rest) ->
                 0 < a /\ exists used, line :: inputs = used ++ rest /\ (1 <= length used)%nat).
  { intros H. destruct (IH H) as (Ha & used & -> & Hlen).
    split; [done|]. exists (line :: used). split; [done|]. simpl. lia. }
  destruct (int_of_str line) as [x|]; [|exact Hrec].
  destruct (Z.leb_spec x 0); [exact Hrec|].
  intros [= <- <-]. split; [done|]. exists [line]. split; [done|]. simpl. lia.
Qed.

Lemma ask_positive_float_spec (inputs rest : list string) (x : pyfloat) :
  ask_positive_float float_of_str inputs = Some (x, rest) ->
  le_zero x = false /\ exists used, inputs = used ++ rest /\ (1 <= length used)%nat.
Proof.
  induction inputs as [|line inputs IH]; [done|]. cbn [ask_positive_float].
  assert (Hrec : ask_positive_float float_of_str inputs = Some (x, rest) ->
                 le_zero x = false /\
                 exists used, line :: inputs = used ++ rest /\ (1 <= length used)%nat).
  { intros H. destruct (IH H) as (Ha & used & -> & Hlen).
    split; [done|]. exists (line :: used). split; [done|]. simpl. lia. }
  destruct (float_of_str line) as [y|]; [|exact Hrec].
  destruct (le_zero y) eqn:Hy; [exact Hrec|].
  intros [= <- <-]. split; [done|]. exists [line]. split; [done|]. simpl. lia.
Qed.

Lemma ask_gender_spec (inputs rest : list string) (g : string) :
  ask_gender inputs = Some (g, rest) ->
  (g = "male" \/ g = "female") /\
  exists used, inputs = used ++ rest /\ (1 <= length used)%nat.
Proof.
  induction inputs as [|line inputs IH]; [done|]. cbn [ask_gender]. cbn zeta.
  destruct (str_in (lower (strip line)) ["male"; "female"]) eqn:Hin.
  - intros [= <- <-]. split.
    + unfold str_in in Hin. cbn [existsb] in Hin. rewrite orb_false_r in Hin.
      apply orb_true_iff in Hin as [H|H]; apply String.eqb_eq in H; auto.
    + exists [line]. split; [done|]. simpl. lia.
  - intros H. destruct (IH H) as (Ha & used & -> & Hlen).
    split; [done|]. exists (line :: used). split; [done|]. simpl. lia.
Qed.

(** X16.  Whatever is typed, the answers [get_user_data] returns hold
    an age above 0, a height and a weight that are not [<= 0], and the
    gender ["male"] or ["female"] in lower case, after at least four
    lines of input; so, for finite height and weight, both are positive
    and [calculate_bmr] has a formula for the gender.  An answer that
    [float] reads as NaN passes the check on height and weight. *)
Theorem get_user_data_validated :
  (forall inputs ans rest,
     get_user_data int_of_str float_of_str inputs = Some (ans, rest) ->
     0 < ans_age ans /\
     le_zero (ans_height ans) = false /\ le_zero (ans_weight ans) = false /\
     (ans_gender ans = "male" \/ ans_gender ans = "female") /\
     (exists used, inputs = used ++ rest /\ (4 <= length used)%nat) /\
     (forall u, user_data_of ans = Some u ->
        0 < age u /\ (0 < height u)%R /\ (0 < weight u)%R /\
        is_Some (calculate_bmr u))) /\
  (forall line rest,
     float_of_str line = Some NaN ->
     ask_positive_float float_of_str (line :: rest) = Some (NaN, rest)).
Proof.
  split.
  - intros inputs ans rest. unfold get_user_data.
    destruct (ask_age int_of_str inputs) as [[a in1]|] eqn:H1; [|done].
    cbn [mbind option_bind].
    destruct (ask_positive_float float_of_str in1) as [[h in2]|] eqn:H2; [|done].
    cbn [mbind option_bind].
    destruct (ask_positive_float float_of_str in2) as [[wt in3]|] eqn:H3; [|done].
    cbn [mbind option_bind].
    destruct (ask_gender in3) as [[g in4]|] eqn:H4; [|done].
    cbn [mbind option_bind]. intros [= <- <-].
    destruct (ask_age_spec _ _ _ H1) as (Ha & u1 & -> & L1).
    destruct (ask_positive_float_spec _ _ _ H2) as (Hh & u2 & -> & L2).
    destruct (ask_positive_float_spec _ _ _ H3) as (Hw & u3 & -> & L3).
    destruct (ask_gender_spec _ _ _ H4) as (Hg & u4 & -> & L4).
    cbn [ans_age ans_height ans_weight ans_gender].
    split; [done|]. split; [done|]. split; [done|]. split; [done|]. split.
    + exists (u1 ++ u2 ++ u3 ++ u4). split; [by rewrite <- !app_assoc|].
      rewrite !length_app. lia.
    + intros u. unfold user_data_of. cbn [ans_age ans_height ans_weight ans_gender].
      destruct h as [hx| | |]; try done. destruct wt as [wx| | |]; try done.
      intros [= <-]. cbn [age height weight]. cbn [le_zero] in Hh, Hw.
      destruct (Rle_dec hx 0); [done|]. destruct (Rle_dec wx 0); [done|].
      split; [done|]. split; [lra|]. split; [lra|].
      unfold calculate_bmr. cbn [gender]. destruct Hg as [-> | ->]; by eexists.
  - intros line rest Hnan. cbn [ask_positive_float]. by rewrite Hnan.
Qed.

End Prompts.

(** ** The script *)

Lemma has_columns_spec (df : DataFrame) (cols : list string) :
  forallb (has_column df) cols = true <-> Forall (fun c => is_Some (columns df !! c)) cols.
Proof.
  induction cols as [|c cols IH]; simpl.
  - split; [constructor|done].
  - rewrite andb_true_iff, IH, Forall_cons. unfold has_column.
    by rewrite bool_decide_eq_true.
Qed.

Lemma last_head_nonempty {A} (l : list A) :
  l <> [] -> exists tl tf, last l = Some tl /\ head l = Some tf.
Proof.
  intros Hl. destruct l as [|a l]; [done|]. 
  destruct (last (a :: l)) as [tl|] eqn:Hlast.
  - by exists tl, a.
  - by apply last_None in Hlast.
Qed.

Lemma total_kcal_unfold (u : user_data) (df : DataFrame) (x y z : string) :
  total_kcal u df x y z
  = match columns df !! x, columns df !! y, columns df !! z with
    | Some xs, Some ys, Some zs =>
        match last (index df), head (index df) with
        | Some t_last, Some t_first =>
            match calculate_bmr u with
            | None => Uncaught TypeError
            | Some bmr =>
                Printed (bmr / 24 * (IZR (t_last - t_first) / 1000000000 / 3600)
                         + calculate_triaxial_expenditure
                             (map snd (resample_sum freq_15S
                                         (zip (index df) (vector_magnitude xs ys zs)))) u)%R
            end
        | _, _ => Uncaught IndexError
        end
    | _, _, _ => SysExit1
    end.
Proof.
  unfold total_kcal, convert_to_triaxial_counts, getitem. cbn [forallb]. unfold has_column.
  destruct (columns df !! x) as [xs|]; [|done].
  destruct (columns df !! y) as [ys|]; [|done].
  destruct (columns df !! z) as [zs|]; [|done].
  rewrite !bool_decide_eq_true_2 by (by eexists). done.
Qed.

(** X17.  How the script ends once the column names are entered: it
    exits with status 1 exactly when one of the three columns is
    missing, so the [KeyError] of [convert_to_triaxial_counts] cannot
    occur; with the columns present it fails on a frame without rows
    ([IndexError]) and on a gender other than ["male"] and ["female"]
    ([TypeError], the BMR being [None]); in every other case it prints
    the BMR prorated over the time between the first and the last
    timestamp plus the activity expenditure, which is not negative. *)
Theorem total_kcal_outcome (u : user_data) (df : DataFrame) (x y z : string) :
  let present := is_Some (columns df !! x) /\ is_Some (columns df !! y) /\
                 is_Some (columns df !! z) in
  (total_kcal u df x y z = SysExit1 <-> ~ present) /\
  (forall e, total_kcal u df x y z <> Uncaught (ColumnError e)) /\
  (total_kcal u df x y z = Uncaught IndexError <-> present /\ index df = []) /\
  (total_kcal u df x y z = Uncaught TypeError <->
   present /\ index df <> [] /\ gender u <> "male" /\ gender u <> "female") /\
  (forall total, total_kcal u df x y z = Printed total ->
     exists t_first t_last bmr counts,
       head (index df) = Some t_first /\ last (index df) = Some t_last /\
       calculate_bmr u = Some bmr /\
       convert_to_triaxial_counts df x y z = Ok counts /\
       total = (bmr / 24 * (IZR (t_last - t_first) / 1000000000 / 3600)
                + calculate_triaxial_expenditure counts u)%R /\
       (bmr / 24 * (IZR (t_last - t_first) / 1000000000 / 3600) <= total)%R).
Proof.
  cbn zeta. rewrite total_kcal_unfold.
  unfold convert_to_triaxial_counts, getitem.
  destruct (columns df !! x) as [xs|] eqn:Hx.
  2:{ assert (Hnp : ~ (is_Some (@None (list R)) /\ is_Some (columns df !! y) /\
                       is_Some (columns df !! z))) by (intros ([? ?] & _); done).
      repeat split; try done; tauto. }
  destruct (columns df !! y) as [ys|] eqn:Hy.
  2:{ assert (Hnp : ~ (is_Some (Some xs) /\ is_Some (@None (list R)) /\
                       is_Some (columns df !! z))) by (intros (_ & [? ?] & _); done).
      repeat split; try done; tauto. }
  destruct (columns df !! z) as [zs|] eqn:Hz.
  2:{ assert (Hnp : ~ (is_Some (Some xs) /\ is_Some (Some ys) /\
                       is_Some (@None (list R)))) by (intros (_ & _ & [? ?]); done).
      repeat split; try done; tauto. }
  assert (Hp : is_Some (Some xs) /\ is_Some (Some ys) /\ is_Some (Some zs))
    by (repeat split; by eexists).
  cbn [mbind result_bind].
  destruct (index df) as [|t ts] eqn:Hidx.
  { cbn [last head]. repeat split; try done. by intros (_ & H & _). }
  destruct (last_head_nonempty (t :: ts)) as (tl & tf & Hl & Hh); [done|].
  rewrite Hl, Hh.
  assert (Hbmr : calculate_bmr u = None <-> gender u <> "male" /\ gender u <> "female").
  { unfold calculate_bmr.
    destruct (String.eqb_spec (gender u) "male"); [split; [done|by intros [? _]]|].
    destruct (String.eqb_spec (gender u) "female"); [split; [done|by intros [_ ?]]|].
    done. }
  destruct (calculate_bmr u) as [b|] eqn:Hb.
  - split; [split; [done|by intros H; destruct H]|]. split; [done|].
    split; [split; [done|by intros [_ ?]]|].
    split.
    { split; [done|]. intros (_ & _ & Hg). apply Hbmr in Hg. done. }
    intros total [= <-]. exists tf, tl, b. eexists. split; [done|]. split; [done|].
    split; [done|]. split; [reflexivity|]. split; [reflexivity|].
    match goal with
    | |- (_ <= _ + ?c)%R =>
        assert (0 <= c)%R by apply calculate_triaxial_expenditure_nonneg
    end.
    lra.
  - split; [split; [done|by intros H; destruct H]|]. split; [done|].
    split; [split; [done|by intros [_ ?]]|].
    split; [|done].
    split; [|done]. intros _. split; [done|]. split; [done|]. by apply Hbmr.
Qed.

(** X18.  For a user whose estimate at rest is not positive (a man of
    30 years and 70 kg, say) the activity term vanishes on every
    recording: all counts are sums of magnitudes, so none is negative,
    and the script prints the prorated BMR alone. *)
Theorem total_kcal_resting (u : user_data) (df : DataFrame) (x y z : string)
    (t_first t_last : Z) (bmr : R) :
  is_Some (columns df !! x) -> is_Some (columns df !! y) -> is_Some (columns df !! z) ->
  head (index df) = Some t_first -> last (index df) = Some t_last ->
  calculate_bmr u = Some bmr ->
  (ee_per_min u 0 <= 0)%R ->
  total_kcal u df x y z
  = Printed (bmr / 24 * (IZR (t_last - t_first) / 1000000000 / 3600))%R.
Proof.
  intros [xs Hx] [ys Hy] [zs Hz] Hh Hl Hb Hrest.
  rewrite total_kcal_unfold, Hx, Hy, Hz, Hl, Hh, Hb. f_equal.
  rewrite calculate_triaxial_expenditure_zero; [lra|done|].
  apply (convert_to_triaxial_counts_nonneg df x y z).
  unfold convert_to_triaxial_counts, getitem. by rewrite Hx, Hy, Hz.
Qed.

Lemma total_kcal_resting_witness :
  exists bmr,
    calculate_bmr resting_man = Some bmr /\
    total_kcal resting_man df_three "X" "Y" "Z"
    = Printed (bmr / 24 * (IZR (32500000000 - 10000000000) / 1000000000 / 3600))%R.
Proof.
  eexists. split; [reflexivity|].
  apply total_kcal_resting; try (by eexists); try reflexivity.
  unfold ee_per_min, resting_man; simpl. lra.
Defined.

End CaloricPipeline.

Section CaloricPipelineSample.
Import Py CaloricExpenditure CaloricScript.

(** [int] and [float] on the few strings of the example. *)
Definition sample_int (s : string) : option Z :=
  if String.eqb s "30" then Some 30 else if String.eqb s "-5" then Some (-5) else None.

Definition sample_float (s : string) : option pyfloat :=
  if String.eqb s "180" then Some (Num 180)
  else if String.eqb s "70" then Some (Num 70)
  else if String.eqb s "nan" then Some NaN
  else None.

Lemma get_user_data_validated_witness :
  exists u,
    user_data_of (mk_answers 30 (Num 180) (Num 70) "male") = Some u /\
    is_Some (calculate_bmr u).
Proof.
  assert (Hget : get_user_data sample_int sample_float
                   ["thirty"; "-5"; "30"; "180"; "70"; "x"; " Male "]
                 = Some (mk_answers 30 (Num 180) (Num 70) "male", [])).
  { unfold get_user_data. cbn [ask_age sample_int]. cbn.
    destruct (Rle_dec 180 0); [lra|]. cbn. destruct (Rle_dec 70 0); [lra|]. reflexivity. }
  destruct (get_user_data_validated sample_int sample_float) as [H _].
  destruct (H _ _ _ Hget) as (_ & _ & _ & _ & _ & Hu).
  exists (mk_user_data 30 180 70 "male"). split; [reflexivity|].
  by apply Hu.
Defined.

Lemma total_kcal_outcome_witness :
  exists total, total_kcal resting_man df_three "X" "Y" "Z" = Printed total.
Proof.
  destruct (total_kcal_outcome resting_man df_three "X" "Y" "Z") as (H1 & _ & H3 & H4 & _).
  destruct (total_kcal resting_man df_three "X" "Y" "Z") as [total| |e] eqn:Ht.
  - by exists total.
  - exfalso. apply (proj1 H1 eq_refl). repeat split; by eexists.
  - destruct e as [e| |].
    + exfalso. destruct (total_kcal_outcome resting_man df_three "X" "Y" "Z") as (_ & H2 & _).
      by apply (H2 e).
    + exfalso. destruct (proj1 H3 eq_refl) as [_ Hnil]. discriminate Hnil.
    + exfalso. destruct (proj1 H4 eq_refl) as (_ & _ & Hm & _). by apply Hm.
Defined.

End CaloricPipelineSample.

(** * Properties of tools/batch_wav2csv.py *)

Section BatchProperties.
Import Py BatchWav2Csv.

Context (exe : string) (proc : list string -> gset string -> completed * gset string).

(** ** The loops as maps *)

Fixpoint io_map {A B} (f : A -> IO B) (l : list A) : IO (list B) :=
  match l with
  | [] => mret []
  | x :: l' => r ← f x ; rs ← io_map f l' ; mret (r :: rs)
  end.

Lemma for_each_io_map {A B} (f : A -> IO B) (body : list B -> A -> IO (list B)) :
  (forall acc x w, body acc x w = let '(r, w') := f x w in (acc ++ [r], w')) ->
  forall l acc w,
    for_each l body acc w = let '(rs, w') := io_map f l w in (acc ++ rs, w').
Proof.
  intros Hbody l. induction l as [|x l IH]; intros acc w.
  - cbn. by rewrite app_nil_r.
  - cbn [for_each io_map]. unfold mbind, IO_bind, mret, IO_ret.
    rewrite Hbody. destruct (f x w) as [r w1]. rewrite IH.
    destruct (io_map f l w1) as [rs w2]. by rewrite <- app_assoc.
Qed.

Lemma io_map_length {A B} (f : A -> IO B) (l : list A) (w : world) :
  length (fst (io_map f l w)) = length l.
Proof.
  revert w. induction l as [|x l IH]; intros w; [done|].
  cbn [io_map]. unfold mbind, IO_bind, mret, IO_ret.
  destruct (f x w) as [r w1]. specialize (IH w1).
  destruct (io_map f l w1) as [rs w2]. simpl in *. by rewrite IH.
Qed.

(** ** One job *)

(** The recorded outcome of a finished converter. *)
Definition outcome_of (r : completed) : bool * string :=
  match r with
  | Completed returncode stderr =>
      if returncode =? 0 then (true, "Success") else (false, "Error: " +:+ strip stderr)
  | TimeoutExpired => (false, "Timeout")
  | OtherException e => (false, "Exception: " +:+ e)
  end.

Lemma convert_wav_to_csv_unfold (f odir : string) (a : args) (w : world) :
  convert_wav_to_csv exe proc f odir a w =
    let out := output_file_of f odir in
    if resume a && bool_decide (out ∈ fs w)
    then ((f, true, "Skipped (already exists)"), w)
    else
      let cmd := build_command exe f out a in
      let '(r, fs') := proc cmd (fs w) in
      ((f, fst (outcome_of r), snd (outcome_of r)), mk_world fs' (log w ++ [Spawn cmd])).
Proof.
  unfold convert_wav_to_csv, subprocess_run, os_path_exists, mbind, IO_bind, mret, IO_ret.
  cbn zeta. destruct (resume a); simpl.
  - destruct (bool_decide _); [done|].
    destruct (proc _ _) as [[rc err| |e] fs']; simpl; [destruct (rc =? 0)|..]; done.
  - destruct (proc _ _) as [[rc err| |e] fs']; simpl; [destruct (rc =? 0)|..]; done.
Qed.

(** The body of the loop of [process_subject], for one file. *)
Definition run_job (a : args) (odir f : string) : IO file_result :=
  if dry_run a then mret (mk_file_result f true "Would process")
  else
    '(wav_file, success, message) ← convert_wav_to_csv exe proc f odir a ;
    mret (mk_file_result wav_file success message).

Lemma run_job_unfold (a : args) (odir f : string) (w : world) :
  run_job a odir f w =
    if dry_run a then (mk_file_result f true "Would process", w)
    else
      let out := output_file_of f odir in
      if resume a && bool_decide (out ∈ fs w)
      then (mk_file_result f true "Skipped (already exists)", w)
      else
        let cmd := build_command exe f out a in
        let '(r, fs') := proc cmd (fs w) in
        (mk_file_result f (fst (outcome_of r)) (snd (outcome_of r)),
         mk_world fs' (log w ++ [Spawn cmd])).
Proof.
  unfold run_job. destruct (dry_run a); [done|].
  unfold mbind, IO_bind, mret, IO_ret. rewrite convert_wav_to_csv_unfold. cbn zeta.
  destruct (resume a && bool_decide _); [done|].
  by destruct (proc _ _).
Qed.

Lemma run_job_wav_file (a : args) (odir f : string) (w : world) :
  wav_file (fst (run_job a odir f w)) = f.
Proof.
  rewrite run_job_unfold. destruct (dry_run a); [done|]. cbn zeta.
  destruct (resume a && bool_decide _); [done|]. by destruct (proc _ _).
Qed.

Lemma io_map_run_job_files (a : args) (odir : string) (files : list string) (w : world) :
  map wav_file (fst (io_map (run_job a odir) files w)) = files.
Proof.
  revert w. induction files as [|f files IH]; intros w; [done|].
  cbn [io_map]. unfold mbind, IO_bind, mret, IO_ret.
  pose proof (run_job_wav_file a odir f w) as Hf.
  destruct (run_job a odir f w) as [r w1]. specialize (IH w1).
  destruct (io_map _ files w1) as [rs w2]. simpl in *. by rewrite Hf, IH.
Qed.

(** ** One subject *)

Definition subject_output_dir_of (hexoskin_dir output_dir : string) : string :=
  os_path_join output_dir (format_0gt3 (get_subject_id hexoskin_dir) +:+ "hexoskin").

Definition summary_of (results : list file_result) : summary :=
  mk_summary (Z.of_nat (length results)) (count_success results)
             (Z.of_nat (length results) - count_success results).

Lemma process_subject_unfold (d out : string) (a : args) (w : world) :
  process_subject exe proc d out a w =
    let odir := subject_output_dir_of d out in
    let w1 := mk_world ({[odir]} ∪ fs w) (log w ++ [Makedirs odir]) in
    let files := sorted (glob_star (fs w1) d ".wav") in
    let '(rs, w2) := io_map (run_job a odir) files w1 in
    (mk_subject_result (get_subject_id d) d files rs (summary_of rs), w2).
Proof.
  unfold process_subject, create_output_structure, get_wav_files, glob, os_makedirs.
  unfold mbind, IO_bind, mret, IO_ret. cbn beta iota zeta.
  fold (subject_output_dir_of d out). set (odir := subject_output_dir_of d out).
  cbn [fs].
  destruct (sorted (glob_star ({[odir]} ∪ fs w) d ".wav")) as [|f files] eqn:Hfiles; [done|].
  rewrite (for_each_io_map (run_job a odir)).
  - destruct (io_map _ _ _) as [rs w2]. done.
  - intros acc x w'. unfold run_job. destruct (dry_run a); [done|].
    unfold mbind, IO_bind, mret, IO_ret.
    destruct (convert_wav_to_csv _ _ _ _ _ _) as [[[wf sc] msg] w'']. done.
Qed.

Lemma io_map_Forall {A B} (P : B -> Prop) (f : A -> IO B) (l : list A) (w : world) :
  (forall x w', P (fst (f x w'))) -> Forall P (fst (io_map f l w)).
Proof.
  intros Hf. revert w. induction l as [|x l IH]; intros w; [constructor|].
  cbn [io_map]. unfold mbind, IO_bind, mret, IO_ret.
  pose proof (Hf x w) as Hx. destruct (f x w) as [r w1]. specialize (IH w1).
  destruct (io_map f l w1) as [rs w2]. simpl in *. by constructor.
Qed.

Lemma count_success_range (rs : list file_result) :
  0 <= count_success rs <= Z.of_nat (length rs).
Proof. unfold count_success. pose proof (List.filter_length_le success rs). lia. Qed.

Lemma run_job_success_message (a : args) (odir f : string) (w : world) :
  let fr := fst (run_job a odir f w) in
  (message fr = "Skipped (already exists)" \/ message fr = "Would process") ->
  success fr = true.
Proof.
  rewrite run_job_unfold. destruct (dry_run a); [done|]. cbn zeta.
  destruct (resume a && bool_decide _); [done|].
  destruct (proc _ _) as [[rc err| |e] fs']; simpl.
  - destruct (rc =? 0); simpl; [done|]. intros [H|H]; discriminate H.
  - intros [H|H]; discriminate H.
  - intros [H|H]; discriminate H.
Qed.

(** C10.  The summary of a subject counts its recorded outcomes:
    [total] is their number, [success] the number of those flagged
    successful, [failed] the rest, so success + failed = total.  An
    outcome is a flag and a message: the outcomes "Skipped (already
    exists)" and "Would process" carry the flag and count as successes.
    A subject without files has totals 0, 0, 0, and a batch without
    files prints N/A for the success rate. *)
Theorem process_subject_summary (d out : string) (a : args) (w : world) :
  let r := fst (process_subject exe proc d out a w) in
  total (subject_summary r) = Z.of_nat (length (results r)) /\
  n_success (subject_summary r) = Z.of_nat (length (List.filter success (results r))) /\
  n_success (subject_summary r) + failed (subject_summary r) = total (subject_summary r) /\
  0 <= failed (subject_summary r) /\
  length (results r) = length (wav_files r) /\
  Forall (fun fr => message fr = "Skipped (already exists)" \/ message fr = "Would process" ->
                    success fr = true) (results r) /\
  (wav_files r = [] ->
     results r = [] /\ subject_summary r = mk_summary 0 0 0 /\
     success_rate (print_summary [r]) = NA) /\
  (forall all_results,
     success_rate (print_summary all_results)
     = if 0 <? total_files (print_summary all_results)
       then SuccessRate (inject_Z (total_success (print_summary all_results))
                         / inject_Z (total_files (print_summary all_results)) * 100)%Q
       else NA).
Proof.
  cbn zeta. rewrite process_subject_unfold. cbn zeta.
  set (odir := subject_output_dir_of d out). set (w1 := mk_world _ _).
  set (files := sorted _).
  pose proof (io_map_length (run_job a odir) files w1) as Hlen.
  pose proof (io_map_Forall
                (fun fr => message fr = "Skipped (already exists)" \/
                           message fr = "Would process" -> success fr = true)
                (run_job a odir) files w1
                (fun f w' => run_job_success_message a odir f w')) as Hmsg.
  destruct (io_map (run_job a odir) files w1) as [rs w2]. cbn [fst] in *.
  cbn [subject_summary results wav_files summary_of total n_success failed].
  pose proof (count_success_range rs) as Hc.
  split; [done|]. split; [done|]. split; [lia|]. split; [lia|]. split; [done|].
  split; [done|]. split.
  - intros Hfiles. rewrite Hfiles in Hlen. destruct rs; [done|discriminate].
  - done.
Qed.

(** ** Failure isolation *)

Lemma io_map_Forall2 {A B} (R : A -> B -> Prop) (f : A -> IO B) (l : list A) (w : world) :
  (forall x w', R x (fst (f x w'))) -> Forall2 R l (fst (io_map f l w)).
Proof.
  intros Hf. revert w. induction l as [|x l IH]; intros w; [constructor|].
  cbn [io_map]. unfold mbind, IO_bind, mret, IO_ret.
  pose proof (Hf x w) as Hx. destruct (f x w) as [r w1]. specialize (IH w1).
  destruct (io_map f l w1) as [rs w2]. simpl in *. by constructor.
Qed.

Lemma filter_all_true {A} (f : A -> bool) (l : list A) :
  Forall (fun x => f x = true) l -> List.filter f l = l.
Proof. induction 1 as [|x l Hx _ IH]; simpl; [done|]. by rewrite Hx, IH. Qed.

(** The converter exits 0 on [f], respectively never does, whatever
    the file system holds. *)
Definition converts (a : args) (odir f : string) : Prop :=
  forall fs', exists err,
    fst (proc (build_command exe f (output_file_of f odir) a) fs') = Completed 0 err.

Definition breaks (a : args) (odir f : string) : Prop :=
  forall fs' err,
    fst (proc (build_command exe f (output_file_of f odir) a) fs') <> Completed 0 err.

Lemma outcome_of_failure (r : completed) :
  (forall err, r <> Completed 0 err) ->
  fst (outcome_of r) = false /\
  (snd (outcome_of r) = "Timeout" \/
   (exists err, snd (outcome_of r) = "Error: " +:+ err) \/
   (exists e, snd (outcome_of r) = "Exception: " +:+ e)).
Proof.
  intros Hr. destruct r as [rc err| |e]; simpl.
  - destruct (Z.eqb_spec rc 0) as [->|_]; [by destruct (Hr err)|].
    split; [done|]. right; left. by eexists.
  - split; [done|]. by left.
  - split; [done|]. right; right. by eexists.
Qed.

Lemma run_job_flag (a : args) (odir f : string) (w : world) :
  dry_run a = false -> resume a = false ->
  let fr := fst (run_job a odir f w) in
  wav_file fr = f /\
  (converts a odir f -> success fr = true) /\
  (breaks a odir f -> success fr = false).
Proof.
  intros Hdry Hres. cbn zeta. rewrite run_job_unfold, Hdry, Hres. cbn [andb]. cbn zeta.
  split; [by destruct (proc _ _)|]. split.
  - intros Hok. destruct (Hok (fs w)) as [err Herr].
    destruct (proc _ _) as [r fs']. simpl in *. by subst r.
  - intros Hbad. specialize (Hbad (fs w)).
    destruct (proc _ _) as [r fs']. simpl in *. by apply outcome_of_failure.
Qed.

(** ** The whole run *)

(** The subject directories a run works on. *)
Definition selected_dirs (a : args) (files : gset string) : list string :=
  filter_subjects a (sorted (glob_star files (input_dir a) "hexoskin")).

Lemma filter_subjects_nil (a : args) : filter_subjects a [] = [].
Proof. unfold filter_subjects. destruct (subjects a) as [l|]; [|done]. by destruct (String.eqb l ""). Qed.

Lemma main_unfold (a : args) (w : world) :
  main exe proc a w =
    if bool_decide (input_dir a ∈ fs w) then
      match selected_dirs a (fs w) with
      | [] => (SysExit 1, w)
      | sel =>
          let w0 := mk_world ({[output_dir a]} ∪ fs w) (log w ++ [Makedirs (output_dir a)]) in
          let '(rs, w1) :=
            io_map (fun d => process_subject exe proc d (output_dir a) a) sel w0 in
          (Return rs (print_summary rs),
           mk_world ({[results_file_of a]} ∪ fs w1)
                    (log w1 ++ [WriteReport (results_file_of a) a rs]))
      end
    else (SysExit 1, w).
Proof.
  unfold main, find_hexoskin_directories, glob, os_path_exists, os_makedirs, write_report.
  unfold mbind, IO_bind, mret, IO_ret. cbn beta iota zeta.
  destruct (bool_decide _); [|done]. cbn [negb]. unfold selected_dirs.
  destruct (sorted (glob_star (fs w) (input_dir a) "hexoskin")) as [|d0 ds] eqn:Hd.
  { by rewrite filter_subjects_nil. }
  destruct (filter_subjects a (d0 :: ds)) as [|s0 sel] eqn:Hsel; [done|].
  rewrite (for_each_io_map (fun d => process_subject exe proc d (output_dir a) a)).
  - cbn [app]. by destruct (io_map _ _ _).
  - intros acc x w'. by destruct (process_subject _ _ _ _ _ _).
Qed.

Lemma process_subject_hexoskin_dir (d out : string) (a : args) (w : world) :
  hexoskin_dir (fst (process_subject exe proc d out a w)) = d.
Proof. rewrite process_subject_unfold. cbn zeta. by destruct (io_map _ _ _). Qed.


(** ** Dry run *)

Definition would_process (f : string) : file_result :=
  mk_file_result f true "Would process".

Definition is_spawn (ev : event) : Prop :=
  match ev with Spawn _ => True | _ => False end.

Lemma io_map_dry (a : args) (odir : string) (files : list string) (w : world) :
  dry_run a = true ->
  io_map (run_job a odir) files w = (map would_process files, w).
Proof.
  intros Hdry. induction files as [|f files IH]; [done|].
  cbn [io_map]. unfold mbind, IO_bind, mret, IO_ret.
  rewrite run_job_unfold, Hdry, IH. done.
Qed.

Lemma process_subject_dry (d out : string) (a : args) (w : world) :
  dry_run a = true ->
  let odir := subject_output_dir_of d out in
  let w1 := mk_world ({[odir]} ∪ fs w) (log w ++ [Makedirs odir]) in
  let files := sorted (glob_star (fs w1) d ".wav") in
  process_subject exe proc d out a w
  = (mk_subject_result (get_subject_id d) d files (map would_process files)
       (mk_summary (Z.of_nat (length files)) (Z.of_nat (length files)) 0), w1).
Proof.
  intros Hdry. cbn zeta. rewrite process_subject_unfold. cbn zeta.
  rewrite io_map_dry by done. do 2 f_equal.
  unfold summary_of, count_success. rewrite filter_all_true.
  - rewrite length_map. f_equal. lia.
  - apply Forall_fmap, Forall_forall. done.
Qed.

Lemma io_map_process_subject_dry (a : args) (sel : list string) (w0 : world) :
  dry_run a = true ->
  let subject_dirs := map (fun d => subject_output_dir_of d (output_dir a)) sel in
  let run := io_map (fun d => process_subject exe proc d (output_dir a) a) sel w0 in
  log (snd run) = log w0 ++ map Makedirs subject_dirs /\
  fs (snd run) = list_to_set subject_dirs ∪ fs w0 /\
  map hexoskin_dir (fst run) = sel /\
  Forall (fun r => results r = map would_process (wav_files r) /\
                   total (subject_summary r) = Z.of_nat (length (wav_files r)) /\
                   n_success (subject_summary r) = total (subject_summary r)) (fst run).
Proof.
  intros Hdry. cbn zeta. revert w0. induction sel as [|d sel IH]; intros w0.
  - cbn. rewrite app_nil_r. split; [done|]. split; [set_solver|done].
  - cbn [io_map]. unfold mbind, IO_bind, mret, IO_ret.
    rewrite process_subject_dry by done.
    set (w1 := mk_world _ _). destruct (IH w1) as (I1 & I2 & I3 & I4).
    destruct (io_map _ sel w1) as [rs w2]. cbn [fst snd] in *.
    split; [|split; [|split]].
    + rewrite I1. unfold w1. cbn [log map]. by rewrite <- app_assoc.
    + rewrite I2. unfold w1. cbn [fs map list_to_set]. set_solver.
    + cbn [map hexoskin_dir]. by rewrite I3.
    + constructor; [|done]. cbn [results wav_files subject_summary total n_success]. done.
Qed.

(** C8, amended.  A dry run spawns no converter, and what it writes is
    the output directory, one output directory per subject and the
    report file, nothing else; it reports every discovered file as
    "Would process" with the success flag, so that each subject's total
    is the number of its discovered files, the total a run without
    [--dry-run] reports from the same file system. *)
Theorem main_dry_run (a : args) (w : world) :
  dry_run a = true ->
  (forall d out a' (w0 : world),
     let r := fst (process_subject exe proc d out a w0) in
     let r' := fst (process_subject exe proc d out a' w0) in
     results r = map would_process (wav_files r) /\
     wav_files r = wav_files r' /\
     total (subject_summary r) = total (subject_summary r')) /\
  match main exe proc a w with
  | (SysExit code, w') => code = 1 /\ w' = w
  | (Return rs printed, w') =>
      let sel := selected_dirs a (fs w) in
      let subject_dirs := map (fun d => subject_output_dir_of d (output_dir a)) sel in
      log w' = log w ++ Makedirs (output_dir a) :: map Makedirs subject_dirs
                     ++ [WriteReport (results_file_of a) a rs] /\
      Forall (fun ev => ~ is_spawn ev) (drop (length (log w)) (log w')) /\
      fs w' = {[results_file_of a]} ∪ (list_to_set subject_dirs ∪ ({[output_dir a]} ∪ fs w)) /\
      map hexoskin_dir rs = sel /\
      Forall (fun r => results r = map would_process (wav_files r) /\
                       total (subject_summary r) = Z.of_nat (length (wav_files r)) /\
                       n_success (subject_summary r) = total (subject_summary r)) rs /\
      printed = print_summary rs
  end.
Proof.
  intros Hdry. split.
  - intros d out a' w0. cbn zeta. rewrite process_subject_dry by done.
    rewrite process_subject_unfold. cbn zeta.
    set (odir := subject_output_dir_of d out). set (w1 := mk_world _ _). set (files := sorted _).
    pose proof (io_map_length (run_job a' odir) files w1) as Hlen.
    destruct (io_map _ files w1) as [rs w2]. cbn [fst] in *.
    cbn [results wav_files subject_summary total summary_of]. by rewrite Hlen.
  - rewrite main_unfold. destruct (bool_decide _); [|done].
    destruct (selected_dirs a (fs w)) as [|s0 sel'] eqn:Hsel; [done|].
    set (sel := s0 :: sel'). cbn zeta.
    set (w0 := mk_world _ _).
    destruct (io_map_process_subject_dry a sel w0 Hdry) as (Hlog & Hfs & Hdirs & Hres).
    destruct (io_map _ sel w0) as [rs w1]. cbn [fst snd log fs] in *.
    split; [|split; [|split; [|done]]].
    + rewrite Hlog. unfold w0. cbn [log]. rewrite <- !app_assoc. done.
    + rewrite Hlog. unfold w0. cbn [log]. rewrite <- !app_assoc.
      rewrite drop_app_length. constructor; [by intros []|].
      apply Forall_app. split.
      * apply Forall_fmap, Forall_forall. by intros ? _ [].
      * constructor; [by intros []|constructor].
    + rewrite Hfs. done.
Qed.

(** ** Resume *)

Definition skipped (f : string) : file_result :=
  mk_file_result f true "Skipped (already exists)".

Lemma io_map_resume (a : args) (odir : string) (files : list string) (w : world) :
  dry_run a = false -> resume a = true ->
  (forall f, f ∈ files -> output_file_of f odir ∈ fs w) ->
  io_map (run_job a odir) files w = (map skipped files, w).
Proof.
  intros Hdry Hres. induction files as [|f files IH]; intros Hout; [done|].
  cbn [io_map]. unfold mbind, IO_bind, mret, IO_ret.
  rewrite run_job_unfold, Hdry, Hres. cbn zeta.
  rewrite bool_decide_eq_true_2 by (apply Hout, elem_of_cons; by left).
  cbn [andb]. rewrite IH; [done|]. intros g Hg. apply Hout, elem_of_cons. by right.
Qed.

(** Every file of the subject [d] has its CSV, and the subject's output
    directory exists. *)
Definition subject_done (out : string) (files : gset string) (d : string) : Prop :=
  subject_output_dir_of d out ∈ files /\
  forall f, f ∈ sorted (glob_star files d ".wav") ->
            output_file_of f (subject_output_dir_of d out) ∈ files.

Lemma process_subject_resume (d out : string) (a : args) (w : world) :
  dry_run a = false -> resume a = true -> subject_done out (fs w) d ->
  let odir := subject_output_dir_of d out in
  let files := sorted (glob_star (fs w) d ".wav") in
  process_subject exe proc d out a w
  = (mk_subject_result (get_subject_id d) d files (map skipped files)
       (mk_summary (Z.of_nat (length files)) (Z.of_nat (length files)) 0),
     mk_world (fs w) (log w ++ [Makedirs odir])).
Proof.
  intros Hdry Hres [Hodir Hout]. cbn zeta. rewrite process_subject_unfold. cbn zeta.
  set (odir := subject_output_dir_of d out) in *.
  assert (Hfs : {[odir]} ∪ fs w = fs w) by set_solver.
  cbn [fs]. rewrite Hfs.
  rewrite io_map_resume; [|done|done|by cbn [fs]].
  do 2 f_equal. unfold summary_of, count_success. rewrite filter_all_true.
  - rewrite length_map. f_equal. lia.
  - apply Forall_fmap, Forall_forall. done.
Qed.

Lemma io_map_process_subject_resume (a : args) (sel : list string) (w0 : world) :
  dry_run a = false -> resume a = true ->
  (forall d, d ∈ sel -> subject_done (output_dir a) (fs w0) d) ->
  let run := io_map (fun d => process_subject exe proc d (output_dir a) a) sel w0 in
  fs (snd run) = fs w0 /\
  log (snd run)
  = log w0 ++ map (fun d => Makedirs (subject_output_dir_of d (output_dir a))) sel /\
  map hexoskin_dir (fst run) = sel /\
  Forall (fun r => results r = map skipped (wav_files r)) (fst run).
Proof.
  intros Hdry Hres. cbn zeta. revert w0. induction sel as [|d sel IH]; intros w0 Hdone.
  - cbn. by rewrite app_nil_r.
  - cbn [io_map]. unfold mbind, IO_bind, mret, IO_ret.
    rewrite process_subject_resume; [|done|done|apply Hdone, elem_of_cons; by left].
    set (w1 := mk_world _ _). destruct (IH w1) as (I1 & I2 & I3 & I4).
    { intros d' Hd'. unfold w1. cbn [fs]. apply Hdone, elem_of_cons. by right. }
    destruct (io_map _ sel w1) as [rs w2]. cbn [fst snd] in *.
    split; [by rewrite I1|]. split; [|split].
    + rewrite I2. unfold w1. cbn [log map]. by rewrite <- app_assoc.
    + cbn [map hexoskin_dir]. by rewrite I3.
    + constructor; [|done]. done.
Qed.

(** *** Two runs of a subject *)

(** On the command lines of the subject's jobs, the converter writes
    the CSV whenever it exits 0, removes nothing, and leaves the
    recordings of [d] as they are. *)
Definition honest (a : args) (odir : string) : Prop :=
  forall f files err,
    fst (proc (build_command exe f (output_file_of f odir) a) files) = Completed 0 err ->
    output_file_of f odir ∈ snd (proc (build_command exe f (output_file_of f odir) a) files).

Definition keeps_files (a : args) (odir : string) : Prop :=
  forall f files,
    files ⊆ snd (proc (build_command exe f (output_file_of f odir) a) files).

Definition keeps_recordings (a : args) (odir d : string) : Prop :=
  forall f files,
    glob_star (snd (proc (build_command exe f (output_file_of f odir) a) files)) d ".wav"
    = glob_star files d ".wav".

Lemma run_job_step (a : args) (odir d f : string) (w : world) :
  dry_run a = false -> resume a = true ->
  honest a odir -> keeps_files a odir -> keeps_recordings a odir d ->
  let '(fr, w') := run_job a odir f w in
  fs w ⊆ fs w' /\
  glob_star (fs w') d ".wav" = glob_star (fs w) d ".wav" /\
  wav_file fr = f /\
  (success fr = true -> output_file_of f odir ∈ fs w') /\
  (output_file_of f odir ∈ fs w -> fr = skipped f).
Proof.
  intros Hdry Hres Hhon Hkeep Hrec. rewrite run_job_unfold, Hdry, Hres. cbn zeta. cbn [andb].
  destruct (bool_decide_reflect (output_file_of f odir ∈ fs w)) as [Hin|Hnin].
  - done.
  - specialize (Hhon f (fs w)). specialize (Hkeep f (fs w)). specialize (Hrec f (fs w)).
    destruct (proc _ _) as [r fs']. cbn [fst snd fs wav_file success] in *.
    split; [done|]. split; [done|]. split; [done|]. split; [|done].
    destruct r as [rc err| |e]; simpl; try discriminate.
    destruct (Z.eqb_spec rc 0) as [->|]; [|discriminate]. intros _. by apply (Hhon err).
Qed.

Lemma io_map_run_job_steps (a : args) (odir d : string) (files : list string) (w : world) :
  dry_run a = false -> resume a = true ->
  honest a odir -> keeps_files a odir -> keeps_recordings a odir d ->
  let '(rs, w') := io_map (run_job a odir) files w in
  fs w ⊆ fs w' /\
  glob_star (fs w') d ".wav" = glob_star (fs w) d ".wav" /\
  Forall2 (fun f fr => wav_file fr = f /\
                       (success fr = true -> output_file_of f odir ∈ fs w') /\
                       (output_file_of f odir ∈ fs w -> fr = skipped f)) files rs.
Proof.
  intros Hdry Hres Hhon Hkeep Hrec. revert w.
  induction files as [|f files IH]; intros w.
  - cbn. split; [done|]. split; [done|constructor].
  - cbn [io_map]. unfold mbind, IO_bind, mret, IO_ret.
    pose proof (run_job_step a odir d f w Hdry Hres Hhon Hkeep Hrec) as Hstep.
    destruct (run_job a odir f w) as [fr w1]. destruct Hstep as (S1 & S2 & S3 & S4 & S5).
    specialize (IH w1). destruct (io_map _ files w1) as [rs w2].
    destruct IH as (I1 & I2 & I3).
    split; [set_solver|]. split; [by rewrite I2|].
    constructor.
    + split; [done|]. split; [|done]. intros Hs. apply I1. by apply S4.
    + eapply Forall2_impl; [exact I3|]. intros g fr' (G1 & G2 & G3).
      split; [done|]. split; [done|]. intros Hg. apply G3. by apply S1.
Qed.

(** C5, amended.  With [--resume], a job whose CSV exists is recorded
    as "Skipped (already exists)" and the world stays as it is: no
    converter is spawned, nothing is written.  A run in which every
    discovered subject is done (its files have their CSVs) and the
    output directory and the report exist records "Skipped" for every
    job, spawns nothing and leaves the set of paths unchanged.  When the
    converter writes the CSV whenever it exits 0, a job that succeeded
    is skipped the next time; a job without a CSV is converted again.
    Of two runs of a subject in a row, with a converter that also
    removes nothing and adds no recordings, the second lists the same
    files and skips every job the first recorded as successful. *)
Theorem resume_skips_existing :
  (forall f odir a w,
     resume a = true -> output_file_of f odir ∈ fs w ->
     convert_wav_to_csv exe proc f odir a w = ((f, true, "Skipped (already exists)"), w)) /\
  (forall a w,
     resume a = true -> dry_run a = false ->
     input_dir a ∈ fs w -> selected_dirs a (fs w) <> [] ->
     output_dir a ∈ fs w -> results_file_of a ∈ fs w ->
     (forall d, d ∈ selected_dirs a (fs w) -> subject_done (output_dir a) (fs w) d) ->
     exists rs w',
       main exe proc a w = (Return rs (print_summary rs), w') /\
       fs w' = fs w /\
       Forall (fun ev => ~ is_spawn ev) (drop (length (log w)) (log w')) /\
       map hexoskin_dir rs = selected_dirs a (fs w) /\
       Forall (fun r => results r = map skipped (wav_files r)) rs) /\
  (forall f odir a w,
     resume a = true ->
     (forall files err,
        fst (proc (build_command exe f (output_file_of f odir) a) files) = Completed 0 err ->
        output_file_of f odir ∈ snd (proc (build_command exe f (output_file_of f odir) a) files)) ->
     let '((_, success1, _), w1) := convert_wav_to_csv exe proc f odir a w in
     (success1 = true ->
      convert_wav_to_csv exe proc f odir a w1 = ((f, true, "Skipped (already exists)"), w1)) /\
     (output_file_of f odir ∉ fs w1 ->
      log (snd (convert_wav_to_csv exe proc f odir a w1))
      = log w1 ++ [Spawn (build_command exe f (output_file_of f odir) a)])) /\
  (forall d out a w,
     resume a = true -> dry_run a = false ->
     honest a (subject_output_dir_of d out) ->
     keeps_files a (subject_output_dir_of d out) ->
     keeps_recordings a (subject_output_dir_of d out) d ->
     let '(r1, w1) := process_subject exe proc d out a w in
     let '(r2, w2) := process_subject exe proc d out a w1 in
     wav_files r2 = wav_files r1 /\
     Forall2 (fun fr1 fr2 => success fr1 = true -> fr2 = skipped (wav_file fr1))
             (results r1) (results r2)).
Proof.
  assert (Hjob : forall f odir a w,
            resume a = true -> output_file_of f odir ∈ fs w ->
            convert_wav_to_csv exe proc f odir a w
            = ((f, true, "Skipped (already exists)"), w)).
  { intros f odir a w Hres Hout. rewrite convert_wav_to_csv_unfold. cbn zeta.
    by rewrite Hres, bool_decide_eq_true_2. }
  split; [exact Hjob|]. split; [|split].
  - intros a w Hres Hdry Hin Hsel Hout Hrep Hdone.
    rewrite main_unfold, bool_decide_eq_true_2 by done.
    destruct (selected_dirs a (fs w)) as [|s0 sel'] eqn:Es; [done|].
    set (sel := s0 :: sel') in *. cbn zeta.
    assert (Hfs0 : {[output_dir a]} ∪ fs w = fs w) by set_solver.
    rewrite Hfs0. set (w0 := mk_world _ _).
    destruct (io_map_process_subject_resume a sel w0 Hdry Hres) as (Hfs & Hlog & Hdirs & Hres').
    { intros d Hd. unfold w0. cbn [fs]. by apply Hdone. }
    destruct (io_map _ sel w0) as [rs w1]. cbn [fst snd] in *.
    eexists _, _. split; [reflexivity|]. cbn [fs log].
    split; [|split; [|done]].
    + rewrite Hfs. unfold w0. cbn [fs]. set_solver.
    + rewrite Hlog. unfold w0. cbn [log]. rewrite <- !app_assoc.
      rewrite drop_app_length. constructor; [by intros []|].
      apply Forall_app. split.
      * apply Forall_fmap, Forall_forall. by intros ? _ [].
      * constructor; [by intros []|constructor].
  - intros f odir a w Hres Hhonest.
    rewrite convert_wav_to_csv_unfold. cbn zeta. rewrite Hres. cbn [andb].
    destruct (bool_decide_reflect (output_file_of f odir ∈ fs w)) as [Hin|Hnin].
    + split; [intros _; by apply Hjob|]. intros Hn. done.
    + specialize (Hhonest (fs w)).
      destruct (proc _ _) as [r fs1] eqn:Hp. cbn [fst snd] in *. split.
      * intros Hs. apply Hjob; [done|]. cbn [fs].
        destruct r as [rc err| |e]; simpl in Hs; try discriminate.
        destruct (Z.eqb_spec rc 0) as [->|]; [|discriminate]. by apply (Hhonest err).
      * intros Hn. rewrite convert_wav_to_csv_unfold. cbn zeta. rewrite Hres.
        rewrite bool_decide_eq_false_2 by done. cbn [andb fs log].
        destruct (proc _ fs1) as [r' fs2]. reflexivity.
  - intros d out a w Hres Hdry Hhon Hkeep Hrec.
    rewrite process_subject_unfold. cbn zeta.
    set (odir := subject_output_dir_of d out) in *.
    set (wa := mk_world ({[odir]} ∪ fs w) _). set (files := sorted _).
    pose proof (io_map_run_job_steps a odir d files wa Hdry Hres Hhon Hkeep Hrec) as H1.
    destruct (io_map (run_job a odir) files wa) as [rs1 w1]. destruct H1 as (A1 & A2 & A3).
    rewrite process_subject_unfold. cbn zeta. fold odir.
    set (wb := mk_world ({[odir]} ∪ fs w1) _).
    assert (Hfiles : sorted (glob_star (fs wb) d ".wav") = files).
    { unfold files, wb. cbn [fs]. f_equal.
      assert (Hodir : {[odir]} ∪ fs w1 = fs w1).
      { unfold wa in A1. cbn [fs] in A1. set_solver. }
      rewrite Hodir. exact A2. }
    rewrite Hfiles.
    pose proof (io_map_run_job_steps a odir d files wb Hdry Hres Hhon Hkeep Hrec) as H2.
    destruct (io_map (run_job a odir) files wb) as [rs2 w2]. destruct H2 as (_ & _ & B3).
    cbn [wav_files results]. split; [done|].
    clear -A3 B3. revert rs2 B3.
    induction A3 as [|f fr1 files rs1 (F1 & F2 & _) _ IH]; intros rs2 B3.
    + apply Forall2_nil_inv_l in B3 as ->. constructor.
    + apply Forall2_cons_inv_l in B3 as (fr2 & rs2' & (_ & _ & G3) & B3 & ->).
      constructor; [|by apply IH].
      intros Hs. rewrite F1. apply G3. unfold wb. cbn [fs]. set_solver.
Qed.

End BatchProperties.

(** * Further properties of tools/batch_wav2csv.py *)

Section BatchDiscovery.
Import Py BatchWav2Csv.

(** ** Discovery *)

Lemma sorted_spec (l : list string) :
  StronglySorted String.le (sorted l) /\ sorted l ≡ₚ l.
Proof.
  unfold sorted. split.
  - apply StronglySorted_merge_sort; apply _.
  - apply merge_sort_Permutation.
Qed.

Lemma glob_star_spec (files : gset string) (dir suffix p : string) :
  p ∈ glob_star files dir suffix <-> p ∈ files /\ glob_match dir suffix p = true.
Proof.
  unfold glob_star. rewrite list_elem_of_In, filter_In, <- list_elem_of_In, elem_of_elements.
  done.
Qed.

Lemma NoDup_list_filter {A} (f : A -> bool) (l : list A) : NoDup l -> NoDup (List.filter f l).
Proof.
  induction 1 as [|x l Hx _ IH]; simpl; [constructor|].
  destruct (f x); [|done]. constructor; [|done].
  intros Hin. apply Hx. apply list_elem_of_In in Hin. apply filter_In in Hin as [Hin _].
  by apply list_elem_of_In.
Qed.

Lemma glob_star_NoDup (files : gset string) (dir suffix : string) :
  NoDup (glob_star files dir suffix).
Proof. apply NoDup_list_filter, NoDup_elements. Qed.

(** The paths [glob] lists are entries of the directory itself. *)
Lemma filter_subjects_spec (a : args) (dirs : list string) (d : string) :
  d ∈ filter_subjects a dirs <->
  d ∈ dirs /\
  match subjects a with
  | None => True
  | Some l => l = "" \/ get_subject_id d ∈ map strip (split "," l)
  end.
Proof.
  unfold filter_subjects. destruct (subjects a) as [l|]; [|tauto].
  destruct (String.eqb_spec l "") as [->|Hl]; [tauto|].
  rewrite list_elem_of_In, filter_In, <- list_elem_of_In. unfold str_in.
  rewrite existsb_exists. split.
  - intros [Hd (s & Hs & Heq)]. split; [done|]. right.
    apply String.eqb_eq in Heq. subst s. by apply list_elem_of_In.
  - intros [Hd [?|Hin]]; [done|]. split; [done|].
    exists (get_subject_id d). split; [by apply list_elem_of_In|]. apply String.eqb_refl.
Qed.

Lemma StronglySorted_list_filter {A} (R : A -> A -> Prop) (f : A -> bool) (l : list A) :
  StronglySorted R l -> StronglySorted R (List.filter f l).
Proof.
  induction 1 as [|x l Hl IH Hx]; simpl; [constructor|].
  destruct (f x); [|done]. constructor; [done|].
  rewrite Forall_forall in Hx |- *. intros y Hy. apply Hx.
  apply list_elem_of_In in Hy. apply filter_In in Hy as [Hy _]. by apply list_elem_of_In.
Qed.

Lemma filter_subjects_filter (a : args) (dirs : list string) :
  exists f, filter_subjects a dirs = List.filter f dirs.
Proof.
  unfold filter_subjects. destruct (subjects a) as [l|].
  - destruct (String.eqb l "").
    + exists (fun _ => true). symmetry. apply filter_all_true. by apply Forall_forall.
    + by eexists.
  - exists (fun _ => true). symmetry. apply filter_all_true. by apply Forall_forall.
Qed.

(** [glob.has_magic]: a name that holds one of these characters is
    read as a pattern. *)
Definition has_magic (s : string) : bool :=
  contains "*" s || contains "?" s || contains "[" s.

(** A directory named plainly: no pattern, no slash at the end. *)
Definition plain_dir (dir : string) : Prop :=
  dir <> "" /\ has_magic dir = false /\ ends_with "/" dir = false.

(** [p] is the entry [name] of [dir]: a visible name that ends in
    [suffix]. *)
Definition entry_of (dir suffix p : string) : Prop :=
  exists name,
    p = dir +:+ "/" +:+ name /\ name <> "" /\ contains "/" name = false /\
    String.prefix "." name = false /\ ends_with suffix name = true.

Lemma str_app_assoc (a b c : string) : (a +:+ b) +:+ c = a +:+ (b +:+ c).
Proof.
  induction a as [|x a IH]; [done|].
  change (String x ((a +:+ b) +:+ c) = String x (a +:+ (b +:+ c))). by rewrite IH.
Qed.

Lemma prefix_append (pre p : string) :
  String.prefix pre p = true <-> exists r, p = pre +:+ r.
Proof.
  revert p. induction pre as [|c pre IH]; intros p.
  - split; [intros _; by exists p|intros _; by destruct p].
  - destruct p as [|d p]; cbn [String.prefix].
    + split; [done|intros [r Hr]; discriminate Hr].
    + destruct (ascii_dec c d) as [<-|Hne].
      * rewrite IH. split; intros [r Hr]; exists r.
        -- by rewrite Hr.
        -- change (String c p = String c (pre +:+ r)) in Hr. by injection Hr.
      * split; [done|]. intros [r Hr].
        change (String d p = String c (pre +:+ r)) in Hr. injection Hr as Hcd _.
        by destruct Hne.
Qed.

Lemma substring_all (s : string) : substring 0 (String.length s) s = s.
Proof. induction s as [|c s IH]; [done|]. cbn. by rewrite IH. Qed.

Lemma length_append (a b : string) :
  String.length (a +:+ b) = (String.length a + String.length b)%nat.
Proof.
  induction a as [|c a IH]; [done|].
  change (S (String.length (a +:+ b)) = S (String.length a + String.length b)).
  by rewrite IH.
Qed.

Lemma drop_chars_append (pre r : string) : drop_chars (String.length pre) (pre +:+ r) = r.
Proof.
  unfold drop_chars. rewrite length_append.
  replace (String.length pre + String.length r - String.length pre)%nat
    with (String.length r) by lia.
  induction pre as [|c pre IH]; [apply substring_all|]. exact IH.
Qed.

Lemma glob_match_entry (dir suffix p : string) :
  dir <> "" -> ends_with "/" dir = false ->
  glob_match dir suffix p = true <-> entry_of dir suffix p.
Proof.
  intros Hne Hsl. unfold glob_match, entry_of, os_path_join.
  change (String.prefix "/" "") with false. cbv iota.
  destruct (String.eqb_spec dir "") as [?|_]; [done|]. rewrite Hsl. cbn [orb].
  change (dir +:+ "/" +:+ "") with (dir +:+ ("/" +:+ "")).
  set (pre := dir +:+ ("/" +:+ "")).
  assert (Hpre : forall name, dir +:+ "/" +:+ name = pre +:+ name).
  { intros name. unfold pre. by rewrite str_app_assoc. }
  split.
  - intros H. apply andb_true_iff in H as [Hp H].
    apply prefix_append in Hp as [name ->]. rewrite drop_chars_append in H.
    apply andb_true_iff in H as [H He]. apply andb_true_iff in H as [H Hd].
    apply andb_true_iff in H as [Hn Hs]. exists name. rewrite Hpre.
    split; [done|]. split.
    { intros ->. discriminate Hn. }
    split; [by apply negb_true_iff|]. split; [by apply negb_true_iff|done].
  - intros (name & -> & Hn & Hs & Hd & He). rewrite Hpre.
    apply andb_true_iff. split; [apply prefix_append; by exists name|].
    rewrite drop_chars_append, Hs, Hd, He.
    by destruct (String.eqb_spec name "").
Qed.


(** ** Output directories *)

Lemma str_len_zero (s : string) : str_len (String "0" s) = S (str_len s).
Proof. destruct s as [|b [|c [|d r]]]; reflexivity. Qed.

Lemma str_len_0 (s : string) : str_len s = 0%nat -> s = "".
Proof. by destruct s. Qed.

Lemma format_0gt3_spec (s : string) :
  (3 <= str_len s -> format_0gt3 s = s)%nat /\
  (str_len s < 3 ->
   str_len (format_0gt3 s) = 3 /\ format_0gt3 ("0" +:+ s) = format_0gt3 s)%nat.
Proof.
  unfold format_0gt3. change ("0" +:+ s) with (String "0" s). rewrite str_len_zero.
  split; intros H.
  - by replace (3 - str_len s)%nat with 0%nat by lia.
  - destruct (str_len s) as [|[|[|n]]] eqn:Hn; [| | |lia]; cbn [Nat.sub repeat String.concat].
    + apply str_len_0 in Hn. by subst s.
    + cbv [append]. by rewrite !str_len_zero, Hn.
    + cbv [append]. by rewrite !str_len_zero, Hn.
Qed.

(** X28.  The output directory of a subject is named by its id padded
    with zeros to three characters: an id of three or more characters
    is kept, and a shorter id gets the directory of the same id with a
    zero in front, so that the subjects [1], [01] and [001] share one
    output directory.  The one call made is [os.makedirs] of that
    directory: it exists afterwards and no path is lost. *)
Theorem create_output_structure_padding (out id : string) (w : world) :
  let '(dir, w') := create_output_structure out id w in
  dir = os_path_join out (format_0gt3 id +:+ "hexoskin") /\
  dir ∈ fs w' /\ fs w ⊆ fs w' /\ log w' = log w ++ [Makedirs dir] /\
  ((3 <= str_len id)%nat -> dir = os_path_join out (id +:+ "hexoskin")) /\
  ((str_len id < 3)%nat ->
   str_len (format_0gt3 id) = 3%nat /\
   fst (create_output_structure out ("0" +:+ id) w) = dir).
Proof.
  unfold create_output_structure, os_makedirs, mbind, IO_bind, mret, IO_ret. cbn [fst fs log].
  destruct (format_0gt3_spec id) as [H3 Hlt].
  split; [done|]. split; [set_solver|]. split; [set_solver|]. split; [done|]. split.
  - intros H. by rewrite (H3 H).
  - intros H. destruct (Hlt H) as [Hl Heq]. split; [done|]. by rewrite Heq.
Qed.

End BatchDiscovery.

Section BatchRun.
Import Py BatchWav2Csv.

Context (exe : string) (proc : list string -> gset string -> completed * gset string).

(** ** The log only grows *)

Lemma io_map_log_app {A B} (f : A -> IO B) :
  (forall x w, exists evs, log (snd (f x w)) = log w ++ evs) ->
  forall l w, exists evs, log (snd (io_map f l w)) = log w ++ evs.
Proof.
  intros Hf l. induction l as [|x l IH]; intros w.
  - exists []. cbn. by rewrite app_nil_r.
  - cbn [io_map]. unfold mbind, IO_bind, mret, IO_ret.
    destruct (Hf x w) as [e1 H1]. destruct (f x w) as [r w1]. cbn [snd] in H1.
    destruct (IH w1) as [e2 H2]. destruct (io_map f l w1) as [rs w2]. cbn [snd] in *.
    exists (e1 ++ e2). by rewrite H2, H1, <- app_assoc.
Qed.

Lemma run_job_log_app (a : args) (odir f : string) (w : world) :
  exists evs, log (snd (run_job exe proc a odir f w)) = log w ++ evs.
Proof.
  rewrite run_job_unfold. destruct (dry_run a); [exists []; cbn; by rewrite app_nil_r|].
  cbn zeta. destruct (resume a && bool_decide _); [exists []; cbn; by rewrite app_nil_r|].
  destruct (proc _ _) as [r fs']. by eexists.
Qed.

Lemma process_subject_log_app (d out : string) (a : args) (w : world) :
  exists evs, log (snd (process_subject exe proc d out a w)) = log w ++ evs.
Proof.
  rewrite process_subject_unfold. cbn zeta.
  set (odir := subject_output_dir_of d out). set (w1 := mk_world _ _). set (files := sorted _).
  destruct (io_map_log_app (run_job exe proc a odir) (run_job_log_app a odir) files w1)
    as [evs Hevs].
  destruct (io_map _ files w1) as [rs w2]. cbn [snd] in *.
  exists (Makedirs odir :: evs). rewrite Hevs. unfold w1. cbn [log]. by rewrite <- app_assoc.
Qed.

(** ** When the run stops *)


(** ** The effects of a plain run *)

(** What a subject adds to the log in a plain run: its output
    directory, then one converter per recording. *)
Definition subject_events (a : args) (r : subject_result) : list event :=
  let odir := subject_output_dir_of (hexoskin_dir r) (output_dir a) in
  Makedirs odir
  :: map (fun f => Spawn (build_command exe f (output_file_of f odir) a)) (wav_files r).

Lemma io_map_run_job_plain (a : args) (odir : string) (files : list string) (w : world) :
  dry_run a = false -> resume a = false ->
  log (snd (io_map (run_job exe proc a odir) files w))
  = log w ++ map (fun f => Spawn (build_command exe f (output_file_of f odir) a)) files.
Proof.
  intros Hdry Hres. revert w. induction files as [|f files IH]; intros w.
  - cbn. by rewrite app_nil_r.
  - cbn [io_map]. unfold mbind, IO_bind, mret, IO_ret.
    rewrite run_job_unfold, Hdry, Hres. cbn [andb]. cbn zeta.
    destruct (proc _ (fs w)) as [r fs1]. specialize (IH (mk_world fs1 (log w ++ [Spawn
      (build_command exe f (output_file_of f odir) a)]))).
    destruct (io_map _ files _) as [rs w2]. cbn [snd log map] in *.
    rewrite IH. by rewrite <- app_assoc.
Qed.

Lemma io_map_process_subject_plain (a : args) (sel : list string) (w0 : world) :
  dry_run a = false -> resume a = false ->
  let run := io_map (fun d => process_subject exe proc d (output_dir a) a) sel w0 in
  log (snd run) = log w0 ++ concat (map (subject_events a) (fst run)).
Proof.
  intros Hdry Hres. cbn zeta. revert w0. induction sel as [|d sel IH]; intros w0.
  - cbn. by rewrite app_nil_r.
  - cbn [io_map]. unfold mbind, IO_bind, mret, IO_ret.
    rewrite process_subject_unfold. cbn zeta.
    set (odir := subject_output_dir_of d (output_dir a)). set (w1 := mk_world _ _).
    set (files := sorted _).
    pose proof (io_map_run_job_plain a odir files w1 Hdry Hres) as Hjobs.
    destruct (io_map (run_job exe proc a odir) files w1) as [frs w2]. cbn [snd] in Hjobs.
    specialize (IH w2). destruct (io_map _ sel w2) as [rs w3]. cbn [fst snd] in *.
    rewrite IH, Hjobs. unfold w1. cbn [log map concat]. unfold subject_events at 2.
    cbn [hexoskin_dir wav_files]. fold odir. by rewrite <- !app_assoc.
Qed.

(** X21.  A run without [--dry-run] and without [--resume] does this
    and nothing else: it makes the output directory; for each selected
    subject, in order, it makes the subject's output directory and
    spawns the converter once per discovered recording, in order, with
    the command line built for the recording and its CSV path; it
    writes the report. *)
Theorem main_plain_run (a : args) (w : world) :
  dry_run a = false -> resume a = false ->
  input_dir a ∈ fs w -> selected_dirs a (fs w) <> [] ->
  exists rs w',
    main exe proc a w = (Return rs (print_summary rs), w') /\
    log w' = log w ++ Makedirs (output_dir a) :: concat (map (subject_events a) rs)
                   ++ [WriteReport (results_file_of a) a rs].
Proof.
  intros Hdry Hres Hin Hsel. rewrite main_unfold, bool_decide_eq_true_2 by done.
  destruct (selected_dirs a (fs w)) as [|s0 sel'] eqn:Es; [done|].
  set (sel := s0 :: sel'). cbn zeta. set (w0 := mk_world _ _).
  pose proof (io_map_process_subject_plain a sel w0 Hdry Hres) as Hlog. cbn zeta in Hlog.
  destruct (io_map _ sel w0) as [rs w1]. cbn [fst snd] in Hlog.
  eexists _, _. split; [reflexivity|]. cbn [log].
  rewrite Hlog. unfold w0. cbn [log]. by rewrite <- !app_assoc.
Qed.

(** ** The printed summary *)

Lemma fold_left_add_acc (l : list Z) (acc : Z) :
  fold_left Z.add l acc = acc + fold_left Z.add l 0.
Proof.
  revert acc. induction l as [|x l IH]; intros acc; simpl; [lia|].
  rewrite (IH (acc + x)), (IH (0 + x)). lia.
Qed.

Lemma Zsum_cons (x : Z) (l : list Z) : Zsum (x :: l) = x + Zsum l.
Proof. unfold Zsum. simpl. by rewrite fold_left_add_acc. Qed.

(** A subject's summary counts its results, one per recording. *)
Definition consistent (r : subject_result) : Prop :=
  subject_summary r = summary_of (results r) /\ length (results r) = length (wav_files r).

Lemma process_subject_consistent (d out : string) (a : args) (w : world) :
  consistent (fst (process_subject exe proc d out a w)).
Proof.
  rewrite process_subject_unfold. cbn zeta.
  set (odir := subject_output_dir_of d out). set (w1 := mk_world _ _). set (files := sorted _).
  pose proof (io_map_length (run_job exe proc a odir) files w1) as Hlen.
  destruct (io_map _ files w1) as [rs w2]. by split.
Qed.

Definition failed_entries (r : subject_result) : list failed_file :=
  flat_map (fun file_result =>
    if negb (success file_result)
    then [mk_failed_file (subject_id r) (os_path_basename (wav_file file_result))
                         (message file_result)]
    else []) (results r).

Lemma failed_entries_length (r : subject_result) :
  (length (failed_entries r) + length (List.filter success (results r))
   = length (results r))%nat.
Proof.
  unfold failed_entries. induction (results r) as [|fr l IH]; [done|].
  cbn [flat_map List.filter]. destruct (success fr); cbn [negb length app]; lia.
Qed.

Lemma print_summary_totals (rs : list subject_result) :
  Forall consistent rs ->
  let p := print_summary rs in
  total_subjects p = Z.of_nat (length rs) /\
  total_files p = Z.of_nat (length (concat (map wav_files rs))) /\
  total_files p = total_success p + total_failed p /\
  0 <= total_success p /\
  Z.of_nat (length (failed_files p)) = total_failed p.
Proof.
  intros Hc. cbn zeta. unfold print_summary.
  cbn [total_subjects total_files total_success total_failed failed_files].
  split; [done|].
  fold failed_entries.
  change (flat_map (fun result => flat_map _ (results result)) rs)
    with (flat_map failed_entries rs).
  induction Hc as [|r rs [Hs Hl] _ (I1 & I2 & I3 & I4)].
  - cbn. done.
  - cbn [map concat flat_map]. rewrite !Zsum_cons, !length_app.
    rewrite Hs. cbn [summary_of total n_success failed]. unfold count_success.
    pose proof (failed_entries_length r). pose proof (List.filter_length_le success (results r)).
    rewrite <- Hl. lia.
Qed.

(** X22.  The summary a run prints adds up: the subjects are the
    selected directories, the files are all discovered recordings,
    converted and failed make up the files, and the list of failed
    files has one line for each failure counted. *)
Theorem main_summary_totals (a : args) (w : world) (rs : list subject_result)
    (printed : printed_summary) (w' : world) :
  main exe proc a w = (Return rs printed, w') ->
  printed = print_summary rs /\
  total_subjects printed = Z.of_nat (length (selected_dirs a (fs w))) /\
  total_files printed = Z.of_nat (length (concat (map wav_files rs))) /\
  total_files printed = total_success printed + total_failed printed /\
  0 <= total_success printed /\
  Z.of_nat (length (failed_files printed)) = total_failed printed /\
  (success_rate printed = NA <-> concat (map wav_files rs) = []).
Proof.
  rewrite main_unfold. destruct (bool_decide _); [|done].
  destruct (selected_dirs a (fs w)) as [|s0 sel'] eqn:Es; [done|].
  set (sel := s0 :: sel'). cbn zeta. set (w0 := mk_world _ _).
  pose proof (io_map_Forall consistent
                (fun d => process_subject exe proc d (output_dir a) a) sel w0
                (fun d w1 => process_subject_consistent d (output_dir a) a w1)) as Hc.
  pose proof (io_map_length (fun d => process_subject exe proc d (output_dir a) a) sel w0) as Hlen.
  destruct (io_map _ sel w0) as [rs' w1]. cbn [fst] in Hc, Hlen.
  intros [= <- <- <-].
  destruct (print_summary_totals rs' Hc) as (T1 & T2 & T3 & T4 & T5).
  split; [done|]. split; [by rewrite T1, Hlen|]. split; [done|]. split; [done|].
  split; [done|]. split; [done|].
  assert (Hrate : success_rate (print_summary rs')
                  = if 0 <? total_files (print_summary rs')
                    then SuccessRate (inject_Z (total_success (print_summary rs'))
                                      / inject_Z (total_files (print_summary rs')) * 100)%Q
                    else NA) by reflexivity.
  rewrite Hrate, T2.
  destruct (concat (map wav_files rs')) as [|f fl]; cbn [length].
  - done.
  - destruct (Z.ltb_spec 0 (Z.of_nat (S (length fl)))); [|lia]. done.
Qed.

End BatchRun.

(** ** A sample batch *)

Section SampleBatch.
Import Py BatchWav2Csv.

(** One subject with five recordings, one of them corrupt. *)
Definition sample_fs : gset string :=
  {[ "raw"; "raw/001hexoskin";
     "raw/001hexoskin/a.wav"; "raw/001hexoskin/b.wav"; "raw/001hexoskin/bad.wav";
     "raw/001hexoskin/c.wav"; "raw/001hexoskin/d.wav" ]}.

(** A converter like [wav2csv.py]: it exits 1 on the corrupt recording,
    with nothing on stderr and nothing written; on any other it writes
    the CSV and its descriptor and exits 0. *)
Definition sample_converter (cmd : list string) (files : gset string)
  : completed * gset string :=
  match cmd with
  | _ :: _ :: wav :: out :: _ =>
      if String.eqb (os_path_basename wav) "bad.wav" then (Completed 1 "", files)
      else (Completed 0 "",
            {[out]} ∪ ({[fst (os_path_splitext out) +:+ ".meta.json"]} ∪ files))
  | _ => (Completed 1 "", files)
  end.

Definition plain_args : args :=
  mk_args "raw" "out" None false false false false false.
Definition resume_args : args :=
  mk_args "raw" "out" None false false false false true.
Definition dry_run_args : args :=
  mk_args "raw" "out" None false false false true false.

Definition sample_world : world := mk_world sample_fs [].

Example sample_paths :
  get_subject_id "raw/001hexoskin" = "001" /\
  subject_output_dir_of "raw/001hexoskin" "out" = "out/001hexoskin" /\
  output_file_of "raw/001hexoskin/a.wav" "out/001hexoskin" = "out/001hexoskin/a.csv" /\
  sorted (glob_star sample_fs "raw" "hexoskin") = ["raw/001hexoskin"] /\
  sorted (glob_star sample_fs "raw/001hexoskin" ".wav")
  = ["raw/001hexoskin/a.wav"; "raw/001hexoskin/b.wav"; "raw/001hexoskin/bad.wav";
     "raw/001hexoskin/c.wav"; "raw/001hexoskin/d.wav"].
Proof. repeat split; vm_compute; reflexivity. Qed.


Lemma process_subject_summary_witness :
  let r := fst (process_subject "python" sample_converter "raw/001hexoskin" "out"
                  resume_args sample_world) in
  n_success (subject_summary r) + failed (subject_summary r) = total (subject_summary r) /\
  total (subject_summary r) = Z.of_nat (length (results r)).
Proof.
  destruct (process_subject_summary "python" sample_converter "raw/001hexoskin" "out"
              resume_args sample_world) as (H1 & _ & H2 & _).
  split; [exact H2 | exact H1].
Defined.

(** C5, as stated, fails: after a first run with [--resume] the corrupt
    recording has no CSV, and the second run converts it again and
    records an error for it; only the four others are skipped. *)
Lemma resume_second_run_not_all_skipped :
  let w1 := snd (main "python" sample_converter resume_args sample_world) in
  exists rs printed w2,
    main "python" sample_converter resume_args w1 = (Return rs printed, w2) /\
    flat_map results rs
    = [ mk_file_result "raw/001hexoskin/a.wav" true "Skipped (already exists)";
        mk_file_result "raw/001hexoskin/b.wav" true "Skipped (already exists)";
        mk_file_result "raw/001hexoskin/bad.wav" false "Error: ";
        mk_file_result "raw/001hexoskin/c.wav" true "Skipped (already exists)";
        mk_file_result "raw/001hexoskin/d.wav" true "Skipped (already exists)" ] /\
    ~ Forall (fun fr => message fr = "Skipped (already exists)") (flat_map results rs) /\
    drop (length (log w1)) (log w2)
    = [ Makedirs "out"; Makedirs "out/001hexoskin";
        Spawn ["python"; "wav2csv.py"; "raw/001hexoskin/bad.wav"; "out/001hexoskin/bad.csv"];
        WriteReport "out/batch_conversion_results.json" resume_args rs ].
Proof.
  cbn zeta.
  destruct (main "python" sample_converter resume_args
              (snd (main "python" sample_converter resume_args sample_world)))
    as [e w2] eqn:Hrun.
  vm_compute in Hrun. injection Hrun as <- <-.
  eexists _, _, _. split; [reflexivity|]. split; [reflexivity|]. split; [|reflexivity].
  intros HF. cbn in HF. rewrite !Forall_cons in HF.
  destruct HF as (_ & _ & Hbad & _). discriminate Hbad.
Qed.

(** The state a complete first run leaves for one subject with one
    recording. *)
Definition done_fs : gset string :=
  {[ "raw"; "raw/001hexoskin"; "raw/001hexoskin/a.wav";
     "out"; "out/001hexoskin"; "out/001hexoskin/a.csv"; "out/001hexoskin/a.meta.json";
     "out/batch_conversion_results.json" ]}.

Lemma resume_skips_existing_witness :
  exists rs w',
    main "python" sample_converter resume_args (mk_world done_fs [])
    = (Return rs (print_summary rs), w') /\
    fs w' = done_fs /\
    flat_map results rs = [skipped "raw/001hexoskin/a.wav"].
Proof.
  destruct (resume_skips_existing "python" sample_converter) as (_ & H & _).
  assert (Hsel : selected_dirs resume_args done_fs = ["raw/001hexoskin"])
    by (vm_compute; reflexivity).
  destruct (H resume_args (mk_world done_fs [])) as (rs & w' & Hrun & Hfs & _ & Hdirs & Hres).
  - reflexivity.
  - reflexivity.
  - compute_done.
  - cbn [fs]. rewrite Hsel. discriminate.
  - compute_done.
  - compute_done.
  - cbn [fs]. rewrite Hsel. intros d Hd. apply list_elem_of_singleton in Hd. subst d.
    split.
    + compute_done.
    + assert (Hfiles : sorted (glob_star done_fs "raw/001hexoskin" ".wav")
                       = ["raw/001hexoskin/a.wav"]) by (vm_compute; reflexivity).
      rewrite Hfiles. intros f Hf. apply list_elem_of_singleton in Hf. subst f.
      compute_done.
  - exists rs, w'. split; [exact Hrun|]. split; [exact Hfs|].
    pose proof Hrun as Hrun'. vm_compute in Hrun'.
    injection Hrun' as Hrs _. rewrite <- Hrs. reflexivity.
Defined.

(** C8, as stated, fails: a dry run creates the output directories and
    writes the report. *)
Lemma dry_run_writes :
  let w' := snd (main "python" sample_converter dry_run_args sample_world) in
  (exists rs,
     log w' = [ Makedirs "out"; Makedirs "out/001hexoskin";
                WriteReport "out/batch_conversion_results.json" dry_run_args rs ]) /\
  ("out/batch_conversion_results.json" ∉ sample_fs) /\
  ("out/batch_conversion_results.json" ∈ fs w') /\
  ("out/001hexoskin" ∈ fs w') /\
  fs w' <> sample_fs.
Proof.
  cbn zeta.
  assert (Hnot : "out/batch_conversion_results.json" ∉ sample_fs).
  { compute_done. }
  assert (Hin : "out/batch_conversion_results.json"
                ∈ fs (snd (main "python" sample_converter dry_run_args sample_world))).
  { compute_done. }
  split; [eexists; vm_compute; reflexivity|]. split; [exact Hnot|]. split; [exact Hin|].
  split; [compute_done|].
  intros Heq. rewrite Heq in Hin. contradiction.
Qed.

Lemma main_dry_run_witness :
  let r := fst (process_subject "python" sample_converter "raw/001hexoskin" "out"
                  dry_run_args sample_world) in
  let r' := fst (process_subject "python" sample_converter "raw/001hexoskin" "out"
                   plain_args sample_world) in
  results r = map would_process (wav_files r) /\
  total (subject_summary r) = total (subject_summary r').
Proof.
  destruct (main_dry_run "python" sample_converter dry_run_args sample_world eq_refl)
    as [H _].
  destruct (H "raw/001hexoskin" "out" plain_args sample_world) as (H1 & _ & H2).
  split; [exact H1 | exact H2].
Defined.

(** Two runs of the sample subject in a row: the second skips the four
    recordings the first converted and tries the corrupt one again. *)
Example sample_subject_twice :
  let '(r1, w1) := process_subject "python" sample_converter "raw/001hexoskin" "out"
                     resume_args sample_world in
  let '(r2, w2) := process_subject "python" sample_converter "raw/001hexoskin" "out"
                     resume_args w1 in
  map message (results r1) = ["Success"; "Success"; "Error: "; "Success"; "Success"] /\
  map message (results r2)
  = ["Skipped (already exists)"; "Skipped (already exists)"; "Error: ";
     "Skipped (already exists)"; "Skipped (already exists)"].
Proof. vm_compute. split; reflexivity. Qed.

End SampleBatch.

Section SampleBatchRun.
Import Py BatchWav2Csv.



Lemma main_plain_run_witness :
  exists rs w',
    main "python" sample_converter plain_args sample_world
    = (Return rs (print_summary rs), w') /\
    log w' = Makedirs "out" :: concat (map (subject_events "python" plain_args) rs)
             ++ [WriteReport "out/batch_conversion_results.json" plain_args rs].
Proof.
  destruct (main_plain_run "python" sample_converter plain_args sample_world)
    as (rs & w' & H1 & H2).
  - reflexivity.
  - reflexivity.
  - compute_done.
  - vm_compute. discriminate.
  - exists rs, w'. split; [exact H1 | exact H2].
Defined.

Lemma main_summary_totals_witness :
  match main "python" sample_converter plain_args sample_world with
  | (Return rs printed, _) =>
      total_files printed = total_success printed + total_failed printed /\
      Z.of_nat (length (failed_files printed)) = total_failed printed
  | _ => False
  end.
Proof.
  destruct (main "python" sample_converter plain_args sample_world)
    as [[code|rs printed] w'] eqn:Hrun.
  - vm_compute in Hrun. discriminate Hrun.
  - destruct (main_summary_totals "python" sample_converter plain_args sample_world
                rs printed w' Hrun) as (_ & _ & _ & H1 & _ & H2 & _).
    split; [exact H1 | exact H2].
Defined.

Lemma create_output_structure_padding_witness :
  fst (create_output_structure "out" "01" sample_world) = "out/001hexoskin" /\
  fst (create_output_structure "out" "1" sample_world) = "out/001hexoskin".
Proof.
  pose proof (create_output_structure_padding "out" "1" sample_world) as H.
  destruct (create_output_structure "out" "1" sample_world) as [dir w'] eqn:Hrun.
  destruct H as (_ & _ & _ & _ & _ & H). destruct (H ltac:(simpl; lia)) as [_ Heq].
  assert (Hdir : dir = "out/001hexoskin").
  { vm_compute in Hrun. by injection Hrun as <- _. }
  rewrite Hdir in Heq. split; [exact Heq|exact Hdir].
Defined.

End SampleBatchRun.

(** * The batch tool running tools/wav2csv.py *)

Section BatchWithWav2Csv.
Import Py BatchWav2Csv.

(** The machine the converter runs on: what the files hold, where a
    file can be created given the files that exist, and for a command
    whether the process is still running after 300 seconds; it is then
    killed, having created the first [k] of its files. *)
Context (exe : string)
        (abspath : string -> string)
        (with_suffix : string -> string -> option string)
        (traceback : string)
        (content : string -> Wav2Csv.input)
        (creatable : gset string -> string -> bool)
        (killed : list string -> gset string -> option nat).

(** The converter process when the command's script is
    [tools/wav2csv.py]: it sees the files that exist; unless it is
    killed it ends with the status and the standard error of [main],
    and it adds the files [main] writes. *)
Definition wav2csv_process (cmd : list string) (files : gset string)
  : completed * gset string :=
  let r := Wav2Csv.main abspath with_suffix traceback
             (fun p => if bool_decide (p ∈ files) then content p else Wav2Csv.NoSuchFile)
             (creatable files) (tail cmd) in
  match killed cmd files with
  | Some k =>
      (TimeoutExpired,
       list_to_set (map Wav2Csv.artifact_path (take k (Wav2Csv.written r))) ∪ files)
  | None =>
      (Completed (Wav2Csv.exit_status r) (Wav2Csv.stderr_text r),
       list_to_set (map Wav2Csv.artifact_path (Wav2Csv.written r)) ∪ files)
  end.

Lemma not_a_flag (s : string) :
  String.prefix "--" s = false ->
  String.eqb "--normalize" s = false /\ String.eqb "--mono" s = false.
Proof.
  intros Hs. split.
  - destruct (String.eqb_spec "--normalize" s) as [<-|]; [discriminate Hs|done].
  - destruct (String.eqb_spec "--mono" s) as [<-|]; [discriminate Hs|done].
Qed.

Lemma build_command_flags (f out : string) (a : args) :
  String.prefix "--" f = false -> String.prefix "--" out = false ->
  existsb (String.eqb "--normalize") (tail (build_command exe f out a)) = normalize a /\
  existsb (String.eqb "--mono") (tail (build_command exe f out a)) = mono a.
Proof.
  intros Hf Hout. destruct (not_a_flag f Hf) as [F1 F2], (not_a_flag out Hout) as [O1 O2].
  unfold build_command. cbn [tail app existsb]. rewrite F1, F2, O1, O2.
  destruct (normalize a), (mono a); done.
Qed.

(** What [main] does with a command line that names its output. *)
Lemma main_with_output (lookup : string -> Wav2Csv.input) (can : string -> bool)
    (a0 f out : string) (flags : list string) :
  String.prefix "--" out = false ->
  Wav2Csv.main abspath with_suffix traceback lookup can (a0 :: f :: out :: flags)
  = match lookup f with
    | Wav2Csv.Wave w =>
        match Wav2Csv.read_wav_file w with
        | Ok (sr, data, _) =>
            match Wav2Csv.write_csv_minimal abspath f data sr out
                    (existsb (String.eqb "--normalize") (a0 :: f :: out :: flags))
                    (existsb (String.eqb "--mono") (a0 :: f :: out :: flags)) with
            | Ok (csv, m) =>
                if can out then
                  match with_suffix out ".meta.json" with
                  | Some meta_path =>
                      if can meta_path
                      then Wav2Csv.mk_run 0 ""
                             [Wav2Csv.CsvFile out csv; Wav2Csv.MetaFile meta_path m]
                      else Wav2Csv.mk_run 1 "" [Wav2Csv.CsvFile out csv]
                  | None => Wav2Csv.mk_run 1 "" [Wav2Csv.CsvFile out csv]
                  end
                else Wav2Csv.mk_run 1 "" []
            | Raise _ => Wav2Csv.mk_run 1 "" []
            end
        | Raise _ => Wav2Csv.mk_run 1 "" []
        end
    | _ => Wav2Csv.mk_run 1 "" []
    end.
Proof.
  intros Hout. unfold Wav2Csv.main. rewrite Hout. cbn [negb].
  destruct (lookup f) as [| |w]; [done..|].
  destruct (Wav2Csv.read_wav_file w) as [[[sr data] info]|e]; [|done].
  destruct (Wav2Csv.write_csv_minimal _ _ _ _ _ _ _) as [[csv m]|e]; [|done].
  by destruct (can out).
Qed.

Lemma prefix_cons_ne (a b : ascii) (s t : string) :
  a <> b -> String.prefix (String a s) (String b t) = false.
Proof. intros Hab. cbn [String.prefix]. by destruct (ascii_dec a b). Qed.

Lemma os_path_join_no_dashes (dir name : string) :
  dir <> "" -> String.prefix "--" dir = false ->
  String.prefix "--" (os_path_join dir name) = false.
Proof.
  intros Hne Hdir. unfold os_path_join.
  destruct (String.prefix "/" name) eqn:Habs.
  - destruct name as [|c r]; cbn [String.prefix] in Habs; [discriminate Habs|].
    destruct (ascii_dec "/" c) as [<-|]; [|discriminate Habs]. reflexivity.
  - destruct dir as [|c1 [|c2 r2]]; [done| |].
    + destruct (ascii_dec "-" c1) as [<-|Hc]; [reflexivity|].
      destruct (_ || _); by apply prefix_cons_ne.
    + assert (Hp : forall x, String.prefix "--" (String c1 (String c2 x)) = false).
      { intros x. cbn [String.prefix] in Hdir |- *.
        destruct (ascii_dec "-" c1); [|done]. destruct (ascii_dec "-" c2); [|done].
        by destruct r2. }
      destruct (_ || _); apply Hp.
Qed.

(** X11.  A job of the batch tool whose converter is [wav2csv.py]
    succeeds exactly when the converter is not killed at the time
    limit, the recording exists and is decoded, and both the CSV and
    the descriptor can be created; the converter has then written the
    CSV at the path the batch tool chose, processed with the options of
    the batch run.  A job whose converter is killed is recorded with
    the message ["Timeout"].  A job on which the converter exits with 1
    is recorded with the bare message ["Error: "]: the converter prints
    its diagnostics on standard output, and the batch tool reports
    standard error only.  No file is removed. *)
Theorem convert_wav_to_csv_runs_wav2csv (f odir : string) (a : args) (w : world) :
  let out := output_file_of f odir in
  resume a && bool_decide (out ∈ fs w) = false ->
  String.prefix "--" f = false ->
  String.prefix "--" out = false ->
  exists s msg w',
    convert_wav_to_csv exe wav2csv_process f odir a w = ((f, s, msg), w') /\
    fs w ⊆ fs w' /\
    (s = true <->
     killed (build_command exe f out a) (fs w) = None /\
     f ∈ fs w /\
     exists wv sr data info meta_path,
       content f = Wav2Csv.Wave wv /\ Wav2Csv.read_wav_file wv = Ok (sr, data, info) /\
       creatable (fs w) out = true /\
       with_suffix out ".meta.json" = Some meta_path /\
       creatable (fs w) meta_path = true) /\
    (s = true ->
     msg = "Success" /\ out ∈ fs w' /\
     exists wv sr data info csv m,
       content f = Wav2Csv.Wave wv /\ Wav2Csv.read_wav_file wv = Ok (sr, data, info) /\
       Wav2Csv.write_csv_minimal abspath f data sr out (normalize a) (mono a) = Ok (csv, m)) /\
    (s = false ->
     match killed (build_command exe f out a) (fs w) with
     | Some _ => msg = "Timeout"
     | None => msg = "Error: "
     end).
Proof.
  intros out Hres Hf Hout.
  rewrite convert_wav_to_csv_unfold. cbn zeta. fold out. rewrite Hres.
  unfold wav2csv_process.
  destruct (killed (build_command exe f out a) (fs w)) as [k|] eqn:Hk.
  { eexists _, _, _. split; [reflexivity|]. cbn. split; [set_solver|].
    split; [split; [done|by intros [? _]]|]. split; [done|intros _; reflexivity]. }
  destruct (build_command_flags f out a Hf Hout) as [Hn Hm].
  assert (Hcmd : tail (build_command exe f out a)
                 = "wav2csv.py" :: f :: out ::
                   ((if normalize a then ["--normalize"] else [])
                    ++ (if mono a then ["--mono"] else []))) by done.
  rewrite Hcmd in Hn, Hm |- *. rewrite main_with_output by done. rewrite Hn, Hm.
  destruct (bool_decide_reflect (f ∈ fs w)) as [Hin|Hnin].
  2:{ eexists _, _, _. split; [reflexivity|]. cbn. split; [set_solver|].
      split; [split; [done|by intros (_ & ? & _)]|]. split; [done|intros _; reflexivity]. }
  destruct (content f) as [| |wv] eqn:Hc.
  1,2: eexists _, _, _; (split; [reflexivity|]); cbn; (split; [set_solver|]);
       (split; [split; [done|by intros (_&_&?&?&?&?&?&?&_)]|]);
       (split; [done|intros _; reflexivity]).
  destruct (Wav2Csv.read_wav_file wv) as [[[sr data] info]|e] eqn:Hr.
  2:{ eexists _, _, _. split; [reflexivity|]. cbn. split; [set_solver|].
      split; [split; [done|intros (_&_&?&?&?&?&?&[= <-]&?&_); congruence]|].
      split; [done|intros _; reflexivity]. }
  destruct (read_wav_file_Ok_inv wv sr data info Hr) as (_ & _ & _ & Hfr & -> & _).
  destruct (write_csv_minimal_ok abspath f data (Wav2Csv.getframerate wv) out
              (normalize a) (mono a) Hfr) as (csv & m & Hw & _).
  rewrite Hw.
  destruct (creatable (fs w) out) eqn:Hco.
  2:{ eexists _, _, _. split; [reflexivity|]. cbn. split; [set_solver|].
      split; [split; [done|intros (_&_&?&?&?&?&?&_&_&?&_); congruence]|].
      split; [done|intros _; reflexivity]. }
  destruct (with_suffix out ".meta.json") as [mp|] eqn:Hmp.
  2:{ eexists _, _, _. split; [reflexivity|]. cbn. split; [set_solver|].
      split; [split; [done|intros (_&_&?&?&?&?&?&_&_&_&?&_); congruence]|].
      split; [done|intros _; reflexivity]. }
  destruct (creatable (fs w) mp) eqn:Hcm.
  - eexists _, _, _. split; [reflexivity|]. cbn. split; [set_solver|].
    split; [split; [|done]|split; [|done]].
    + intros _. split; [done|]. split; [done|].
      by exists wv, (Wav2Csv.getframerate wv), data, info, mp.
    + intros _. split; [done|]. split; [set_solver|].
      by exists wv, (Wav2Csv.getframerate wv), data, info, csv, m.
  - eexists _, _, _. split; [reflexivity|]. cbn. split; [set_solver|].
    split; [split; [done|intros (_&_&?&?&?&?&?&_&_&_&?&?); congruence]|].
    split; [done|intros _; reflexivity].
Qed.

(** X12.  Run with [wav2csv.py], a subject's jobs meet what the resume
    guarantee asks of a converter: whenever the converter exits with 0
    the CSV the batch tool will look for exists, and no file is ever
    removed.  It is enough that the output directory has a name that
    does not start with two dashes. *)
Theorem wav2csv_process_honest (a : args) (odir : string) :
  odir <> "" -> String.prefix "--" odir = false ->
  honest exe wav2csv_process a odir /\ keeps_files exe wav2csv_process a odir.
Proof.
  intros Hne Hdir. split.
  - intros f files err. set (out := output_file_of f odir).
    assert (Hout : String.prefix "--" out = false) by (by apply os_path_join_no_dashes).
    unfold wav2csv_process.
    destruct (killed (build_command exe f out a) files); [by intros [=]|].
    assert (Hcmd : tail (build_command exe f out a)
                   = "wav2csv.py" :: f :: out ::
                     ((if normalize a then ["--normalize"] else [])
                      ++ (if mono a then ["--mono"] else []))) by done.
    rewrite Hcmd, main_with_output by done. cbn [fst snd].
    destruct (bool_decide (f ∈ files)); [|by intros [=]].
    destruct (content f) as [| |wv]; try by intros [=].
    destruct (Wav2Csv.read_wav_file wv) as [[[sr data] info]|e]; [|by intros [=]].
    destruct (Wav2Csv.write_csv_minimal _ _ _ _ _ _ _) as [[csv m]|e]; [|by intros [=]].
    destruct (creatable files out); [|by intros [=]].
    destruct (with_suffix out ".meta.json") as [mp|]; [|by intros [=]].
    destruct (creatable files mp); [|by intros [=]].
    intros _. cbn. set_solver.
  - intros f files. unfold wav2csv_process.
    destruct (killed (build_command exe f (output_file_of f odir) a) files);
      cbn [snd]; set_solver.
Qed.

End BatchWithWav2Csv.

Section BatchWithWav2CsvSample.
Import Py BatchWav2Csv.

Definition one_recording (p : string) : Wav2Csv.input :=
  if String.eqb p "in/001hexoskin/a.wav" then Wav2Csv.Wave two_samples else Wav2Csv.NotWave.

Lemma convert_wav_to_csv_runs_wav2csv_witness :
  exists msg w',
    convert_wav_to_csv "python3"
      (wav2csv_process (fun p => p) (fun p s => Some (p +:+ s)) "Traceback" one_recording
                       (fun _ _ => true) (fun _ _ => None))
      "in/001hexoskin/a.wav" "out/001hexoskin" plain_args
      (mk_world {["in/001hexoskin/a.wav"]} [])
    = (("in/001hexoskin/a.wav", true, msg), w') /\
    msg = "Success" /\ "out/001hexoskin/a.csv" ∈ fs w'.
Proof.
  destruct (convert_wav_to_csv_runs_wav2csv "python3" (fun p => p) (fun p s => Some (p +:+ s))
              "Traceback" one_recording (fun _ _ => true) (fun _ _ => None)
              "in/001hexoskin/a.wav" "out/001hexoskin" plain_args
              (mk_world {["in/001hexoskin/a.wav"]} []))
    as (s & msg & w' & Hrun & _ & Hiff & Hok & _); [reflexivity..|].
  assert (Hs : s = true).
  { apply Hiff. split; [reflexivity|]. split; [compute_done|].
    eexists two_samples, _, _, _, _. repeat split; reflexivity. }
  subst s. destruct (Hok eq_refl) as (Hmsg & Hout & _).
  exists msg, w'. split; [exact Hrun|]. split; [exact Hmsg|exact Hout].
Defined.

Lemma wav2csv_process_honest_witness :
  honest "python3"
    (wav2csv_process (fun p => p) (fun p s => Some (p +:+ s)) "Traceback" one_recording
                     (fun _ _ => true) (fun _ _ => None))
    plain_args "out/001hexoskin".
Proof.
  apply (wav2csv_process_honest "python3" (fun p => p) (fun p s => Some (p +:+ s))
           "Traceback" one_recording (fun _ _ => true) (fun _ _ => None)
           plain_args "out/001hexoskin"); [discriminate|reflexivity].
Defined.

End BatchWithWav2CsvSample.
